(** * DigitalOcean Spaces image uploader ([upload_images.py])

    A shallow embedding of [ImageUploader] and the properties of its
    thumbnail generator, its per-file upload task and its batch
    orchestrator.

    - Python [int] is [Z]; Python [float] is the kernel's binary64
      ([PrimFloat]), so that [w / h], [300 * ratio] and [int(...)] round
      the way CPython rounds them.
    - The S3 client, the local file system, Pillow's decoder, the statistics
      dictionary and the logger form the [world]; the methods are programs
      ([prog]) over the operations they perform on it, interpreted by [run].
    - The thread pool of [_upload_concurrent] interleaves the programs of a
      batch one operation at a time, under an explicit schedule. *)

From Stdlib Require Import ZArith QArith Floats Uint63 Lia Ascii String.
From stdpp Require Import gmap strings list.
Close Scope Q_scope.
Open Scope Z_scope.

(** ** Python values *)

Module Py.

(** Exceptions the uploader can meet. [ClientError] is botocore's error for
    a response of the service (404, 403, 5xx, ...); the other botocore
    errors (no credentials, endpoint unreachable, time-out) derive from
    [BotoCoreError], not from [ClientError]. All of them derive from
    [Exception]. *)
Inductive exn : Type :=
| ClientError (code : string)
| BotoCoreError (name : string)
| OSError (msg : string)
| FileNotFoundError (msg : string)
| ValueError (msg : string)
| ZeroDivisionError
| OverflowError
| OtherException (name : string).

Definition is_ClientError (e : exn) : bool :=
  match e with ClientError _ => true | _ => false end.

(** [float(n)] for an int below 2^63 (image sizes are C ints). *)
Definition float_of_int (n : Z) : float := PrimFloat.of_uint63 (Uint63.of_Z n).

(** [a / b] on ints: true division, [ZeroDivisionError] on [b == 0]. *)
Definition int_truediv (a b : Z) : exn + float :=
  if b =? 0 then inl ZeroDivisionError
  else inr (float_of_int a / float_of_int b)%float.

(** [n * x] with [n] an int and [x] a float. *)
Definition int_mul_float (n : Z) (x : float) : float :=
  (float_of_int n * x)%float.

(** [n / x] with [n] an int and [x] a float. *)
Definition int_div_float (n : Z) (x : float) : exn + float :=
  if PrimFloat.is_zero x then inl ZeroDivisionError
  else inr (float_of_int n / x)%float.

(** [int(x)]: the float truncated toward zero; [OverflowError] on an
    infinity, [ValueError] on a NaN. *)
Definition int_of_float (x : float) : exn + Z :=
  match Prim2SF x with
  | S754_zero _ => inr 0
  | S754_finite s m e =>
      let v := if 0 <=? e then Z.pos m * 2 ^ e else Z.pos m / 2 ^ (- e) in
      inr (if s then - v else v)
  | S754_infinity _ => inl OverflowError
  | S754_nan => inl (ValueError "cannot convert float NaN to integer")
  end.

(** [round(x)]: the nearest integer, ties to even. The uploader never
    calls it; the specification's wording of the resize step does. *)
Definition round_of_float (x : float) : exn + Z :=
  match Prim2SF x with
  | S754_zero _ => inr 0
  | S754_finite s m e =>
      let v :=
        if 0 <=? e then Z.pos m * 2 ^ e
        else
          let d := 2 ^ (- e) in
          let q := Z.pos m / d in
          let r := Z.pos m mod d in
          match 2 * r ?= d with
          | Lt => q
          | Gt => q + 1
          | Eq => if Z.even q then q else q + 1
          end in
      inr (if s then - v else v)
  | S754_infinity _ => inl OverflowError
  | S754_nan => inl (ValueError "cannot convert float NaN to integer")
  end.

(** The exact rational value of a finite float. *)
Definition float_to_Q (x : float) : option Q :=
  match Prim2SF x with
  | S754_zero _ => Some (Qmake 0 1)
  | S754_finite s m e =>
      let n := if s then Z.neg m else Z.pos m in
      Some (if 0 <=? e then Qmake (n * 2 ^ e) 1
            else Qmake n (Z.to_pos (2 ^ (- e))))
  | _ => None
  end.

(** [c.lower()] and [s.lower()] on the ASCII letters. *)
Definition lower_ascii (c : ascii) : ascii :=
  let n := nat_of_ascii c in
  if ((65 <=? n) && (n <=? 90))%nat then ascii_of_nat (n + 32) else c.

Fixpoint lower (s : string) : string :=
  match s with
  | EmptyString => EmptyString
  | String c s' => String (lower_ascii c) (lower s')
  end.

(** [s.rfind(c)]: the index of the last occurrence, if any. *)
Fixpoint rfind (c : ascii) (s : string) : option nat :=
  match s with
  | EmptyString => None
  | String a s' =>
      match rfind c s' with
      | Some i => Some (S i)
      | None => if Ascii.eqb a c then Some 0%nat else None
      end
  end.

End Py.

(** ** pathlib *)

Module Path.

(** A path below a root directory: the root as given on the command line
    and the parts below it. *)
Record t : Type := mk { root : string; parts : list string }.

#[global] Instance t_eq_dec : EqDecision t.
Proof. solve_decision. Defined.

(** [p.name]: the final part. *)
Definition name (p : t) : string := List.last (parts p) EmptyString.

(** [p.suffix]: from the last dot of the name, unless that dot is the
    first or the last character. *)
Definition suffix (p : t) : string :=
  let n := name p in
  match Py.rfind "." n with
  | Some i =>
      if ((0 <? i) && (i <? String.length n - 1))%nat
      then String.substring i (String.length n - i) n
      else EmptyString
  | None => EmptyString
  end.

(** [p.as_posix()] of the relative path and [str(p)] of the whole. *)
Definition as_posix (ps : list string) : string := String.concat "/" ps.
Definition str (p : t) : string := String.concat "/" (root p :: parts p).

(** [p.relative_to(base)]: [ValueError] when [p] is not below [base]. *)
Definition relative_to (p : t) (base : string) : Py.exn + list string :=
  if String.eqb (root p) base then inr (parts p)
  else inl (Py.ValueError "is not in the subpath of").

(** The order [sorted] uses on paths: the parts, compared as lists. *)
Fixpoint parts_leb (a b : list string) : bool :=
  match a, b with
  | [], _ => true
  | _ :: _, [] => false
  | x :: a', y :: b' =>
      match String.compare x y with
      | Lt => true
      | Gt => false
      | Eq => parts_leb a' b'
      end
  end.

Definition leb (p q : t) : bool := parts_leb (parts p) (parts q).

Fixpoint insert_sorted (p : t) (l : list t) : list t :=
  match l with
  | [] => [p]
  | q :: l' => if leb p q then p :: q :: l' else q :: insert_sorted p l'
  end.

(** [sorted(l)]. *)
Definition sorted (l : list t) : list t := foldr insert_sorted [] l.

End Path.

(** ** Pillow *)

Module PIL.

Inductive mode : Type := RGB | RGBA | LA | P | OtherMode (name : string).

(** An image as far as the uploader looks at it: its mode and its size
    [(width, height)]. *)
Record image : Type := mk { img_mode : mode; size : Z * Z }.

(** [Image.new('RGB', size, (255, 255, 255))]. *)
Definition new_rgb (sz : Z * Z) : image := mk RGB sz.

(** [img.convert(m)] keeps the size. *)
Definition convert (m : mode) (img : image) : image := mk m (size img).

(** [background.paste(img, mask)] keeps the background's mode and size. *)
Definition paste (background img : image) : image := background.

(** [img.resize((w, h), LANCZOS)]: [ValueError] unless both are positive. *)
Definition resize (img : image) (sz : Z * Z) : Py.exn + image :=
  if (fst sz <? 1) || (snd sz <? 1)
  then inl (Py.ValueError "height and width must be > 0")
  else inr (mk (img_mode img) sz).

(** [img.crop((left, top, right, bottom))]: the region, of the size of the
    box (padded where the box leaves the image). *)
Definition crop (img : image) (box : Z * Z * Z * Z) : Py.exn + image :=
  let '(x0, y0, x1, y1) := box in
  if x1 <? x0 then inl (Py.ValueError "Coordinate 'right' is less than 'left'")
  else if y1 <? y0 then inl (Py.ValueError "Coordinate 'lower' is less than 'upper'")
  else inr (mk (img_mode img) (x1 - x0, y1 - y0)).

(** The bytes written by [img.save(output, format='JPEG', quality=...,
    optimize=...)], as far as they matter here. *)
Record jpeg : Type :=
  mk_jpeg { jpeg_size : Z * Z; jpeg_quality : Z; jpeg_optimize : bool }.

Definition save_jpeg (img : image) (quality : Z) (optimize : bool) : jpeg :=
  mk_jpeg (size img) quality optimize.

#[global] Instance jpeg_eq_dec : EqDecision jpeg.
Proof. solve_decision. Defined.

End PIL.

(** ** The world the uploader runs in *)

(** The [Body] of a stored object: the raw bytes of a source file or an
    encoded thumbnail. *)
Inductive body : Type := RawBytes (b : string) | JpegData (j : PIL.jpeg).

Record object : Type :=
  mk_object { obj_body : body; obj_content_type : string; obj_acl : string }.

#[global] Instance body_eq_dec : EqDecision body.
Proof. solve_decision. Defined.
#[global] Instance object_eq_dec : EqDecision object.
Proof. solve_decision. Defined.

(** [self.stats]: a dictionary with four fixed keys. *)
Record stats : Type := mk_stats {
  total_files : Z;
  successful_uploads : Z;
  failed_uploads : Z;
  skipped_files : Z
}.

Inductive counter : Type := Successful | Failed | Skipped.

(** The lines written at level INFO and above (the [logger.debug] lines
    and the progress bars are left out). *)
Inductive log_line : Type :=
| Info_starting (directory : string) (skip_existing : bool) (workers : Z)
| Info_found (n : Z) (directory : string)
| Warning_no_images
| Info_processing (n workers batch_size : Z)
| Info_batch (number first last total : Z)
| Warning_retry (key : string) (attempt : Z)
| Error_upload_failed (key : string) (retry_count : Z) (e : Py.exn)
| Error_unexpected (key : string) (e : Py.exn)
| Error_thumbnail (path : string) (e : Py.exn)
| Error_thumbnail_missing (relative_path : string)
| Error_not_fully_uploaded (name : string)
| Error_processing (path : string) (e : Py.exn)
| Info_summary (s : stats).

(** A local file: what [open(path, 'rb')] reads and what [Image.open]
    decodes, each of which may raise. *)
Record local_file : Type :=
  mk_file { file_bytes : Py.exn + string; file_image : Py.exn + PIL.image }.

(** An entry met by [directory.rglob('*')]: its parts below the directory
    and whether [is_file()] holds of it. *)
Record dirent : Type := mk_dirent { ent_parts : list string; ent_is_file : bool }.

(** The calls received by the object store. *)
Inductive call : Type := Head (key : string) | Put (key : string).

Definition is_Put (c : call) : bool :=
  match c with Put _ => true | Head _ => false end.

Record world : Type := mk_world {
  (** the bucket: key to object *)
  bucket : gmap string object;
  (** what the next calls to the store meet: [Some e] makes the call raise
      [e], [None] (or an exhausted list) lets it through *)
  faults : list (option Py.exn);
  (** the directories that exist, each with its recursive listing *)
  dirs : gmap string (list dirent);
  (** the files, by [str(path)] *)
  files : gmap string local_file;
  the_stats : stats;
  (** the log and the calls to the store, most recent first *)
  log : list log_line;
  calls : list call
}.

Definition set_bucket (b : gmap string object) (w : world) : world :=
  mk_world b (faults w) (dirs w) (files w) (the_stats w) (log w) (calls w).
Definition set_faults (f : list (option Py.exn)) (w : world) : world :=
  mk_world (bucket w) f (dirs w) (files w) (the_stats w) (log w) (calls w).
Definition set_stats (s : stats) (w : world) : world :=
  mk_world (bucket w) (faults w) (dirs w) (files w) s (log w) (calls w).
Definition add_log (l : log_line) (w : world) : world :=
  mk_world (bucket w) (faults w) (dirs w) (files w) (the_stats w) (l :: log w) (calls w).
Definition add_call (c : call) (w : world) : world :=
  mk_world (bucket w) (faults w) (dirs w) (files w) (the_stats w) (log w) (c :: calls w).

(** [self.stats[c] += 1]. *)
Definition incr (c : counter) (s : stats) : stats :=
  match c with
  | Successful =>
      mk_stats (total_files s) (successful_uploads s + 1) (failed_uploads s) (skipped_files s)
  | Failed =>
      mk_stats (total_files s) (successful_uploads s) (failed_uploads s + 1) (skipped_files s)
  | Skipped =>
      mk_stats (total_files s) (successful_uploads s) (failed_uploads s) (skipped_files s + 1)
  end.

(** The store call in progress consumes the next scripted fault. *)
Definition take_fault (w : world) : option Py.exn * world :=
  match faults w with
  | [] => (None, w)
  | f :: fs => (f, set_faults fs w)
  end.

(** ** Programs over the world *)

(** The operations of the methods on the world. A store call answers
    [None] when it returns and [Some e] when it raises [e]; the world holds
    the one bucket the client is pointed at, whatever its name. The
    statistics are updated under [self.stats_lock], hence in one step. *)
Inductive op : Type -> Type :=
| s3_head_object (Bucket Key : string) : op (option Py.exn)
| s3_put_object (Bucket Key : string) (Body : body) (ContentType ACL : string)
    : op (option Py.exn)
| fs_open_rb (path : string) : op (Py.exn + string)
| fs_exists (path : string) : op bool
| fs_rglob (path : string) : op (list dirent)
| pil_open (path : string) : op (Py.exn + PIL.image)
| stats_incr (c : counter) : op unit
| stats_set_total (n : Z) : op unit
| stats_get : op stats
| logger (l : log_line) : op unit.

Definition handle {X : Type} (o : op X) (w : world) : X * world :=
  match o in op X return X * world with
  | s3_head_object _ key =>
      let (f, w) := take_fault w in
      let w := add_call (Head key) w in
      match f with
      | Some e => (Some e, w)
      | None =>
          match bucket w !! key with
          | Some _ => (None, w)
          | None => (Some (Py.ClientError "404"), w)
          end
      end
  | s3_put_object _ key b content_type acl =>
      let (f, w) := take_fault w in
      let w := add_call (Put key) w in
      match f with
      | Some e => (Some e, w)
      | None => (None, set_bucket (<[key := mk_object b content_type acl]> (bucket w)) w)
      end
  | fs_open_rb path =>
      match files w !! path with
      | Some f => (file_bytes f, w)
      | None => (inl (Py.FileNotFoundError path), w)
      end
  | fs_exists path => (bool_decide (is_Some (dirs w !! path)), w)
  | fs_rglob path => (default [] (dirs w !! path), w)
  | pil_open path =>
      match files w !! path with
      | Some f => (file_image f, w)
      | None => (inl (Py.FileNotFoundError path), w)
      end
  | stats_incr c => (tt, set_stats (incr c (the_stats w)) w)
  | stats_set_total n =>
      let s := the_stats w in
      (tt, set_stats (mk_stats n (successful_uploads s) (failed_uploads s) (skipped_files s)) w)
  | stats_get => (the_stats w, w)
  | logger l => (tt, add_log l w)
  end.

(** A method body: it returns, raises, or performs an operation and goes on
    with the answer. *)
Inductive prog (A : Type) : Type :=
| Ret (a : A)
| Raise (e : Py.exn)
| Vis {X : Type} (o : op X) (k : X -> prog A).
Arguments Ret {A} a.
Arguments Raise {A} e.
Arguments Vis {A X} o k.

Fixpoint bind {A B : Type} (p : prog A) (f : A -> prog B) : prog B :=
  match p with
  | Ret a => f a
  | Raise e => Raise e
  | Vis o k => Vis o (fun x => bind (k x) f)
  end.

#[global] Instance prog_ret : MRet prog := @Ret.
#[global] Instance prog_bind : MBind prog := fun A B f p => bind p f.

Definition perform {X : Type} (o : op X) : prog X := Vis o Ret.

(** A call that raises what the operation answers. *)
Definition raising (o : op (option Py.exn)) : prog unit :=
  r ← perform o; match r with Some e => Raise e | None => Ret tt end.

Definition lift {A : Type} (r : Py.exn + A) : prog A :=
  match r with inl e => Raise e | inr a => Ret a end.

(** [try: p except ...: h]: the handler answers [None] for an exception no
    clause catches. *)
Fixpoint try_except {A : Type} (p : prog A) (h : Py.exn -> option (prog A)) : prog A :=
  match p with
  | Ret a => Ret a
  | Raise e => match h e with Some q => q | None => Raise e end
  | Vis o k => Vis o (fun x => try_except (k x) h)
  end.

(** Running a program to its end. *)
Fixpoint run {A : Type} (p : prog A) (w : world) : (Py.exn + A) * world :=
  match p with
  | Ret a => (inr a, w)
  | Raise e => (inl e, w)
  | Vis o k => let (x, w') := handle o w in run (k x) w'
  end.

(** The pure steps may raise too. *)
#[global] Instance result_ret : MRet (sum Py.exn) := fun A a => inr a.
#[global] Instance result_bind : MBind (sum Py.exn) :=
  fun A B f r => match r with inl e => inl e | inr a => f a end.

(** ** The uploader *)

Definition SUPPORTED_EXTENSIONS : gset string :=
  {[ ".jpg"; ".jpeg"; ".png"; ".webp"; ".gif"; ".bmp"; ".tiff"; ".tif" ]}.

Definition THUMBNAIL_WIDTH : Z := 200.
Definition THUMBNAIL_HEIGHT : Z := 300.

(** The [file_data] argument of [upload_file]: a [BytesIO] or a path. *)
Inductive file_data : Type := BytesIO (j : PIL.jpeg) | FilePath (p : Path.t).

Module ImageUploader.

(** The attributes set by [__init__] that the methods read, and the
    table of [mimetypes.guess_type], which belongs to the platform. *)
Record t : Type := mk {
  bucket_name : string;
  acl : string;
  folder_prefix : string;
  guess_type : string -> option string
}.

Section Methods.

Variable self : t.

Definition get_image_files (directory : string) : prog (list Path.t) :=
  let directory_path := directory in
  present ← perform (fs_exists directory_path);
  if negb present then Raise (Py.FileNotFoundError directory)
  else
    entries ← perform (fs_rglob directory_path);
    let image_files :=
      List.filter
        (fun file_path : Path.t * bool =>
           snd file_path
           && bool_decide (Py.lower (Path.suffix (fst file_path)) ∈ SUPPORTED_EXTENSIONS))
        (List.map (fun e => (Path.mk directory_path (ent_parts e), ent_is_file e)) entries) in
    let image_files := List.map fst image_files in
    perform (logger (Info_found (Z.of_nat (length image_files)) directory));;
    Ret (Path.sorted image_files).

(** Lines 120-127: the image flattened to RGB. *)
Definition to_rgb (img : PIL.image) : PIL.image :=
  match PIL.img_mode img with
  | PIL.RGBA | PIL.LA | PIL.P =>
      let background := PIL.new_rgb (PIL.size img) in
      let img :=
        match PIL.img_mode img with
        | PIL.P => PIL.convert PIL.RGBA img
        | _ => img
        end in
      PIL.paste background img
  | PIL.RGB => img
  | PIL.OtherMode _ => PIL.convert PIL.RGB img
  end.

(** Lines 130-141: the size the image is resized to. *)
Definition resized_size (original : Z * Z) : Py.exn + (Z * Z) :=
  let '(original_width, original_height) := original in
  aspect_ratio ← Py.int_truediv original_width original_height;
  target_ratio ← Py.int_truediv THUMBNAIL_WIDTH THUMBNAIL_HEIGHT;
  if (target_ratio <? aspect_ratio)%float then
    let new_height := THUMBNAIL_HEIGHT in
    new_width ← Py.int_of_float (Py.int_mul_float THUMBNAIL_HEIGHT aspect_ratio);
    mret (new_width, new_height)
  else
    let new_width := THUMBNAIL_WIDTH in
    quotient ← Py.int_div_float THUMBNAIL_WIDTH aspect_ratio;
    new_height ← Py.int_of_float quotient;
    mret (new_width, new_height).

(** Lines 119-160: the body of the [with] block. *)
Definition render_thumbnail (img : PIL.image) : Py.exn + PIL.jpeg :=
  let img := to_rgb img in
  '(new_width, new_height) ← resized_size (PIL.size img);
  img_resized ← PIL.resize img (new_width, new_height);
  let left_ := (new_width - THUMBNAIL_WIDTH) `div` 2 in
  let top_ := (new_height - THUMBNAIL_HEIGHT) `div` 2 in
  let right_ := left_ + THUMBNAIL_WIDTH in
  let bottom_ := top_ + THUMBNAIL_HEIGHT in
  thumbnail ← PIL.crop img_resized (left_, top_, right_, bottom_);
  mret (PIL.save_jpeg thumbnail 85 true).

Definition create_thumbnail (image_path : Path.t) : prog (option PIL.jpeg) :=
  try_except
    (opened ← perform (pil_open (Path.str image_path));
     img ← lift opened;
     output ← lift (render_thumbnail img);
     Ret (Some output))
    (fun e =>
       Some (perform (logger (Error_thumbnail (Path.str image_path) e));;
             Ret None)).

Definition get_content_type (file_path : Path.t) : string :=
  default "application/octet-stream" (guess_type self (Path.str file_path)).

Definition file_exists_in_spaces (key : string) : prog bool :=
  try_except
    (raising (s3_head_object (bucket_name self) key);;
     Ret true)
    (fun e => if Py.is_ClientError e then Some (Ret false) else None).

(** One attempt of the loop of [upload_file]: the [try] block. *)
Definition put_attempt (data : file_data) (key content_type : string) : prog unit :=
  match data with
  | BytesIO j =>
      raising (s3_put_object (bucket_name self) key (JpegData j) content_type (acl self))
  | FilePath p =>
      opened ← perform (fs_open_rb (Path.str p));
      f ← lift opened;
      raising (s3_put_object (bucket_name self) key (RawBytes f) content_type (acl self))
  end.

(** The loop [for attempt in range(retry_count)], from [attempt] on with
    [remaining] iterations to go. An iteration answers [Some b] when it
    returns [b] from the method and [None] when the loop goes on. *)
Fixpoint upload_attempts (remaining : nat) (attempt : Z)
    (data : file_data) (key content_type : string) (retry_count : Z) : prog bool :=
  match remaining with
  | O => Ret false
  | S remaining' =>
      returned ←
        try_except
          (put_attempt data key content_type;;
           Ret (Some true))
          (fun e =>
             if Py.is_ClientError e then
               Some (if attempt <? retry_count - 1 then
                       perform (logger (Warning_retry key (attempt + 1)));;
                       Ret None
                     else
                       perform (logger (Error_upload_failed key retry_count e));;
                       Ret (Some false))
             else
               Some (perform (logger (Error_unexpected key e));;
                     Ret (Some false)));
      match returned with
      | Some b => Ret b
      | None => upload_attempts remaining' (attempt + 1) data key content_type retry_count
      end
  end.

Definition upload_file (data : file_data) (key content_type : string)
    (retry_count : Z) : prog bool :=
  upload_attempts (Z.to_nat retry_count) 0 data key content_type retry_count.

Definition original_key_of (relative_path : list string) : string :=
  folder_prefix self +:+ "/original/" +:+ Path.as_posix relative_path.
Definition thumbnail_key_of (relative_path : list string) : string :=
  folder_prefix self +:+ "/thumbnail/" +:+ Path.as_posix relative_path.

(** Lines 267-272: [original_exists] and [thumbnail_exists]. *)
Definition existence_checks (skip_existing : bool)
    (original_key thumbnail_key : string) : prog (bool * bool) :=
  if skip_existing then
    original_exists ← file_exists_in_spaces original_key;
    thumbnail_exists ← file_exists_in_spaces thumbnail_key;
    Ret (original_exists, thumbnail_exists)
  else Ret (false, false).

(** Lines 283-289: the original is uploaded unless it was found. *)
Definition upload_original (image_path : Path.t) (original_key : string)
    (skip_existing original_exists : bool) : prog bool :=
  let content_type := get_content_type image_path in
  if negb skip_existing || negb original_exists then
    upload_file (FilePath image_path) original_key content_type 3
  else Ret true.

(** Lines 291-305: the thumbnail is made and uploaded unless it was found.
    A [BytesIO] is true whatever it holds, so [if thumbnail_data] asks
    whether [create_thumbnail] returned one. *)
Definition upload_thumbnail (image_path : Path.t) (relative_path : list string)
    (thumbnail_key : string) (skip_existing thumbnail_exists : bool) : prog bool :=
  if negb skip_existing || negb thumbnail_exists then
    thumbnail_data ← create_thumbnail image_path;
    match thumbnail_data with
    | Some data => upload_file (BytesIO data) thumbnail_key "image/jpeg" 3
    | None =>
        perform (logger (Error_thumbnail_missing (Path.as_posix relative_path)));;
        Ret false
    end
  else Ret true.

Definition process_and_upload_image (image_path : Path.t) (base_dir : string)
    (skip_existing : bool) : prog (bool * bool) :=
  relative_path ← lift (Path.relative_to image_path base_dir);
  let original_key := original_key_of relative_path in
  let thumbnail_key := thumbnail_key_of relative_path in
  '(original_exists, thumbnail_exists) ←
    existence_checks skip_existing original_key thumbnail_key;
  if skip_existing && (original_exists && thumbnail_exists) then
    perform (stats_incr Skipped);;
    Ret (true, true)
  else
    original_success ←
      upload_original image_path original_key skip_existing original_exists;
    thumbnail_success ←
      upload_thumbnail image_path relative_path thumbnail_key skip_existing
        thumbnail_exists;
    Ret (original_success, thumbnail_success).

(** Lines 354-360 and 401-407: the outcome of a file enters the
    statistics. *)
Definition count_outcome (image_path : Path.t) (outcome : bool * bool) : prog unit :=
  let '(original_success, thumbnail_success) := outcome in
  if original_success && thumbnail_success then
    perform (stats_incr Successful)
  else
    perform (stats_incr Failed);;
    perform (logger (Error_not_fully_uploaded (Path.name image_path))).

(** Lines 362-365 and 409-412: [except Exception as e]. *)
Definition count_error (image_path : Path.t) (e : Py.exn) : prog unit :=
  perform (stats_incr Failed);;
  perform (logger (Error_processing (Path.str image_path) e)).

Fixpoint _upload_sequential (image_files : list Path.t) (base_dir : string)
    (skip_existing : bool) : prog unit :=
  match image_files with
  | [] => Ret tt
  | image_path :: rest =>
      try_except
        (outcome ← process_and_upload_image image_path base_dir skip_existing;
         count_outcome image_path outcome)
        (fun e => Some (count_error image_path e));;
      _upload_sequential rest base_dir skip_existing
  end.

Definition print_summary : prog unit :=
  s ← perform stats_get;
  perform (logger (Info_summary s)).

(** *** The thread pool *)

(** A call of [process_and_upload_image] submitted to the executor: the
    path it was submitted for and what is left of the call. *)
Definition task : Type := Path.t * prog (bool * bool).

(** Lines 397-412: the body of the [as_completed] loop, for a future
    that holds an outcome or an exception. *)
Definition complete (image_path : Path.t) (r : Py.exn + (bool * bool)) : prog unit :=
  try_except
    (outcome ← lift r;
     count_outcome image_path outcome)
    (fun e => Some (count_error image_path e)).

(** A task run to its end, and its future collected. *)
Definition finish (w : world) (tk : task) : world :=
  let (r, w') := run (snd tk) w in
  snd (run (complete (fst tk) r) w').

(** One step of the [i]-th unfinished task: its next operation, or, when
    it has returned or raised, the collection of its future. *)
Definition step_pool (i : nat) (tasks : list task) (w : world) : list task * world :=
  match tasks !! i with
  | None => (tasks, w)
  | Some (image_path, p) =>
      match p with
      | Ret outcome => (delete i tasks, snd (run (complete image_path (inr outcome)) w))
      | Raise e => (delete i tasks, snd (run (complete image_path (inl e)) w))
      | Vis o k => let (x, w') := handle o w in (<[i := (image_path, k x)]> tasks, w')
      end
  end.

(** The executor at work on the unfinished tasks of a batch, in the order
    of submission: the first [workers] of them are on a thread, and each
    choice of the schedule names the thread that moves next. When the
    schedule is used up the tasks finish one after the other. *)
Fixpoint run_pool (schedule : list nat) (workers : nat) (tasks : list task)
    (w : world) : list nat * world :=
  match schedule with
  | [] => ([], foldl finish w tasks)
  | choice :: schedule' =>
      match tasks with
      | [] => (schedule, w)
      | _ :: _ =>
          let running := Nat.min workers (length tasks) in
          let (tasks', w') := step_pool (choice mod running)%nat tasks w in
          run_pool schedule' workers tasks' w'
      end
  end.

(** [range(0, stop, step)] for [0 <= stop] and [step != 0]. *)
Definition range0 (stop step : Z) : list Z :=
  if 0 <? step
  then List.map (fun i => Z.of_nat i * step) (seq 0 (Z.to_nat ((stop + step - 1) `div` step)))
  else [].

(** The body of the loop over the batches, for the starts still to come. *)
Fixpoint batch_loop (starts : list Z) (schedule : list nat)
    (image_files : list Path.t) (base_dir : string) (skip_existing : bool)
    (workers batch_size : Z) (w : world) : (Py.exn + unit) * world :=
  match starts with
  | [] => (inr tt, w)
  | batch_start :: starts' =>
      let total := Z.of_nat (length image_files) in
      let batch_end := Z.min (batch_start + batch_size) total in
      let batch :=
        take (Z.to_nat (batch_end - batch_start)) (drop (Z.to_nat batch_start) image_files) in
      let w :=
        add_log (Info_batch (batch_start `div` batch_size + 1) (batch_start + 1)
                            batch_end total) w in
      if workers <=? 0
      then (inl (Py.ValueError "max_workers must be greater than 0"), w)
      else
        let future_to_path :=
          List.map
            (fun image_path =>
               (image_path, process_and_upload_image image_path base_dir skip_existing))
            batch in
        let (schedule', w') := run_pool schedule (Z.to_nat workers) future_to_path w in
        batch_loop starts' schedule' image_files base_dir skip_existing
                   workers batch_size w'
  end.

Definition _upload_concurrent (schedule : list nat) (image_files : list Path.t)
    (base_dir : string) (skip_existing : bool) (workers batch_size : Z)
    (w : world) : (Py.exn + unit) * world :=
  let total := Z.of_nat (length image_files) in
  let w := add_log (Info_processing total workers batch_size) w in
  if batch_size =? 0
  then (inl (Py.ValueError "range() arg 3 must not be zero"), w)
  else
    batch_loop (range0 total batch_size) schedule image_files base_dir skip_existing
               workers batch_size w.

(** [schedule] is the order in which the threads of the pool move; the
    sequential path does not look at it. *)
Definition upload_directory (schedule : list nat) (directory : string)
    (skip_existing : bool) (workers batch_size : Z)
    (w : world) : (Py.exn + unit) * world :=
  let w := add_log (Info_starting directory skip_existing workers) w in
  match
    run (image_files ← get_image_files directory;
         perform (stats_set_total (Z.of_nat (length image_files)));;
         Ret image_files) w
  with
  | (inl e, w) => (inl e, w)
  | (inr image_files, w) =>
      match image_files with
      | [] => run (perform (logger Warning_no_images)) w
      | _ :: _ =>
          let base_dir := directory in
          let (r, w) :=
            if workers =? 1
            then run (_upload_sequential image_files base_dir skip_existing) w
            else _upload_concurrent schedule image_files base_dir skip_existing
                                    workers batch_size w in
          match r with
          | inl e => (inl e, w)
          | inr _ => run print_summary w
          end
      end
  end.

End Methods.

End ImageUploader.

(** ** What the statements below speak of *)

(** The resize step as the specification words it: the same as
    [ImageUploader.resized_size] with [round] where the code has [int]. *)
Definition spec_resized_size (original : Z * Z) : Py.exn + (Z * Z) :=
  let '(original_width, original_height) := original in
  aspect_ratio ← Py.int_truediv original_width original_height;
  target_ratio ← Py.int_truediv THUMBNAIL_WIDTH THUMBNAIL_HEIGHT;
  if (target_ratio <? aspect_ratio)%float then
    new_width ← Py.round_of_float (Py.int_mul_float THUMBNAIL_HEIGHT aspect_ratio);
    mret (new_width, THUMBNAIL_HEIGHT)
  else
    quotient ← Py.int_div_float THUMBNAIL_WIDTH aspect_ratio;
    new_height ← Py.round_of_float quotient;
    mret (THUMBNAIL_WIDTH, new_height).

(** A rational truncated toward zero. *)
Definition Qtrunc (v : Q) : Z := Z.quot (Qnum v) (Z.pos (Qden v)).

(** [n] is the float [x] truncated toward zero. *)
Definition truncates (x : float) (n : Z) : Prop :=
  exists v : Q, Py.float_to_Q x = Some v /\ n = Qtrunc v.

(** An RGB image of this size renders. *)
Definition renders (width height : Z) : bool :=
  match ImageUploader.render_thumbnail (PIL.mk PIL.RGB (width, height)) with
  | inr _ => true
  | inl _ => false
  end.

(** The integers from 1 to [n]. *)
Definition upto (n : nat) : list Z := List.map Z.of_nat (seq 1 n).

Definition is_summary (l : log_line) : bool :=
  match l with Info_summary _ => true | _ => false end.

(** The extensions as the specification lists them. *)
Definition spec_extensions : list string :=
  [".jpg"; ".jpeg"; ".png"; ".webp"; ".gif"; ".bmp"; ".tiff"; ".tif"].

(** The upper-case form of the letters a to z. *)
Definition upper_ascii (c : ascii) : ascii :=
  let n := nat_of_ascii c in
  if ((97 <=? n) && (n <=? 122))%nat then ascii_of_nat (n - 32) else c.

(** [s] is [ext] when the case of the letters is ignored: character by
    character, [s] has the character of [ext], which is written in lower
    case, or its upper-case form. *)
Fixpoint same_but_case (s ext : string) : bool :=
  match s, ext with
  | EmptyString, EmptyString => true
  | String a s', String c ext' =>
      (Ascii.eqb a c || Ascii.eqb a (upper_ascii c)) && same_but_case s' ext'
  | _, _ => false
  end.

(** Every character. *)
Definition all_ascii : list ascii := List.map ascii_of_nat (seq 0 256).

(** The extension of the path is one of the listed ones, whatever the
    case of its letters. *)
Definition has_supported_extension (p : Path.t) : bool :=
  existsb (same_but_case (Path.suffix p)) spec_extensions.

(** A supported image file among the entries of a listing: a regular file
    with a supported extension. *)
Definition is_supported_image (directory : string) (e : dirent) : bool :=
  ent_is_file e && has_supported_extension (Path.mk directory (ent_parts e)).

(** The [put_object] calls among the calls. *)
Definition puts (cs : list call) : list call := List.filter is_Put cs.

Definition zero_stats : stats := mk_stats 0 0 0 0.

Definition set_files (fs : gmap string local_file) (w : world) : world :=
  mk_world (bucket w) (faults w) (dirs w) fs (the_stats w) (log w) (calls w).

(** Two worlds that differ at most in what Pillow decodes: the same world
    but for the files, and the same bytes in the files. *)
Definition same_but_images (w1 w2 : world) : Prop :=
  w2 = set_files (files w2) w1
  /\ forall path, file_bytes <$> (files w1 !! path) = file_bytes <$> (files w2 !! path).

Definition is_pil_open {X : Type} (o : op X) : bool :=
  match o with pil_open _ => true | _ => false end.

(** A program that never asks Pillow to open a file. *)
Fixpoint no_pil_open {A : Type} (p : prog A) : Prop :=
  match p with
  | Vis o k => is_pil_open o = false /\ forall x, no_pil_open (k x)
  | _ => True
  end.

(** Thumbnail generation fails for [image_path] in [w]: the file does not
    decode, or the decoded image does not render. *)
Definition generation_fails (image_path : Path.t) (w : world) : Prop :=
  match files w !! Path.str image_path with
  | Some f =>
      match file_image f with
      | inl _ => True
      | inr img =>
          match ImageUploader.render_thumbnail img with
          | inl _ => True
          | inr _ => False
          end
      end
  | None => True
  end.

(** The payload of an upload can be read: a [BytesIO] always, a path when
    [open(path, 'rb')] succeeds. *)
Definition readable (data : file_data) (w : world) : Prop :=
  match data with
  | BytesIO _ => True
  | FilePath p =>
      exists f bytes, files w !! Path.str p = Some f /\ file_bytes f = inr bytes
  end.

(** The store lets the next call through. *)
Definition lets_through (fs : list (option Py.exn)) : Prop :=
  match fs with
  | Some _ :: _ => False
  | _ => True
  end.

(** The store answers the next calls with these error responses. *)
Definition transient (codes : list string) : list (option Py.exn) :=
  List.map (fun code => Some (Py.ClientError code)) codes.

(** *** A scan root with three images

    [a.png] 100x100, [b.jpg] 400x100 and [c.webp] 100x400, next to a text
    file and a subdirectory. *)
Module Scenario.

Definition guess_type (path : string) : option string :=
  let ext := Py.lower (Path.suffix (Path.mk "" [path])) in
  if String.eqb ext ".png" then Some "image/png"
  else if String.eqb ext ".jpg" then Some "image/jpeg"
  else if String.eqb ext ".webp" then Some "image/webp"
  else None.

Definition uploader : ImageUploader.t :=
  ImageUploader.mk "bucket" "public-read" "avatar" guess_type.

Definition rgb_file (width height : Z) : local_file :=
  mk_file (inr "bytes") (inr (PIL.mk PIL.RGB (width, height))).

Definition three_images : gmap string local_file :=
  {[ "imgs/a.png" := rgb_file 100 100;
     "imgs/b.jpg" := rgb_file 400 100;
     "imgs/c.webp" := rgb_file 100 400 ]}.

Definition listing : list dirent :=
  [ mk_dirent ["c.webp"] true; mk_dirent ["a.png"] true;
    mk_dirent ["notes.txt"] true; mk_dirent ["b.jpg"] true;
    mk_dirent ["old"] false ].

(** The images of the listing, in the order of [sorted]. *)
Definition three_paths : list Path.t :=
  [Path.mk "imgs" ["a.png"]; Path.mk "imgs" ["b.jpg"]; Path.mk "imgs" ["c.webp"]].

(** A fresh process in front of an empty bucket. *)
Definition first_run : world :=
  mk_world ∅ [] {[ "imgs" := listing ]} three_images zero_stats [] [].

Definition after_first_run : world :=
  snd (ImageUploader.upload_directory uploader [] "imgs" false 1 100 first_run).

(** A fresh process in front of the bucket the first run left. *)
Definition rerun : world :=
  mk_world (bucket after_first_run) [] {[ "imgs" := listing ]} three_images
           zero_stats [] [].

(** One image, both of whose objects are in the bucket already. *)
Definition one_present : world :=
  mk_world
    {[ "avatar/original/a.png" := mk_object (RawBytes "bytes") "image/png" "public-read";
       "avatar/thumbnail/a.png" :=
         mk_object (JpegData (PIL.mk_jpeg (200, 300) 85 true)) "image/jpeg" "public-read" ]}
    [] {[ "imgs" := [mk_dirent ["a.png"] true] ]}
    {[ "imgs/a.png" := rgb_file 100 100 ]} zero_stats [] [].

(** A directory without any supported image. *)
Definition no_images : world :=
  mk_world ∅ [] {[ "docs" := [mk_dirent ["notes.txt"] true; mk_dirent ["old"] false] ]}
           ∅ zero_stats [] [].

(** A directory with files whose extensions are in upper or mixed case. *)
Definition mixed_case : world :=
  mk_world ∅ []
    {[ "imgs" := [ mk_dirent ["A.JPG"] true; mk_dirent ["b.PnG"] true;
                   mk_dirent ["c.txt"] true; mk_dirent ["d.gif"] false;
                   mk_dirent [".png"] true ] ]}
    ∅ zero_stats [] [].

(** A store that cannot be reached when the next call comes. *)
Definition unreachable : world :=
  mk_world ∅ [Some (Py.BotoCoreError "EndpointConnectionError")] ∅ ∅ zero_stats [] [].

(** A store that fails twice with a 503 and then answers. *)
Definition flaky : world :=
  mk_world ∅ [Some (Py.ClientError "503"); Some (Py.ClientError "503"); None]
           ∅ three_images zero_stats [] [].

(** A store that fails once with a 503, then cannot be read from in time,
    and would answer after that. *)
Definition timing_out : world :=
  mk_world ∅ [Some (Py.ClientError "503"); Some (Py.BotoCoreError "ReadTimeoutError"); None]
           ∅ three_images zero_stats [] [].

(** A network that fails twice to connect in time and then works. *)
Definition slow_network : world :=
  mk_world ∅ [Some (Py.BotoCoreError "ConnectTimeoutError");
              Some (Py.BotoCoreError "ConnectTimeoutError"); None]
           ∅ three_images zero_stats [] [].

(** An image that Pillow cannot identify, and the same file intact. *)
Definition a_png : Path.t := Path.mk "imgs" ["a.png"].
Definition corrupt : world :=
  mk_world ∅ [] {[ "imgs" := [mk_dirent ["a.png"] true] ]}
    {[ "imgs/a.png" :=
         mk_file (inr "bytes") (inl (Py.OtherException "UnidentifiedImageError")) ]}
    zero_stats [] [].
Definition intact : world :=
  mk_world ∅ [] {[ "imgs" := [mk_dirent ["a.png"] true] ]}
    {[ "imgs/a.png" := mk_file (inr "bytes") (inr (PIL.mk PIL.RGB (100, 100))) ]}
    zero_stats [] [].

End Scenario.

(** ** [__init__] and [main] *)











(** ** Classes of operations and shapes of programs *)

(** The operations on the store, the files, the decoder and the logger. *)
Definition is_io {X : Type} (o : op X) : bool :=
  match o with
  | s3_head_object _ _ | s3_put_object _ _ _ _ _ | fs_open_rb _ | pil_open _
  | logger _ => true
  | _ => false
  end.

Definition is_skip {X : Type} (o : op X) : bool :=
  match o with stats_incr Skipped => true | _ => false end.

(** Every operation of a program is of the class [P]. *)
Fixpoint all_ops (P : forall X : Type, op X -> bool) {A : Type} (p : prog A) : Prop :=
  match p with
  | Vis o k => P _ o = true /\ forall x, all_ops P (k x)
  | _ => True
  end.

(** A task: operations of the class [is_io], but for at most one increment
    of the skipped files, after which it returns (True, True). *)
Fixpoint task_shape (p : prog (bool * bool)) : Prop :=
  match p with
  | Vis o k =>
      if is_skip o then forall x, k x = Ret (true, true)
      else is_io o = true /\ forall x, task_shape (k x)
  | _ => True
  end.

(** A task that has returned (True, True). *)
Definition is_done_ok (tk : Path.t * prog (bool * bool)) : bool :=
  match snd tk with
  | Ret (true, true) => true
  | _ => false
  end.

(** The store lets the next [n] calls through. *)
Fixpoint quiet_for (n : nat) (fs : list (option Py.exn)) : Prop :=
  match n, fs with
  | O, _ => True
  | S _, [] => True
  | S n', None :: fs' => quiet_for n' fs'
  | S _, Some _ :: _ => False
  end.

(** Lines 376-377: the batch that starts at [batch_start]. *)
Definition batch_at (image_files : list Path.t) (batch_size batch_start : Z)
    : list Path.t :=
  let total := Z.of_nat (length image_files) in
  let batch_end := Z.min (batch_start + batch_size) total in
  take (Z.to_nat (batch_end - batch_start)) (drop (Z.to_nat batch_start) image_files).

(** The files processed so far: successes and failures. *)
Definition processed (s : stats) : Z := successful_uploads s + failed_uploads s.

(** From [s] to [s'], [n] more files were processed: each one counted once
    as successful or as failed, and the skipped ones among the successful. *)
Definition accounted (n : Z) (s s' : stats) : Prop :=
  total_files s' = total_files s
  /\ processed s' = processed s + n
  /\ successful_uploads s <= successful_uploads s'
  /\ failed_uploads s <= failed_uploads s'
  /\ 0 <= skipped_files s' - skipped_files s
       <= successful_uploads s' - successful_uploads s.

(** The tasks of a pool that have returned (True, True) and wait for the
    main thread to collect them. *)
Definition ready (tasks : list (Path.t * prog (bool * bool))) : nat :=
  length (List.filter is_done_ok tasks).

(** What holds of a pool that started from the statistics [s] with [n]
    tasks, while [tasks] of them are unfinished. *)
Definition pool_inv (s : stats) (n : Z) (tasks : list (Path.t * prog (bool * bool)))
    (w : world) : Prop :=
  Forall (fun tk => task_shape (snd tk)) tasks
  /\ total_files (the_stats w) = total_files s
  /\ processed (the_stats w) + Z.of_nat (length tasks) = processed s + n
  /\ successful_uploads s <= successful_uploads (the_stats w)
  /\ failed_uploads s <= failed_uploads (the_stats w)
  /\ skipped_files s <= skipped_files (the_stats w)
  /\ skipped_files (the_stats w) - skipped_files s
     <= successful_uploads (the_stats w) - successful_uploads s + Z.of_nat (ready tasks).

(** ** What a run leaves behind *)



(** ** Runs against a store that answers every call *)

(** What a task does that a run keeps count of: an object written, a key
    looked for and not found, a file counted as skipped. *)
Inductive effect : Type :=
| EPut (key : string) (obj : object)
| EHead (key : string)
| ESkip.

Definition is_EPut (e : effect) : bool := match e with EPut _ _ => true | _ => false end.
Definition is_ESkip (e : effect) : bool := match e with ESkip => true | _ => false end.
Definition n_puts (l : list effect) : nat := length (List.filter is_EPut l).
Definition n_skips (l : list effect) : nat := length (List.filter is_ESkip l).

(** The answer to an operation of a task, and what it does, when the store
    raises nothing, the local files are [F], and the keys asked for are in
    the bucket where [has] says so and not in it otherwise. *)
Definition quiet_answer (has : string -> bool) (F : gmap string local_file)
    {X : Type} (o : op X) : option (X * list effect) :=
  match o in op X return option (X * list effect) with
  | s3_head_object _ key =>
      if has key then Some (None, []) else Some (Some (Py.ClientError "404"), [EHead key])
  | s3_put_object _ key b content_type acl =>
      Some (None, [EPut key (mk_object b content_type acl)])
  | fs_open_rb path =>
      Some (match F !! path with
            | Some f => file_bytes f
            | None => inl (Py.FileNotFoundError path)
            end, [])
  | pil_open path =>
      Some (match F !! path with
            | Some f => file_image f
            | None => inl (Py.FileNotFoundError path)
            end, [])
  | stats_incr Skipped => Some (tt, [ESkip])
  | logger _ => Some (tt, [])
  | _ => None
  end.

(** A program run on these answers: how it ends and what it does on the
    way, as long as [quiet_answer] knows the answers. *)
Fixpoint quiet_run (has : string -> bool) (F : gmap string local_file)
    {A : Type} (p : prog A) : option ((Py.exn + A) * list effect) :=
  match p with
  | Ret a => Some (inr a, [])
  | Raise e => Some (inl e, [])
  | Vis o k =>
      match quiet_answer has F o with
      | Some (x, l) =>
          match quiet_run has F (k x) with
          | Some (r, l') => Some (r, l ++ l')
          | None => None
          end
      | None => None
      end
  end.

(** What is done first, then what [x] does. *)
Definition after {R : Type} (l : list effect) (x : option (R * list effect))
    : option (R * list effect) :=
  match x with
  | Some (r, l') => Some (r, l ++ l')
  | None => None
  end.

(** A world in which [quiet_answer] is right. *)
Definition quiet (has : string -> bool) (F : gmap string local_file) (w : world) : Prop :=
  faults w = [] /\ files w = F /\ forall key, has key = true -> is_Some (bucket w !! key).

(** From [w] to [w'], the effects [l] took place, and nothing else that a
    run keeps count of. *)
Definition effects_rel (l : list effect) (w w' : world) : Prop :=
  faults w' = faults w
  /\ files w' = files w
  /\ total_files (the_stats w') = total_files (the_stats w)
  /\ successful_uploads (the_stats w') = successful_uploads (the_stats w)
  /\ failed_uploads (the_stats w') = failed_uploads (the_stats w)
  /\ skipped_files (the_stats w') = skipped_files (the_stats w) + Z.of_nat (n_skips l)
  /\ length (puts (calls w')) = (length (puts (calls w)) + n_puts l)%nat
  /\ (forall key, (forall obj, ~ In (EPut key obj) l) -> bucket w' !! key = bucket w !! key)
  /\ (forall key, is_Some (bucket w !! key) -> is_Some (bucket w' !! key))
  /\ (forall key obj, In (EPut key obj) l ->
        exists obj', In (EPut key obj') l /\ bucket w' !! key = Some obj').

(** What a task has yet to do, and the same of the tasks of a pool. *)
Definition plan_of (has : string -> bool) (F : gmap string local_file)
    (p : prog (bool * bool)) : list effect :=
  match quiet_run has F p with
  | Some (_, l) => l
  | None => []
  end.

Definition pending (has : string -> bool) (F : gmap string local_file)
    (tasks : list ImageUploader.task) : list effect :=
  flat_map (fun tk => plan_of has F (snd tk)) tasks.

(** A task on its way to (True, True). *)
Definition task_ok (has : string -> bool) (F : gmap string local_file)
    (tk : ImageUploader.task) : Prop :=
  exists l, quiet_run has F (snd tk) = Some (inr (true, true), l).

(** No key is written with two different objects. *)
Definition one_object_per_key (plan : list effect) : Prop :=
  forall key obj1 obj2, In (EPut key obj1) plan -> In (EPut key obj2) plan -> obj1 = obj2.

(** What holds of a pool started in [w0] on [n] tasks on their way to
    (True, True) that had [plan] to do, while [tasks] are unfinished;
    [safe] is what keeps a task from writing a key that a task has yet to
    find missing. *)
Definition quiet_inv (has : string -> bool) (F : gmap string local_file)
    (safe : list ImageUploader.task -> Prop)
    (plan : list effect) (n : Z) (w0 : world) (tasks : list ImageUploader.task)
    (w : world) : Prop :=
  quiet has F w
  /\ Forall (task_ok has F) tasks
  /\ total_files (the_stats w) = total_files (the_stats w0)
  /\ failed_uploads (the_stats w) = failed_uploads (the_stats w0)
  /\ successful_uploads (the_stats w) + Z.of_nat (length tasks)
     = successful_uploads (the_stats w0) + n
  /\ skipped_files (the_stats w) + Z.of_nat (n_skips (pending has F tasks))
     = skipped_files (the_stats w0) + Z.of_nat (n_skips plan)
  /\ (length (puts (calls w)) + n_puts (pending has F tasks)
      = length (puts (calls w0)) + n_puts plan)%nat
  /\ (forall key, (forall obj, ~ In (EPut key obj) plan) ->
        bucket w !! key = bucket w0 !! key)
  /\ (forall key obj, In (EPut key obj) plan ->
        bucket w !! key = Some obj \/ In (EPut key obj) (pending has F tasks))
  /\ (forall e, In e (pending has F tasks) -> In e plan)
  /\ one_object_per_key plan
  /\ (forall key, In (EHead key) (pending has F tasks) -> bucket w !! key = None)
  /\ safe tasks.

(** No task has a key yet to find missing. *)
Definition no_heads (has : string -> bool) (F : gmap string local_file)
    (tasks : list ImageUploader.task) : Prop :=
  forall key, ~ In (EHead key) (pending has F tasks).

(** The tasks submitted for a list of files. *)
Definition tasks_for (self : ImageUploader.t) (base_dir : string) (skip_existing : bool)
    (image_files : list Path.t) : list ImageUploader.task :=
  List.map
    (fun image_path =>
       (image_path,
        ImageUploader.process_and_upload_image self image_path base_dir skip_existing))
    image_files.

(** The objects a file is to be stored as: its bytes under the type
    guessed from its name, and its thumbnail as a JPEG. There is none when
    the file cannot be read, or gives no thumbnail. *)
Definition expected_original (self : ImageUploader.t) (F : gmap string local_file)
    (image_path : Path.t) : option object :=
  match F !! Path.str image_path with
  | Some f =>
      match file_bytes f with
      | inr bytes =>
          Some (mk_object (RawBytes bytes) (ImageUploader.get_content_type self image_path)
                  (ImageUploader.acl self))
      | inl _ => None
      end
  | None => None
  end.

Definition expected_thumbnail (self : ImageUploader.t) (F : gmap string local_file)
    (image_path : Path.t) : option object :=
  match F !! Path.str image_path with
  | Some f =>
      match file_image f with
      | inr img =>
          match ImageUploader.render_thumbnail img with
          | inr thumbnail =>
              Some (mk_object (JpegData thumbnail) "image/jpeg" (ImageUploader.acl self))
          | inl _ => None
          end
      | inl _ => None
      end
  | None => None
  end.

(** What a task does for a file none of whose objects is in the bucket:
    it looks for the two keys, then writes the two objects. *)
Definition first_upload_trace (self : ImageUploader.t) (F : gmap string local_file)
    (image_path : Path.t) : list effect :=
  match expected_original self F image_path, expected_thumbnail self F image_path with
  | Some original, Some thumbnail =>
      [EHead (ImageUploader.original_key_of self (Path.parts image_path));
       EHead (ImageUploader.thumbnail_key_of self (Path.parts image_path));
       EPut (ImageUploader.original_key_of self (Path.parts image_path)) original;
       EPut (ImageUploader.thumbnail_key_of self (Path.parts image_path)) thumbnail]
  | _, _ => []
  end.

(** The tasks of a pool are for files of different relative paths, and
    each has the rest of its [first_upload_trace] to do. *)
Definition in_step (self : ImageUploader.t) (has : string -> bool)
    (F : gmap string local_file) (tasks : list ImageUploader.task) : Prop :=
  NoDup (List.map (fun tk : ImageUploader.task => Path.as_posix (Path.parts (fst tk))) tasks)
  /\ Forall (fun tk : ImageUploader.task =>
               plan_of has F (snd tk) `suffix_of` first_upload_trace self F (fst tk)) tasks.

(** A local file that can be read and whose image gives a thumbnail. *)
Definition uploadable (self : ImageUploader.t) (F : gmap string local_file)
    (image_path : Path.t) : Prop :=
  is_Some (expected_original self F image_path)
  /\ is_Some (expected_thumbnail self F image_path).

(** * Properties *)

(** ** Running programs *)

Section RunLemmas.

Context {A B : Type}.

Lemma run_bind (p : prog A) (f : A -> prog B) (w : world) :
  run (p ≫= f) w =
    match run p w with
    | (inl e, w') => (inl e, w')
    | (inr a, w') => run (f a) w'
    end.
Proof.
  revert w. induction p as [a | e | X o k IH]; intros w; simpl; try reflexivity.
  destruct (handle o w) as [x w']. apply IH.
Qed.

Lemma run_try_except (p : prog A) (h : Py.exn -> option (prog A)) (w : world) :
  run (try_except p h) w =
    match run p w with
    | (inr a, w') => (inr a, w')
    | (inl e, w') =>
        match h e with
        | Some q => run q w'
        | None => (inl e, w')
        end
    end.
Proof.
  revert w. induction p as [a | e | X o k IH]; intros w; simpl.
  - reflexivity.
  - destruct (h e); reflexivity.
  - destruct (handle o w) as [x w']. apply IH.
Qed.

End RunLemmas.

Lemma run_perform {X : Type} (o : op X) (w : world) :
  run (perform o) w = (inr (fst (handle o w)), snd (handle o w)).
Proof. simpl. destruct (handle o w); reflexivity. Qed.

Lemma run_raising (o : op (option Py.exn)) (w : world) :
  run (raising o) w =
    match handle o w with
    | (Some e, w') => (inl e, w')
    | (None, w') => (inr tt, w')
    end.
Proof. simpl. destruct (handle o w) as [[e|] w']; reflexivity. Qed.

Lemma run_lift {A : Type} (r : Py.exn + A) (w : world) : run (lift r) w = (r, w).
Proof. destruct r; reflexivity. Qed.

Lemma run_logger (l : log_line) (w : world) :
  run (perform (logger l)) w = (inr tt, add_log l w).
Proof. reflexivity. Qed.

(** ** The store *)

Lemma handle_put (bkt key : string) (b : body) (content_type acl : string) (w : world) :
  handle (s3_put_object bkt key b content_type acl) w =
    match faults w with
    | Some e :: fs => (Some e, add_call (Put key) (set_faults fs w))
    | None :: fs =>
        (None, set_bucket (<[key := mk_object b content_type acl]> (bucket w))
                 (add_call (Put key) (set_faults fs w)))
    | [] =>
        (None, set_bucket (<[key := mk_object b content_type acl]> (bucket w))
                 (add_call (Put key) w))
    end.
Proof.
  unfold handle, take_fault. destruct (faults w) as [|[e|] fs]; reflexivity.
Qed.

Lemma handle_head (bkt key : string) (w : world) :
  handle (s3_head_object bkt key) w =
    let w' := add_call (Head key) (snd (take_fault w)) in
    match fst (take_fault w) with
    | Some e => (Some e, w')
    | None =>
        match bucket w !! key with
        | Some _ => (None, w')
        | None => (Some (Py.ClientError "404"), w')
        end
    end.
Proof.
  unfold handle, take_fault. destruct (faults w) as [|[e|] fs]; reflexivity.
Qed.

(** ** [file_exists_in_spaces] *)

Lemma run_file_exists_in_spaces (self : ImageUploader.t) (key : string) (w : world) :
  run (ImageUploader.file_exists_in_spaces self key) w =
    match handle (s3_head_object (ImageUploader.bucket_name self) key) w with
    | (None, w') => (inr true, w')
    | (Some e, w') => if Py.is_ClientError e then (inr false, w') else (inl e, w')
    end.
Proof.
  unfold ImageUploader.file_exists_in_spaces.
  rewrite run_try_except, run_bind, run_raising.
  destruct (handle (s3_head_object _ key) w) as [[e|] w']; simpl; [|reflexivity].
  destruct (Py.is_ClientError e); reflexivity.
Qed.

(** C7, as the code has it: [file_exists_in_spaces] answers [True] exactly
    when the existence query returns and [False] when the query raises a
    [ClientError] (not found, forbidden, any other response of the
    service); an error that is not a [ClientError] reaches the caller. *)
Theorem C7_file_exists_catches_ClientError
    (self : ImageUploader.t) (key : string) (w : world) :
  run (ImageUploader.file_exists_in_spaces self key) w =
    match handle (s3_head_object (ImageUploader.bucket_name self) key) w with
    | (None, w') => (inr true, w')
    | (Some e, w') => if Py.is_ClientError e then (inr false, w') else (inl e, w')
    end.
Proof.
  rewrite run_file_exists_in_spaces.
  destruct (handle (s3_head_object _ key) w) as [[e|] w']; reflexivity.
Qed.

(** C7, as the claim has it, fails: when the endpoint cannot be reached the
    query raises an error that is not a [ClientError], and
    [file_exists_in_spaces] raises it in turn instead of answering. *)
Lemma C7_error_reaches_caller :
  fst (run (ImageUploader.file_exists_in_spaces Scenario.uploader "avatar/original/a.png")
           Scenario.unreachable)
    = inl (Py.BotoCoreError "EndpointConnectionError")
  /\ ~ (exists answer : bool,
          fst (run (ImageUploader.file_exists_in_spaces Scenario.uploader
                      "avatar/original/a.png") Scenario.unreachable) = inr answer).
Proof.
  split; [reflexivity|]. intros [answer H]. vm_compute in H. discriminate H.
Qed.

(** ** [upload_file] *)

Section UploadFile.

Variable self : ImageUploader.t.
Variables (data : file_data) (key content_type : string).

(** One attempt sends at most one [put_object], and nothing else. *)
Lemma run_put_attempt (w : world) :
  exists r w' new,
    run (ImageUploader.put_attempt self data key content_type) w = (r, w')
    /\ calls w' = new ++ calls w
    /\ (new = [] \/ new = [Put key])
    /\ log w' = log w /\ the_stats w' = the_stats w.
Proof.
  unfold ImageUploader.put_attempt. destruct data as [j | p].
  - rewrite run_raising, handle_put.
    destruct (faults w) as [|[e|] fs]; eexists _, _, [Put key]; simpl; auto.
  - rewrite run_bind, run_perform. simpl.
    destruct (files w !! Path.str p) as [f|]; simpl.
    + rewrite run_bind, run_lift. destruct (file_bytes f) as [e | bytes].
      * eexists _, _, []; simpl; auto.
      * rewrite run_raising, handle_put.
        destruct (faults w) as [|[e|] fs]; eexists _, _, [Put key]; simpl; auto.
    + eexists _, _, []; simpl; auto.
Qed.

Lemma upload_attempts_bounded (retry_count : Z) (remaining : nat) :
  forall (attempt : Z) (w : world),
  exists b w' new,
    run (ImageUploader.upload_attempts self remaining attempt data key content_type
           retry_count) w = (inr b, w')
    /\ calls w' = new ++ calls w
    /\ (length new <= remaining)%nat
    /\ Forall (fun c => c = Put key) new
    /\ the_stats w' = the_stats w.
Proof.
  induction remaining as [|remaining' IH]; intros attempt w.
  - exists false, w, []. simpl. auto.
  - cbn [ImageUploader.upload_attempts].
    rewrite run_bind, run_try_except, run_bind.
    destruct (run_put_attempt w) as (r & w1 & new1 & -> & Hcalls & Hnew & Hlog & Hst).
    assert (Hlen : (length new1 <= 1)%nat /\ Forall (fun c => c = Put key) new1).
    { destruct Hnew as [-> | ->]; simpl; split; auto. }
    destruct Hlen as [Hlen Hall].
    destruct r as [e | []].
    + destruct (Py.is_ClientError e).
      * destruct (attempt <? retry_count - 1).
        -- simpl.
           destruct (IH (attempt + 1) (add_log (Warning_retry key (attempt + 1)) w1))
             as (b & w' & new & -> & Hc & Hl & Hf & Hs).
           exists b, w', (new ++ new1). simpl in Hc, Hs.
           rewrite Hc, Hcalls, length_app, Hs, Hst.
           split_and!; auto with lia. { by rewrite app_assoc. } by apply Forall_app.
        -- simpl. eexists false, _, new1. simpl. split_and!; auto with lia.
      * simpl. eexists false, _, new1. simpl. split_and!; auto with lia.
    + simpl. exists true, w1, new1. split_and!; auto with lia.
Qed.

End UploadFile.

Section Retry.

Variable self : ImageUploader.t.
Variables (data : file_data) (key content_type : string).
Variable retry_count : Z.

Lemma run_put_attempt_readable (w : world) :
  readable data w ->
  run (ImageUploader.put_attempt self data key content_type) w =
    match handle (s3_put_object (ImageUploader.bucket_name self) key
                    match data with
                    | BytesIO j => JpegData j
                    | FilePath p =>
                        RawBytes
                          match files w !! Path.str p with
                          | Some (mk_file (inr bytes) _) => bytes
                          | _ => EmptyString
                          end
                    end content_type (ImageUploader.acl self)) w with
    | (Some e, w') => (inl e, w')
    | (None, w') => (inr tt, w')
    end.
Proof.
  unfold ImageUploader.put_attempt, readable. destruct data as [j | p].
  - intros _. apply run_raising.
  - intros (f & bytes & Hf & Hb).
    rewrite run_bind, run_perform. simpl. rewrite Hf. simpl.
    rewrite run_bind, run_lift, Hb. destruct f as [fb fi]. simpl in Hb. subst fb.
    apply run_raising.
Qed.

Lemma upload_attempts_retry (codes : list string) :
  forall (attempt : Z) (w : world) (rest : list (option Py.exn)),
    attempt + Z.of_nat (length codes) = retry_count - 1 ->
    faults w = transient codes ++ rest ->
    lets_through rest ->
    readable data w ->
    exists w',
      run (ImageUploader.upload_attempts self (S (length codes)) attempt data key
             content_type retry_count) w = (inr true, w')
      /\ is_Some (bucket w' !! key)
      /\ calls w' = repeat (Put key) (S (length codes)) ++ calls w.
Proof.
  induction codes as [|code codes' IH]; intros attempt w rest Hatt Hfaults Hrest Hread.
  - cbn [ImageUploader.upload_attempts].
    rewrite run_bind, run_try_except, run_bind, (run_put_attempt_readable w Hread).
    rewrite handle_put. simpl in Hfaults. rewrite Hfaults.
    destruct rest as [|[e|] rest']; [| destruct Hrest |]; simpl;
      (eexists; split_and!; [reflexivity | | reflexivity]);
      simpl; rewrite lookup_insert_eq; eauto.
  - cbn [ImageUploader.upload_attempts].
    rewrite run_bind, run_try_except, run_bind, (run_put_attempt_readable w Hread).
    rewrite handle_put. simpl in Hfaults. rewrite Hfaults. simpl.
    simpl in Hatt.
    replace (attempt <? retry_count - 1) with true by (symmetry; apply Z.ltb_lt; lia).
    simpl.
    edestruct (IH (attempt + 1)) as (w' & -> & Hb & Hc); [lia | | exact Hrest | | ].
    3:{ exists w'. split_and!; [reflexivity | exact Hb |].
        rewrite Hc. simpl. f_equal. change (Put key :: calls w) with ([Put key] ++ calls w).
        rewrite app_assoc, <- repeat_cons. reflexivity. }
    + reflexivity.
    + destruct data; simpl in *; auto.
Qed.

(** Error responses, then an error of another kind: the loop ends with
    it, whatever attempts are left. *)
Lemma upload_attempts_unexpected (codes : list string) :
  forall (remaining : nat) (attempt : Z) (w : world) (e : Py.exn)
         (rest : list (option Py.exn)),
    (length codes < remaining)%nat ->
    attempt + Z.of_nat (length codes) <= retry_count - 1 ->
    Py.is_ClientError e = false ->
    faults w = transient codes ++ Some e :: rest ->
    readable data w ->
    exists w',
      run (ImageUploader.upload_attempts self remaining attempt data key content_type
             retry_count) w = (inr false, w')
      /\ calls w' = repeat (Put key) (S (length codes)) ++ calls w
      /\ faults w' = rest
      /\ bucket w' = bucket w.
Proof.
  induction codes as [|code codes' IH];
    intros remaining attempt w e rest Hrem Hatt He Hfaults Hread;
    (destruct remaining as [|remaining']; [simpl in Hrem; lia|]).
  - cbn [ImageUploader.upload_attempts].
    rewrite run_bind, run_try_except, run_bind, (run_put_attempt_readable w Hread).
    rewrite handle_put. simpl in Hfaults. rewrite Hfaults, He. simpl. eauto 10.
  - cbn [ImageUploader.upload_attempts].
    rewrite run_bind, run_try_except, run_bind, (run_put_attempt_readable w Hread).
    rewrite handle_put. simpl in Hfaults. rewrite Hfaults. simpl.
    simpl in Hatt, Hrem.
    replace (attempt <? retry_count - 1) with true by (symmetry; apply Z.ltb_lt; lia).
    simpl.
    edestruct (IH remaining' (attempt + 1)) as (w' & -> & Hc & Hf & Hb);
      [lia | lia | exact He | | | ].
    3:{ exists w'. split_and!; [reflexivity | | exact Hf | exact Hb].
        rewrite Hc. simpl. f_equal. change (Put key :: calls w) with ([Put key] ++ calls w).
        rewrite app_assoc, <- repeat_cons. reflexivity. }
    + reflexivity.
    + destruct data; simpl in *; auto.
Qed.

End Retry.

(** C6, as the code has it: when the store answers each of the first
    [retry_count - 1] attempts with an error response (a [ClientError])
    and lets the last one through, [upload_file] returns [True], having
    sent [retry_count] puts, and the object is in the bucket; an error that
    is not a [ClientError], on the first attempt or after error responses,
    makes it return [False] with that attempt, without the attempts that
    are left and without storing anything. *)
Theorem C6_only_ClientError_is_retried
    (self : ImageUploader.t) (data : file_data) (key content_type : string)
    (retry_count : Z) (w : world) :
  1 <= retry_count ->
  readable data w ->
  (forall (codes : list string) (rest : list (option Py.exn)),
     Z.of_nat (length codes) = retry_count - 1 ->
     faults w = transient codes ++ rest ->
     lets_through rest ->
     exists w',
       run (ImageUploader.upload_file self data key content_type retry_count) w
         = (inr true, w')
       /\ is_Some (bucket w' !! key)
       /\ calls w' = repeat (Put key) (Z.to_nat retry_count) ++ calls w)
  /\ (forall (codes : list string) (e : Py.exn) (rest : list (option Py.exn)),
        Z.of_nat (length codes) < retry_count ->
        Py.is_ClientError e = false ->
        faults w = transient codes ++ Some e :: rest ->
        exists w',
          run (ImageUploader.upload_file self data key content_type retry_count) w
            = (inr false, w')
          /\ calls w' = repeat (Put key) (S (length codes)) ++ calls w
          /\ faults w' = rest
          /\ bucket w' = bucket w).
Proof.
  intros Hpos Hread. split.
  - intros codes rest Hlen Hfaults Hrest. unfold ImageUploader.upload_file.
    replace (Z.to_nat retry_count) with (S (length codes)) by lia.
    apply upload_attempts_retry with (rest := rest); auto; lia.
  - intros codes e rest Hlen He Hfaults. unfold ImageUploader.upload_file.
    apply upload_attempts_unexpected with (e := e); auto; lia.
Qed.

Lemma C6_witness :
  (exists w',
     run (ImageUploader.upload_file Scenario.uploader
            (FilePath (Path.mk "imgs" ["a.png"])) "avatar/original/a.png" "image/png" 3)
         Scenario.flaky = (inr true, w')
     /\ is_Some (bucket w' !! "avatar/original/a.png")
     /\ calls w' = repeat (Put "avatar/original/a.png") (Z.to_nat 3) ++ calls Scenario.flaky)
  /\ (exists w',
        run (ImageUploader.upload_file Scenario.uploader
               (FilePath (Path.mk "imgs" ["a.png"])) "avatar/original/a.png" "image/png" 3)
            Scenario.timing_out = (inr false, w')
        /\ calls w' = repeat (Put "avatar/original/a.png") 2 ++ calls Scenario.timing_out
        /\ faults w' = [None]
        /\ bucket w' = bucket Scenario.timing_out).
Proof.
  split.
  - destruct (C6_only_ClientError_is_retried Scenario.uploader
                (FilePath (Path.mk "imgs" ["a.png"])) "avatar/original/a.png" "image/png" 3
                Scenario.flaky) as [Hretry _].
    + lia.
    + exists (Scenario.rgb_file 100 100), "bytes". split; reflexivity.
    + apply (Hretry ["503"; "503"] [None]); [reflexivity | reflexivity | exact I].
  - destruct (C6_only_ClientError_is_retried Scenario.uploader
                (FilePath (Path.mk "imgs" ["a.png"])) "avatar/original/a.png" "image/png" 3
                Scenario.timing_out) as [_ Habort].
    + lia.
    + exists (Scenario.rgb_file 100 100), "bytes". split; reflexivity.
    + apply (Habort ["503"] (Py.BotoCoreError "ReadTimeoutError") [None]);
        [simpl; lia | reflexivity | reflexivity].
Defined.

(** C6, as the claim has it, fails: a connection that times out on each
    of the first two of three attempts, and would work on the third, is no
    [ClientError]; [upload_file] returns [False] after the first attempt
    and sends no second put. *)
Lemma C6_network_error_is_not_retried :
  let '(r, w') :=
    run (ImageUploader.upload_file Scenario.uploader
           (FilePath (Path.mk "imgs" ["a.png"])) "avatar/original/a.png" "image/png" 3)
        Scenario.slow_network in
  r = inr false
  /\ calls w' = [Put "avatar/original/a.png"]
  /\ faults w' = [Some (Py.BotoCoreError "ConnectTimeoutError"); None]
  /\ bucket w' !! "avatar/original/a.png" = None.
Proof. vm_compute. auto. Qed.

(** C10: for every [retry_count >= 0], [upload_file] returns (it neither
    loops nor raises) after at most [retry_count] puts, and with
    [retry_count = 0] it returns [False] without touching anything. *)
Theorem C10_upload_file_within_retry_count
    (self : ImageUploader.t) (data : file_data) (key content_type : string)
    (retry_count : Z) (w : world) :
  0 <= retry_count ->
  exists b w' new,
    run (ImageUploader.upload_file self data key content_type retry_count) w = (inr b, w')
    /\ calls w' = new ++ calls w
    /\ Z.of_nat (length (puts new)) <= retry_count
    /\ (retry_count = 0 -> b = false /\ w' = w).
Proof.
  intros Hpos. unfold ImageUploader.upload_file.
  destruct (decide (retry_count = 0)) as [-> | Hnz].
  - exists false, w, []. simpl. auto with lia.
  - destruct (upload_attempts_bounded self data key content_type retry_count
                (Z.to_nat retry_count) 0 w) as (b & w' & new & Hrun & Hc & Hl & Hf & _).
    exists b, w', new. split_and!; auto; [|lia].
    unfold puts. pose proof (List.filter_length_le is_Put new). lia.
Qed.

Lemma C10_witness :
  0 <= 3 /\
  exists b w' new,
    run (ImageUploader.upload_file Scenario.uploader
           (FilePath (Path.mk "imgs" ["a.png"])) "avatar/original/a.png" "image/png" 3)
        Scenario.flaky = (inr b, w')
    /\ calls w' = new ++ calls Scenario.flaky
    /\ Z.of_nat (length (puts new)) <= 3
    /\ (3 = 0 -> b = false /\ w' = Scenario.flaky).
Proof.
  split; [lia|].
  apply (C10_upload_file_within_retry_count Scenario.uploader); lia.
Defined.

(** ** [create_thumbnail] *)

(** [int(x)] is [x] truncated toward zero. *)
Lemma int_of_float_truncates (x : float) (n : Z) :
  Py.int_of_float x = inr n -> truncates x n.
Proof.
  unfold Py.int_of_float, truncates, Py.float_to_Q, Qtrunc.
  destruct (Prim2SF x) as [s | s | | s m e]; try discriminate.
  - intros [= <-]. eexists; split; [reflexivity|]. reflexivity.
  - intros [= <-]. eexists; split; [reflexivity|].
    destruct (0 <=? e) eqn:He.
    + cbn [Qnum Qden]. rewrite Z.quot_1_r. destruct s; [|reflexivity].
      change (Z.neg m) with (- Z.pos m). lia.
    + cbn [Qnum Qden]. apply Z.leb_gt in He.
      assert (Hd : 0 < 2 ^ (- e)) by (apply Z.pow_pos_nonneg; lia).
      rewrite Z2Pos.id by exact Hd.
      destruct s.
      * change (Z.neg m) with (- Z.pos m).
        rewrite Z.quot_opp_l by lia. rewrite Z.quot_div_nonneg by lia. reflexivity.
      * rewrite Z.quot_div_nonneg by lia. reflexivity.
Qed.

(** C4, as the code has it: when [aspect_ratio > target_ratio] the resized
    height is exactly 300 and the resized width is the double
    [300 * aspect_ratio] truncated toward zero ([int], not [round]);
    otherwise the resized width is exactly 200 and the resized height is
    the double [200 / aspect_ratio] truncated toward zero. *)
Theorem C4_resized_size_truncates
    (original_width original_height new_width new_height : Z) :
  ImageUploader.resized_size (original_width, original_height)
    = inr (new_width, new_height) ->
  exists aspect_ratio target_ratio : float,
    Py.int_truediv original_width original_height = inr aspect_ratio
    /\ Py.int_truediv THUMBNAIL_WIDTH THUMBNAIL_HEIGHT = inr target_ratio
    /\ if (target_ratio <? aspect_ratio)%float
       then new_height = THUMBNAIL_HEIGHT
            /\ truncates (Py.int_mul_float THUMBNAIL_HEIGHT aspect_ratio) new_width
       else new_width = THUMBNAIL_WIDTH
            /\ exists quotient : float,
                 Py.int_div_float THUMBNAIL_WIDTH aspect_ratio = inr quotient
                 /\ truncates quotient new_height.
Proof.
  unfold ImageUploader.resized_size.
  destruct (Py.int_truediv original_width original_height) as [e | aspect_ratio];
    [discriminate|].
  destruct (Py.int_truediv THUMBNAIL_WIDTH THUMBNAIL_HEIGHT) as [e | target_ratio];
    [discriminate|].
  unfold mbind, result_bind, mret, result_ret.
  intros H. exists aspect_ratio, target_ratio. split_and!; try reflexivity.
  destruct (target_ratio <? aspect_ratio)%float.
  - destruct (Py.int_of_float _) as [e | n] eqn:Hn; [discriminate|].
    injection H as <- <-. split; [reflexivity|]. by apply int_of_float_truncates.
  - destruct (Py.int_div_float THUMBNAIL_WIDTH aspect_ratio) as [e | quotient];
      [discriminate|].
    destruct (Py.int_of_float quotient) as [e | n] eqn:Hn; [discriminate|].
    injection H as <- <-. split; [reflexivity|].
    exists quotient. split; [reflexivity|]. by apply int_of_float_truncates.
Qed.

Lemma C4_witness :
  exists aspect_ratio target_ratio : float,
    Py.int_truediv 10 7 = inr aspect_ratio
    /\ Py.int_truediv THUMBNAIL_WIDTH THUMBNAIL_HEIGHT = inr target_ratio
    /\ if (target_ratio <? aspect_ratio)%float
       then 300 = THUMBNAIL_HEIGHT
            /\ truncates (Py.int_mul_float THUMBNAIL_HEIGHT aspect_ratio) 428
       else 428 = THUMBNAIL_WIDTH
            /\ exists quotient : float,
                 Py.int_div_float THUMBNAIL_WIDTH aspect_ratio = inr quotient
                 /\ truncates quotient 300.
Proof.
  apply (C4_resized_size_truncates 10 7 428 300). vm_compute. reflexivity.
Defined.

(** C4, as the claim has it, fails: a 10x7 image is wider than 2:3 and
    [300 * (10 / 7)] is 428.57...; the code resizes it to 428x300, where
    rounding to the nearest integer gives 429x300. *)
Lemma C4_int_is_not_round :
  ImageUploader.resized_size (10, 7) = inr (428, 300)
  /\ spec_resized_size (10, 7) = inr (429, 300)
  /\ ImageUploader.resized_size (10, 7) <> spec_resized_size (10, 7).
Proof.
  split_and!; [vm_compute; reflexivity | vm_compute; reflexivity |].
  intros H. vm_compute in H. discriminate H.
Qed.



Lemma to_rgb_mk (m : PIL.mode) (sz : Z * Z) :
  ImageUploader.to_rgb (PIL.mk m sz) = PIL.mk PIL.RGB sz.
Proof. destruct m; reflexivity. Qed.

Lemma upto_In (n : nat) (z : Z) : 1 <= z <= Z.of_nat n -> In z (upto n).
Proof.
  intros Hz. unfold upto. apply in_map_iff. exists (Z.to_nat z).
  split; [lia|]. apply in_seq. lia.
Qed.

Lemma sizes_up_to_64_render :
  forallb (fun width => forallb (renders width) (upto 64)) (upto 64) = true.
Proof. vm_compute. reflexivity. Qed.

(** Every image of at most 64x64 pixels, of any mode, renders. *)
Lemma small_images_render (m : PIL.mode) (width height : Z) :
  1 <= width <= 64 -> 1 <= height <= 64 ->
  exists thumbnail : PIL.jpeg,
    ImageUploader.render_thumbnail (PIL.mk m (width, height)) = inr thumbnail.
Proof.
  intros Hw Hh.
  pose proof sizes_up_to_64_render as H. rewrite forallb_forall in H.
  specialize (H width (upto_In 64 width Hw)). rewrite forallb_forall in H.
  specialize (H height (upto_In 64 height Hh)). unfold renders in H.
  unfold ImageUploader.render_thumbnail in *. rewrite to_rgb_mk.
  change (ImageUploader.to_rgb (PIL.mk PIL.RGB (width, height)))
    with (PIL.mk PIL.RGB (width, height)) in H.
  destruct (_ ≫= _) as [e | thumbnail]; [discriminate H | eauto].
Qed.

(** The three images of the scenario do render. *)
Example create_thumbnail_scenario :
  List.map
    (fun name =>
       fst (run (ImageUploader.create_thumbnail (Path.mk "imgs" [name])) Scenario.first_run))
    ["a.png"; "b.jpg"; "c.webp"]
  = let thumbnail := PIL.mk_jpeg (200, 300) 85 true in
    [inr (Some thumbnail); inr (Some thumbnail); inr (Some thumbnail)].
Proof. vm_compute. reflexivity. Qed.

(** ** [get_image_files] *)

Lemma insert_sorted_In (p q : Path.t) (l : list Path.t) :
  In q (Path.insert_sorted p l) <-> q = p \/ In q l.
Proof.
  induction l as [|r l IH]; simpl.
  - intuition.
  - destruct (Path.leb p r); simpl; [intuition|]. rewrite IH. intuition.
Qed.

(** Sorting keeps the files it is given, and only those. *)
Lemma sorted_In (q : Path.t) (l : list Path.t) : In q (Path.sorted l) <-> In q l.
Proof.
  unfold Path.sorted. induction l as [|p l IH]; simpl; [reflexivity|].
  rewrite insert_sorted_In, IH. intuition.
Qed.

(** The files [get_image_files] keeps from a listing, before it sorts them. *)
Lemma run_get_image_files (directory : string) (w : world) (entries : list dirent) :
  dirs w !! directory = Some entries ->
  exists image_files : list Path.t,
    run (ImageUploader.get_image_files directory) w
      = (inr (Path.sorted image_files),
         add_log (Info_found (Z.of_nat (length image_files)) directory) w)
    /\ forall file_path : Path.t,
         In file_path image_files <->
           (exists e : dirent,
              In e entries /\ file_path = Path.mk directory (ent_parts e)
              /\ ent_is_file e = true)
           /\ Py.lower (Path.suffix file_path) ∈ SUPPORTED_EXTENSIONS.
Proof.
  intros Hdir. unfold ImageUploader.get_image_files.
  rewrite run_bind, run_perform. simpl. rewrite Hdir.
  rewrite bool_decide_eq_true_2 by eauto. simpl. rewrite Hdir. simpl.
  eexists. split; [reflexivity|].
  intros file_path. rewrite in_map_iff. split.
  - intros ([q is_file] & <- & Hin). apply filter_In in Hin as [Hin Hkeep].
    apply in_map_iff in Hin as (e & [= <- <-] & He).
    simpl in Hkeep. apply andb_true_iff in Hkeep as [Hfile Hext].
    apply bool_decide_eq_true in Hext. simpl. eauto 6.
  - intros [(e & He & -> & Hfile) Hext].
    exists (Path.mk directory (ent_parts e), ent_is_file e). split; [reflexivity|].
    apply filter_In. split.
    + apply in_map_iff. eauto.
    + simpl. rewrite Hfile. simpl. by apply bool_decide_eq_true.
Qed.

Lemma in_all_ascii (a : ascii) : In a all_ascii.
Proof.
  unfold all_ascii. apply in_map_iff. exists (nat_of_ascii a).
  split; [apply ascii_nat_embedding|].
  apply in_seq. pose proof (nat_ascii_bounded a). lia.
Qed.

(** [lower] sends exactly a character and its upper-case form to a
    character that is not an upper-case letter; checked on every pair. *)
Lemma lower_ascii_table :
  forallb
    (fun c =>
       forallb
         (fun a =>
            implb (Ascii.eqb (Py.lower_ascii c) c)
                  (Bool.eqb (Ascii.eqb (Py.lower_ascii a) c)
                            (Ascii.eqb a c || Ascii.eqb a (upper_ascii c))))
         all_ascii)
    all_ascii = true.
Proof. vm_compute. reflexivity. Qed.

Lemma lower_ascii_eq (a c : ascii) :
  Py.lower_ascii c = c ->
  Py.lower_ascii a = c <-> Ascii.eqb a c || Ascii.eqb a (upper_ascii c) = true.
Proof.
  intros Hc. pose proof lower_ascii_table as Htable.
  rewrite forallb_forall in Htable. specialize (Htable c (in_all_ascii c)).
  rewrite forallb_forall in Htable. specialize (Htable a (in_all_ascii a)).
  rewrite (proj2 (Ascii.eqb_eq _ _) Hc) in Htable. simpl in Htable.
  apply eqb_prop in Htable. rewrite <- Htable. symmetry. apply Ascii.eqb_eq.
Qed.

(** The lower-case form of [s] is [ext], itself in lower case, exactly when
    [s] is [ext] up to the case of the letters. *)
Lemma lower_eq_same_but_case (ext : string) :
  Py.lower ext = ext ->
  forall s : string, Py.lower s = ext <-> same_but_case s ext = true.
Proof.
  induction ext as [|c ext' IH]; intros Hext [|a s']; simpl; try (split; congruence).
  simpl in Hext. injection Hext as Hc Hext'.
  rewrite andb_true_iff, <- (lower_ascii_eq a c Hc), <- (IH Hext' s').
  split; [intros [= -> ->]; auto | intros [-> ->]; reflexivity].
Qed.

(** The test of the filter, said without [lower] and with the extensions
    listed. *)
Lemma supported_extension (p : Path.t) :
  Py.lower (Path.suffix p) ∈ SUPPORTED_EXTENSIONS <-> has_supported_extension p = true.
Proof.
  unfold has_supported_extension, spec_extensions, SUPPORTED_EXTENSIONS.
  cbn [existsb]. rewrite !orb_true_iff.
  rewrite <- !lower_eq_same_but_case by reflexivity.
  rewrite !elem_of_union, !elem_of_singleton.
  split; [tauto | intros H; repeat destruct H as [H | H]; try discriminate H; tauto].
Qed.

(** C9: the extensions are [.jpg], [.jpeg], [.png], [.webp], [.gif],
    [.bmp], [.tiff] and [.tif], and their letters may be in either case: a
    regular file below the scan root is in the list that [get_image_files]
    returns if and only if its extension is one of these eight up to the
    case of its letters; and the list holds regular files of the listing
    only. *)
Theorem C9_extension_match_ignores_case
    (directory : string) (w : world) (entries : list dirent) :
  dirs w !! directory = Some entries ->
  exists (image_files : list Path.t) (w' : world),
    run (ImageUploader.get_image_files directory) w = (inr image_files, w')
    /\ (forall e : dirent,
          In e entries -> ent_is_file e = true ->
          let file_path := Path.mk directory (ent_parts e) in
          In file_path image_files
          <-> exists ext : string,
                In ext [".jpg"; ".jpeg"; ".png"; ".webp"; ".gif"; ".bmp"; ".tiff"; ".tif"]
                /\ same_but_case (Path.suffix file_path) ext = true)
    /\ (forall file_path : Path.t,
          In file_path image_files ->
          exists e : dirent,
            In e entries /\ ent_is_file e = true
            /\ file_path = Path.mk directory (ent_parts e)).
Proof.
  intros Hdir.
  destruct (run_get_image_files directory w entries Hdir) as (l & Hrun & Hl).
  eexists _, _. split; [exact Hrun|]. split.
  - intros e He Hfile file_path.
    rewrite sorted_In, Hl, supported_extension.
    unfold has_supported_extension. rewrite existsb_exists. split.
    + intros [_ Hext]. exact Hext.
    + intros Hext. split; [|exact Hext]. exists e. auto.
  - intros file_path Hin. apply sorted_In, Hl in Hin as [(e & He & -> & Hfile) _].
    eauto.
Qed.

(** In the listing of [Scenario.mixed_case], [A.JPG] and [b.PnG] are found,
    and [c.txt] is not. *)
Lemma C9_witness :
  exists (image_files : list Path.t) (w' : world),
    run (ImageUploader.get_image_files "imgs") Scenario.mixed_case = (inr image_files, w')
    /\ In (Path.mk "imgs" ["A.JPG"]) image_files
    /\ In (Path.mk "imgs" ["b.PnG"]) image_files
    /\ ~ In (Path.mk "imgs" ["c.txt"]) image_files.
Proof.
  destruct (C9_extension_match_ignores_case "imgs" Scenario.mixed_case
              [ mk_dirent ["A.JPG"] true; mk_dirent ["b.PnG"] true;
                mk_dirent ["c.txt"] true; mk_dirent ["d.gif"] false;
                mk_dirent [".png"] true ] eq_refl)
    as (image_files & w' & Hrun & Hiff & _).
  exists image_files, w'. split; [exact Hrun|]. split_and!.
  - apply (Hiff (mk_dirent ["A.JPG"] true)); [simpl; auto | reflexivity |].
    exists ".jpg". split; [simpl; auto | reflexivity].
  - apply (Hiff (mk_dirent ["b.PnG"] true)); [simpl; auto | reflexivity |].
    exists ".png". split; [simpl; auto | reflexivity].
  - intros Hin.
    apply (Hiff (mk_dirent ["c.txt"] true)) in Hin as (ext & Hext & Hsame);
      [| simpl; auto | reflexivity].
    simpl in Hext. repeat destruct Hext as [<- | Hext]; try discriminate Hsame.
    destruct Hext.
Defined.

(** [A.JPG] and [b.PnG] are found; the text file, the directory [d.gif] and
    the hidden file [.png], which has no extension, are not. *)
Example get_image_files_mixed_case :
  fst (run (ImageUploader.get_image_files "imgs") Scenario.mixed_case)
  = inr [Path.mk "imgs" ["A.JPG"]; Path.mk "imgs" ["b.PnG"]].
Proof. vm_compute. reflexivity. Qed.

(** ** [upload_directory]: the summary *)

Section Orchestrator.

Variable self : ImageUploader.t.
Variables (base_dir : string) (skip_existing : bool).

Lemma run_count_outcome (image_path : Path.t) (outcome : bool * bool) (w : world) :
  exists w', run (ImageUploader.count_outcome image_path outcome) w = (inr tt, w').
Proof.
  destruct outcome as [[] []]; simpl; eauto.
Qed.

Lemma run_count_error (image_path : Path.t) (e : Py.exn) (w : world) :
  exists w', run (ImageUploader.count_error image_path e) w = (inr tt, w').
Proof. simpl. eauto. Qed.

(** Whatever a task does, the task boundary returns. *)
Lemma run_task_boundary (image_path : Path.t) (p : prog (bool * bool)) (w : world) :
  exists w',
    run (try_except
           (outcome ← p; ImageUploader.count_outcome image_path outcome)
           (fun e => Some (ImageUploader.count_error image_path e))) w = (inr tt, w').
Proof.
  rewrite run_try_except, run_bind.
  destruct (run p w) as [[e | outcome] w1].
  - apply run_count_error.
  - destruct (run_count_outcome image_path outcome w1) as [w' ->]. eauto.
Qed.

Lemma upload_sequential_returns (image_files : list Path.t) :
  forall w : world,
  exists w',
    run (ImageUploader._upload_sequential self image_files base_dir skip_existing) w
      = (inr tt, w').
Proof.
  induction image_files as [|image_path rest IH]; intros w.
  - simpl. eauto.
  - cbn [ImageUploader._upload_sequential]. rewrite run_bind.
    destruct (run_task_boundary image_path
                (ImageUploader.process_and_upload_image self image_path base_dir
                   skip_existing) w) as [w1 ->].
    apply IH.
Qed.

Lemma batch_loop_returns (image_files : list Path.t) (workers batch_size : Z)
    (starts : list Z) :
  1 <= workers ->
  forall (schedule : list nat) (w : world),
  exists w',
    ImageUploader.batch_loop self starts schedule image_files base_dir skip_existing
      workers batch_size w = (inr tt, w').
Proof.
  intros Hworkers. induction starts as [|batch_start starts' IH]; intros schedule w.
  - simpl. eauto.
  - cbn [ImageUploader.batch_loop]. cbv zeta.
    replace (workers <=? 0) with false by (symmetry; apply Z.leb_gt; lia).
    destruct (ImageUploader.run_pool _ _ _ _) as [schedule' w1].
    apply IH.
Qed.

Lemma upload_concurrent_returns (schedule : list nat) (image_files : list Path.t)
    (workers batch_size : Z) (w : world) :
  1 <= workers -> batch_size <> 0 ->
  exists w',
    ImageUploader._upload_concurrent self schedule image_files base_dir skip_existing
      workers batch_size w = (inr tt, w').
Proof.
  intros Hworkers Hbatch. unfold ImageUploader._upload_concurrent.
  replace (batch_size =? 0) with false by (symmetry; apply Z.eqb_neq; exact Hbatch).
  by apply batch_loop_returns.
Qed.

End Orchestrator.

(** The entries that the filter of [get_image_files] keeps are the
    supported image files. *)
Lemma is_supported_image_filter (directory : string) (e : dirent) :
  ent_is_file e = true
  /\ Py.lower (Path.suffix (Path.mk directory (ent_parts e))) ∈ SUPPORTED_EXTENSIONS
  <-> is_supported_image directory e = true.
Proof.
  unfold is_supported_image. rewrite andb_true_iff, supported_extension. reflexivity.
Qed.

(** C3, as the code has it. Over a directory that holds at least one
    supported image file, [upload_directory] returns with the summary of the
    final statistics as its last log line, whatever the store, the files,
    the schedule of the pool and the failures met on the way (for
    [workers >= 1], and a non-zero [batch_size] when the pool is used). Over
    a directory that holds no supported image file, it logs the warning after
    the two lines of the start and returns: no summary is written, whatever
    the workers and the batch size. *)
Theorem C3_summary_unless_no_images
    (self : ImageUploader.t) (schedule : list nat) (directory : string)
    (skip_existing : bool) (workers batch_size : Z) (w : world)
    (entries : list dirent) :
  dirs w !! directory = Some entries ->
  ((exists e : dirent, In e entries /\ is_supported_image directory e = true) ->
   1 <= workers ->
   workers = 1 \/ batch_size <> 0 ->
   exists (w' : world) (earlier : list log_line),
     ImageUploader.upload_directory self schedule directory skip_existing workers
       batch_size w = (inr tt, w')
     /\ log w' = Info_summary (the_stats w') :: earlier)
  /\ ((forall e : dirent, In e entries -> is_supported_image directory e = false) ->
      exists w' : world,
        ImageUploader.upload_directory self schedule directory skip_existing workers
          batch_size w = (inr tt, w')
        /\ log w'
           = [Warning_no_images; Info_found 0 directory;
              Info_starting directory skip_existing workers] ++ log w
        /\ (existsb is_summary (log w) = false -> existsb is_summary (log w') = false)).
Proof.
  intros Hdir. split.
  - intros (e & He & Himage) Hworkers Hbatch.
    apply is_supported_image_filter in Himage as [Hfile Hext].
    unfold ImageUploader.upload_directory. rewrite run_bind.
    destruct (run_get_image_files directory
                (add_log (Info_starting directory skip_existing workers) w) entries Hdir)
      as (l & -> & Hl).
    assert (Hin : In (Path.mk directory (ent_parts e)) (Path.sorted l)).
    { apply sorted_In, Hl. split; [|exact Hext]. exists e. auto. }
    rewrite run_bind, run_perform. simpl run.
    destruct (Path.sorted l) as [|image_path rest]; [destruct Hin|].
    destruct (workers =? 1) eqn:Hw.
    + match goal with
      | |- context [run (ImageUploader._upload_sequential _ ?fs _ _) ?w0] =>
          destruct (upload_sequential_returns self directory skip_existing fs w0)
            as [w1 ->]
      end.
      simpl. eauto.
    + apply Z.eqb_neq in Hw.
      match goal with
      | |- context [ImageUploader._upload_concurrent _ _ ?fs _ _ _ _ ?w0] =>
          destruct (upload_concurrent_returns self directory skip_existing schedule fs
                      workers batch_size w0) as [w1 ->]; [lia | tauto |]
      end.
      simpl. eauto.
  - intros Hnone.
    unfold ImageUploader.upload_directory. rewrite run_bind.
    destruct (run_get_image_files directory
                (add_log (Info_starting directory skip_existing workers) w) entries Hdir)
      as (l & -> & Hl).
    assert (Hl' : l = []).
    { destruct l as [|file_path l']; [reflexivity|].
      destruct (proj1 (Hl file_path) (or_introl eq_refl)) as [(e & He & -> & Hfile) Hext].
      specialize (Hnone e He).
      rewrite (proj1 (is_supported_image_filter directory e) (conj Hfile Hext)) in Hnone.
      discriminate Hnone. }
    subst l. simpl. eexists. split; [reflexivity|]. split; [reflexivity|].
    intros Hlog. exact Hlog.
Qed.

Lemma C3_witness :
  (exists (w' : world) (earlier : list log_line),
     ImageUploader.upload_directory Scenario.uploader [2; 0; 1; 1; 0]%nat "imgs" true 4 2
       Scenario.first_run = (inr tt, w')
     /\ log w' = Info_summary (the_stats w') :: earlier)
  /\ (exists w' : world,
        ImageUploader.upload_directory Scenario.uploader [] "docs" true 1 100
          Scenario.no_images = (inr tt, w')
        /\ log w' = [Warning_no_images; Info_found 0 "docs"; Info_starting "docs" true 1]
        /\ existsb is_summary (log w') = false).
Proof.
  split.
  - destruct (C3_summary_unless_no_images Scenario.uploader [2; 0; 1; 1; 0]%nat "imgs" true
                4 2 Scenario.first_run Scenario.listing eq_refl) as [Hsummary _].
    apply Hsummary.
    + exists (mk_dirent ["a.png"] true). split; [simpl; auto | reflexivity].
    + lia.
    + right. lia.
  - destruct (C3_summary_unless_no_images Scenario.uploader [] "docs" true 1 100
                Scenario.no_images
                [mk_dirent ["notes.txt"] true; mk_dirent ["old"] false] eq_refl)
      as [_ Hnone].
    destruct Hnone as (w' & Hrun & Hlog & Hquiet).
    + intros e [<- | [<- | []]]; reflexivity.
    + exists w'. split; [exact Hrun|]. split; [exact Hlog|]. apply Hquiet. reflexivity.
Defined.

(** C3, as the claim has it, fails: over a directory without any supported
    image file [upload_directory] logs a warning and returns; no summary is
    written. *)
Lemma C3_no_summary_without_images :
  let '(r, w') :=
    ImageUploader.upload_directory Scenario.uploader [] "docs" true 1 100
      Scenario.no_images in
  r = inr tt
  /\ log w' = [Warning_no_images; Info_found 0 "docs"; Info_starting "docs" true 1]
  /\ existsb is_summary (log w') = false.
Proof. vm_compute. auto. Qed.

(** ** [process_and_upload_image] *)

(** No operation writes to the local files. *)
Lemma handle_files {X : Type} (o : op X) (w : world) :
  files (snd (handle o w)) = files w.
Proof.
  destruct o; simpl; unfold take_fault; try reflexivity.
  - destruct (faults w) as [|[e|] fs]; simpl; try destruct (bucket _ !! _); reflexivity.
  - destruct (faults w) as [|[e|] fs]; reflexivity.
  - destruct (files w !! path); reflexivity.
  - destruct (files w !! path); reflexivity.
Qed.

Lemma run_files {A : Type} (p : prog A) : forall w, files (snd (run p w)) = files w.
Proof.
  induction p as [a | e | X o k IH]; intros w; simpl; try reflexivity.
  pose proof (handle_files o w) as Hf.
  destruct (handle o w) as [x w']. rewrite IH. exact Hf.
Qed.

(** But for [Image.open], an operation cannot tell two worlds apart that
    differ in what Pillow decodes. *)
Lemma handle_same_but_images {X : Type} (o : op X) (w1 w2 : world) :
  is_pil_open o = false ->
  same_but_images w1 w2 ->
  fst (handle o w1) = fst (handle o w2)
  /\ same_but_images (snd (handle o w1)) (snd (handle o w2)).
Proof.
  intros Ho [-> Hbytes]. revert Hbytes. generalize (files w2) as fs. intros fs Hbytes.
  unfold same_but_images.
  destruct o; try discriminate Ho; simpl; unfold take_fault; simpl.
  - destruct (faults w1) as [|[e|] rest]; simpl; try destruct (bucket w1 !! Key);
      simpl; split_and!; done.
  - destruct (faults w1) as [|[e|] rest]; simpl; split_and!; done.
  - pose proof (Hbytes path) as Hp. simpl in Hp.
    destruct (files w1 !! path) as [f1|] eqn:E1; destruct (fs !! path) as [f2|] eqn:E2;
      rewrite ?E1, ?E2 in Hp; simpl in Hp; try discriminate Hp; simpl.
    + injection Hp as ->. split_and!; done.
    + split_and!; done.
  - split_and!; done.
  - split_and!; done.
  - split_and!; done.
  - split_and!; done.
  - split_and!; done.
  - split_and!; done.
Qed.

Lemma run_same_but_images {A : Type} (p : prog A) :
  no_pil_open p ->
  forall w1 w2 : world,
    same_but_images w1 w2 ->
    fst (run p w1) = fst (run p w2)
    /\ same_but_images (snd (run p w1)) (snd (run p w2)).
Proof.
  induction p as [a | e | X o k IH]; intros Hp w1 w2 Hw; simpl; auto.
  destruct Hp as [Ho Hk].
  destruct (handle_same_but_images o w1 w2 Ho Hw) as [Hx Hw'].
  destruct (handle o w1) as [x1 w1'], (handle o w2) as [x2 w2']. simpl in Hx, Hw'.
  subst x2. by apply IH.
Qed.

Lemma no_pil_open_bind {A B : Type} (p : prog A) (f : A -> prog B) :
  no_pil_open p -> (forall a, no_pil_open (f a)) -> no_pil_open (p ≫= f).
Proof.
  intros Hp Hf. induction p as [a | e | X o k IH]; simpl; auto.
  destruct Hp as [Ho Hk]. split; [exact Ho|]. intros x. by apply IH.
Qed.

Lemma no_pil_open_try_except {A : Type} (p : prog A) (h : Py.exn -> option (prog A)) :
  no_pil_open p -> (forall e q, h e = Some q -> no_pil_open q) ->
  no_pil_open (try_except p h).
Proof.
  intros Hp Hh. induction p as [a | e | X o k IH]; simpl; auto.
  - destruct (h e) as [q|] eqn:He; [by apply (Hh e) | exact I].
  - destruct Hp as [Ho Hk]. split; [exact Ho|]. intros x. by apply IH.
Qed.

Section Task.

Variable self : ImageUploader.t.

Lemma no_pil_open_file_exists (key : string) :
  no_pil_open (ImageUploader.file_exists_in_spaces self key).
Proof.
  unfold ImageUploader.file_exists_in_spaces. apply no_pil_open_try_except.
  - simpl. split; [reflexivity|]. intros [e|]; exact I.
  - intros e q. destruct (Py.is_ClientError e); [intros [= <-]; exact I | discriminate].
Qed.

Lemma no_pil_open_existence_checks (skip_existing : bool) (original_key thumbnail_key : string) :
  no_pil_open (ImageUploader.existence_checks self skip_existing original_key thumbnail_key).
Proof.
  unfold ImageUploader.existence_checks. destruct skip_existing; [|exact I].
  apply no_pil_open_bind; [apply no_pil_open_file_exists|]. intros oe.
  apply no_pil_open_bind; [apply no_pil_open_file_exists|]. intros te. exact I.
Qed.

Lemma no_pil_open_upload_file (data : file_data) (key content_type : string)
    (retry_count : Z) :
  no_pil_open (ImageUploader.upload_file self data key content_type retry_count).
Proof.
  unfold ImageUploader.upload_file. generalize 0 as attempt.
  induction (Z.to_nat retry_count) as [|remaining IH]; intros attempt; [exact I|].
  cbn [ImageUploader.upload_attempts].
  apply no_pil_open_bind.
  - apply no_pil_open_try_except.
    + apply no_pil_open_bind; [|intros; exact I].
      unfold ImageUploader.put_attempt. destruct data as [j | p].
      * simpl. split; [reflexivity|]. intros [e|]; exact I.
      * simpl. split; [reflexivity|]. intros [e | bytes]; simpl; [exact I|].
        split; [reflexivity|]. intros [e|]; exact I.
    + intros e q. destruct (Py.is_ClientError e).
      * destruct (attempt <? retry_count - 1); intros [= <-]; simpl; auto.
      * intros [= <-]; simpl; auto.
  - intros [b|]; [exact I | apply IH].
Qed.

(** An existence check sends one [head_object]. *)
Lemma file_exists_calls (key : string) (w : world) :
  calls (snd (run (ImageUploader.file_exists_in_spaces self key) w)) = Head key :: calls w.
Proof.
  rewrite run_file_exists_in_spaces, handle_head. cbv zeta.
  assert (Hc : calls (snd (take_fault w)) = calls w).
  { unfold take_fault. destruct (faults w); reflexivity. }
  destruct (fst (take_fault w)) as [e|]; [destruct (Py.is_ClientError e) |
    destruct (bucket w !! key)]; simpl; by rewrite Hc.
Qed.

(** The existence checks send no [put_object]. *)
Lemma existence_checks_calls (skip_existing : bool) (original_key thumbnail_key : string)
    (w : world) :
  exists new,
    calls (snd (run (ImageUploader.existence_checks self skip_existing original_key
                       thumbnail_key) w)) = new ++ calls w
    /\ puts new = [].
Proof.
  unfold ImageUploader.existence_checks. destruct skip_existing; [|by exists []].
  rewrite run_bind.
  pose proof (file_exists_calls original_key w) as H1.
  destruct (run (ImageUploader.file_exists_in_spaces self original_key) w)
    as [[e | oe] w1]; simpl in H1.
  - exists [Head original_key]. simpl. auto.
  - rewrite run_bind.
    pose proof (file_exists_calls thumbnail_key w1) as H2.
    destruct (run (ImageUploader.file_exists_in_spaces self thumbnail_key) w1)
      as [[e | te] w2]; simpl in H2 |- *;
      exists [Head thumbnail_key; Head original_key]; rewrite H2, H1; auto.
Qed.

End Task.

Section ThumbnailFailure.

Variable self : ImageUploader.t.
Variable image_path : Path.t.

Lemma run_create_thumbnail_returns (w : world) :
  exists r w',
    run (ImageUploader.create_thumbnail image_path) w = (inr r, w')
    /\ calls w' = calls w.
Proof.
  unfold ImageUploader.create_thumbnail.
  rewrite run_try_except, run_bind, run_perform. simpl.
  destruct (files w !! Path.str image_path) as [f|]; simpl; [|eauto].
  rewrite run_bind, run_lift. destruct (file_image f) as [e | img]; [simpl; eauto|].
  rewrite run_bind, run_lift.
  destruct (ImageUploader.render_thumbnail img) as [e | thumbnail]; simpl; eauto.
Qed.

Lemma run_create_thumbnail_fails (w : world) :
  generation_fails image_path w ->
  exists w',
    run (ImageUploader.create_thumbnail image_path) w = (inr None, w')
    /\ calls w' = calls w.
Proof.
  unfold generation_fails, ImageUploader.create_thumbnail.
  rewrite run_try_except, run_bind, run_perform. simpl.
  destruct (files w !! Path.str image_path) as [f|]; simpl; [|eauto].
  rewrite run_bind, run_lift. destruct (file_image f) as [e | img]; [simpl; eauto|].
  rewrite run_bind, run_lift.
  destruct (ImageUploader.render_thumbnail img) as [e | thumbnail]; simpl; [eauto|].
  intros [].
Qed.

Lemma run_upload_file_returns (data : file_data) (key content_type : string) (w : world) :
  exists b w' new,
    run (ImageUploader.upload_file self data key content_type 3) w = (inr b, w')
    /\ calls w' = new ++ calls w
    /\ Forall (fun c => c = Put key) new.
Proof.
  destruct (upload_attempts_bounded self data key content_type 3 (Z.to_nat 3) 0 w)
    as (b & w' & new & Hrun & Hc & _ & Hf & _).
  exists b, w', new. auto.
Qed.

Lemma run_upload_original (original_key : string) (skip_existing original_exists : bool)
    (w : world) :
  exists b w' new,
    run (ImageUploader.upload_original self image_path original_key skip_existing
           original_exists) w = (inr b, w')
    /\ calls w' = new ++ calls w
    /\ Forall (fun c => c = Put original_key) new.
Proof.
  unfold ImageUploader.upload_original.
  destruct (negb skip_existing || negb original_exists).
  - apply run_upload_file_returns.
  - exists true, w, []. simpl. auto.
Qed.

Lemma no_pil_open_upload_original (original_key : string)
    (skip_existing original_exists : bool) :
  no_pil_open (ImageUploader.upload_original self image_path original_key skip_existing
                 original_exists).
Proof.
  unfold ImageUploader.upload_original.
  destruct (negb skip_existing || negb original_exists); [|exact I].
  apply no_pil_open_upload_file.
Qed.

Lemma run_upload_thumbnail_returns (relative_path : list string) (thumbnail_key : string)
    (skip_existing thumbnail_exists : bool) (w : world) :
  exists b w',
    run (ImageUploader.upload_thumbnail self image_path relative_path thumbnail_key
           skip_existing thumbnail_exists) w = (inr b, w').
Proof.
  unfold ImageUploader.upload_thumbnail.
  destruct (negb skip_existing || negb thumbnail_exists); [|simpl; eauto].
  rewrite run_bind.
  destruct (run_create_thumbnail_returns w) as ([data|] & w1 & -> & _).
  - destruct (run_upload_file_returns (BytesIO data) thumbnail_key "image/jpeg" w1)
      as (b & w' & new & -> & _). eauto.
  - simpl. eauto.
Qed.

(** When the thumbnail cannot be made, nothing is sent for it. *)
Lemma run_upload_thumbnail_fails (relative_path : list string) (thumbnail_key : string)
    (skip_existing thumbnail_exists : bool) (w : world) :
  negb skip_existing || negb thumbnail_exists = true ->
  generation_fails image_path w ->
  exists w',
    run (ImageUploader.upload_thumbnail self image_path relative_path thumbnail_key
           skip_existing thumbnail_exists) w = (inr false, w')
    /\ calls w' = calls w.
Proof.
  intros Hguard Hfail. unfold ImageUploader.upload_thumbnail.
  rewrite Hguard, run_bind.
  destruct (run_create_thumbnail_fails w Hfail) as (w1 & -> & Hc).
  simpl. eauto.
Qed.

Lemma append_inj_l (p a b : string) : p +:+ a = p +:+ b -> a = b.
Proof.
  induction p as [|c p IH]; simpl; [auto|]. intros [= H]. by apply IH.
Qed.

(** The two keys of a file are never the same. *)
Lemma keys_differ (relative_path : list string) :
  ImageUploader.original_key_of self relative_path
  <> ImageUploader.thumbnail_key_of self relative_path.
Proof.
  unfold ImageUploader.original_key_of, ImageUploader.thumbnail_key_of.
  intros H. apply append_inj_l in H. discriminate H.
Qed.

End ThumbnailFailure.

(** C8: when the existence checks return and leave the thumbnail to be
    made, and thumbnail generation fails, [process_and_upload_image] sends
    no put for the thumbnail key and reports [thumbnail_success = False];
    its [original_success] is the one it reports in a world that differs
    only in what Pillow decodes, where generation may succeed. *)
Theorem C8_thumbnail_failure_leaves_original
    (self : ImageUploader.t) (image_path : Path.t) (base_dir : string)
    (skip_existing : bool) (w w_ok w1 : world)
    (original_exists thumbnail_exists : bool) :
  let original_key := ImageUploader.original_key_of self (Path.parts image_path) in
  let thumbnail_key := ImageUploader.thumbnail_key_of self (Path.parts image_path) in
  Path.root image_path = base_dir ->
  run (ImageUploader.existence_checks self skip_existing original_key thumbnail_key) w
    = (inr (original_exists, thumbnail_exists), w1) ->
  negb skip_existing || negb thumbnail_exists = true ->
  generation_fails image_path w ->
  same_but_images w w_ok ->
  exists (original_success : bool) (w' : world) (new : list call),
    run (ImageUploader.process_and_upload_image self image_path base_dir skip_existing) w
      = (inr (original_success, false), w')
    /\ calls w' = new ++ calls w
    /\ ~ In (Put thumbnail_key) new
    /\ exists (thumbnail_success : bool) (w_ok' : world),
         run (ImageUploader.process_and_upload_image self image_path base_dir
                skip_existing) w_ok
           = (inr (original_success, thumbnail_success), w_ok').
Proof.
  intros original_key thumbnail_key Hroot Hchecks Hguard Hfail Hsame.
  assert (Hskip : skip_existing && (original_exists && thumbnail_exists) = false).
  { destruct skip_existing, original_exists, thumbnail_exists; simpl in *; congruence. }
  (* the checks *)
  destruct (existence_checks_calls self skip_existing original_key thumbnail_key w)
    as (new1 & Hcalls1 & Hputs1).
  pose proof (run_files (ImageUploader.existence_checks self skip_existing original_key
                           thumbnail_key) w) as Hfiles1.
  destruct (run_same_but_images _
              (no_pil_open_existence_checks self skip_existing original_key thumbnail_key)
              w w_ok Hsame) as [Hr1 Hsame1].
  rewrite Hchecks in Hcalls1, Hfiles1, Hr1, Hsame1. simpl in Hcalls1, Hfiles1, Hr1, Hsame1.
  destruct (run (ImageUploader.existence_checks self skip_existing original_key
                   thumbnail_key) w_ok) as [r1_ok w1_ok] eqn:Hchecks_ok.
  simpl in Hr1, Hsame1. subst r1_ok.
  (* the original *)
  destruct (run_upload_original self image_path original_key skip_existing
              original_exists w1) as (original_success & w2 & new2 & Horig & Hcalls2 & Hputs2).
  pose proof (run_files (ImageUploader.upload_original self image_path original_key
                           skip_existing original_exists) w1) as Hfiles2.
  destruct (run_same_but_images _
              (no_pil_open_upload_original self image_path original_key skip_existing
                 original_exists) w1 w1_ok Hsame1) as [Hr2 Hsame2].
  rewrite Horig in Hfiles2, Hr2, Hsame2. simpl in Hfiles2, Hr2, Hsame2.
  destruct (run (ImageUploader.upload_original self image_path original_key
                   skip_existing original_exists) w1_ok) as [r2_ok w2_ok] eqn:Horig_ok.
  simpl in Hr2, Hsame2. subst r2_ok.
  (* the thumbnail *)
  assert (Hfail2 : generation_fails image_path w2).
  { unfold generation_fails in *. by rewrite Hfiles2, Hfiles1. }
  destruct (run_upload_thumbnail_fails self image_path (Path.parts image_path)
              thumbnail_key skip_existing thumbnail_exists w2 Hguard Hfail2)
    as (w3 & Hthumb & Hcalls3).
  destruct (run_upload_thumbnail_returns self image_path (Path.parts image_path)
              thumbnail_key skip_existing thumbnail_exists w2_ok)
    as (thumbnail_success & w3_ok & Hthumb_ok).
  assert (Hrel : Path.relative_to image_path base_dir = inr (Path.parts image_path)).
  { unfold Path.relative_to. by rewrite Hroot, String.eqb_refl. }
  exists original_success, w3, (new2 ++ new1). split_and!.
  - unfold ImageUploader.process_and_upload_image.
    rewrite run_bind, run_lift, Hrel, run_bind.
    fold original_key thumbnail_key. rewrite Hchecks, Hskip.
    rewrite run_bind, Horig, run_bind, Hthumb. reflexivity.
  - rewrite Hcalls3, Hcalls2, Hcalls1. by rewrite app_assoc.
  - intros Hin. apply in_app_or in Hin as [Hin | Hin].
    + rewrite Forall_forall in Hputs2.
      apply (proj2 (list_elem_of_In _ _)) in Hin. apply Hputs2 in Hin.
      injection Hin as Hin. symmetry in Hin. by apply keys_differ in Hin.
    + assert (Hp : In (Put thumbnail_key) (puts new1)).
      { apply filter_In. auto. }
      rewrite Hputs1 in Hp. destruct Hp.
  - exists thumbnail_success, w3_ok.
    unfold ImageUploader.process_and_upload_image.
    rewrite run_bind, run_lift, Hrel, run_bind.
    fold original_key thumbnail_key. rewrite Hchecks_ok, Hskip.
    rewrite run_bind, Horig_ok, run_bind, Hthumb_ok. reflexivity.
Qed.

Lemma C8_witness :
  exists (original_success : bool) (w' : world) (new : list call),
    run (ImageUploader.process_and_upload_image Scenario.uploader Scenario.a_png "imgs"
           false) Scenario.corrupt
      = (inr (original_success, false), w')
    /\ calls w' = new ++ calls Scenario.corrupt
    /\ ~ In (Put "avatar/thumbnail/a.png") new
    /\ exists (thumbnail_success : bool) (w_ok' : world),
         run (ImageUploader.process_and_upload_image Scenario.uploader Scenario.a_png
                "imgs" false) Scenario.intact
           = (inr (original_success, thumbnail_success), w_ok').
Proof.
  apply (C8_thumbnail_failure_leaves_original Scenario.uploader Scenario.a_png "imgs" false
           Scenario.corrupt Scenario.intact Scenario.corrupt false false).
  - reflexivity.
  - reflexivity.
  - reflexivity.
  - vm_compute. exact I.
  - split; [reflexivity|]. intros path. unfold Scenario.corrupt, Scenario.intact. simpl.
    destruct (decide (path = "imgs/a.png")) as [-> | Hne].
    + rewrite !lookup_singleton_eq. reflexivity.
    + rewrite !lookup_singleton_ne by done. reflexivity.
Defined.

(** In the scenario the original of the corrupt file is uploaded all the
    same, and the file is reported as (True, False). *)
Example process_corrupt_image :
  let '(r, w') :=
    run (ImageUploader.process_and_upload_image Scenario.uploader Scenario.a_png "imgs"
           false) Scenario.corrupt in
  r = inr (true, false) /\ calls w' = [Put "avatar/original/a.png"].
Proof. vm_compute. auto. Qed.

(** ** The statistics *)

(** C1 fails on the code: a file whose two objects are in the bucket is
    counted as skipped by [process_and_upload_image], which returns
    (True, True), and then as successful by the caller. With one such file
    the counters end at 1 successful, 0 failed and 1 skipped for 1 file in
    total, on the sequential path and in the pool alike. *)
Theorem C1_skipped_file_counted_twice :
  let sequential :=
    the_stats (snd (ImageUploader.upload_directory Scenario.uploader [] "imgs" true 1 100
                      Scenario.one_present)) in
  let pooled :=
    the_stats (snd (ImageUploader.upload_directory Scenario.uploader [0; 0; 0]%nat "imgs"
                      true 4 100 Scenario.one_present)) in
  sequential = mk_stats 1 1 0 1
  /\ pooled = mk_stats 1 1 0 1
  /\ successful_uploads sequential + failed_uploads sequential + skipped_files sequential
     <> total_files sequential.
Proof. vm_compute. split_and!; [reflexivity | reflexivity | discriminate]. Qed.

(** C2 fails on the code: the rerun of the scenario over the bucket the
    first run filled sends no put and leaves the bucket as it was, and it
    counts the three files as skipped; but it counts them as successful
    too, so that [successful_uploads] ends at 3, not 0. *)
Theorem C2_rerun_counts_skipped_as_successful :
  let w' :=
    snd (ImageUploader.upload_directory Scenario.uploader [] "imgs" true 1 100
           Scenario.rerun) in
  the_stats w' = mk_stats 3 3 0 3
  /\ puts (calls w') = []
  /\ bucket w' = bucket Scenario.rerun.
Proof.
  cbv zeta. split_and!.
  - vm_compute. reflexivity.
  - vm_compute. reflexivity.
  - apply (bool_decide_eq_true_1 (bucket _ = bucket _)). vm_compute. reflexivity.
Qed.

(** The first run of the scenario: six objects written, three successes. *)
Example first_run_uploads_everything :
  let '(r, w') :=
    ImageUploader.upload_directory Scenario.uploader [] "imgs" false 1 100
      Scenario.first_run in
  r = inr tt
  /\ the_stats w' = mk_stats 3 3 0 0
  /\ length (puts (calls w')) = 6%nat
  /\ size (bucket w') = 6%nat.
Proof. vm_compute. split_and!; reflexivity. Qed.

(** * Further properties *)

(** ** Programs made of operations of one class *)

Lemma all_ops_bind (P : forall X : Type, op X -> bool) {A B : Type}
    (p : prog A) (f : A -> prog B) :
  all_ops P p -> (forall a, all_ops P (f a)) -> all_ops P (p ≫= f).
Proof.
  intros Hp Hf. induction p as [a | e | X o k IH]; simpl; auto.
  destruct Hp as [Ho Hk]. split; [exact Ho|]. intros x. by apply IH.
Qed.

Lemma all_ops_try_except (P : forall X : Type, op X -> bool) {A : Type}
    (p : prog A) (h : Py.exn -> option (prog A)) :
  all_ops P p -> (forall e q, h e = Some q -> all_ops P q) ->
  all_ops P (try_except p h).
Proof.
  intros Hp Hh. induction p as [a | e | X o k IH]; simpl; auto.
  - destruct (h e) as [q|] eqn:He; [by apply (Hh e) | exact I].
  - destruct Hp as [Ho Hk]. split; [exact Ho|]. intros x. by apply IH.
Qed.

(** What the operations of the class [is_io] leave alone. *)
Lemma handle_io {X : Type} (o : op X) (w : world) :
  is_io o = true ->
  the_stats (snd (handle o w)) = the_stats w
  /\ dirs (snd (handle o w)) = dirs w
  /\ files (snd (handle o w)) = files w.
Proof.
  destruct o; try discriminate; intros _; simpl; unfold take_fault.
  - destruct (faults w) as [|[e|] fs]; simpl; try destruct (bucket _ !! _); auto.
  - destruct (faults w) as [|[e|] fs]; auto.
  - destruct (files w !! path); auto.
  - destruct (files w !! path); auto.
  - auto.
Qed.


Section IoPrograms.

Variable self : ImageUploader.t.

Lemma io_file_exists (key : string) :
  all_ops (@is_io) (ImageUploader.file_exists_in_spaces self key).
Proof.
  unfold ImageUploader.file_exists_in_spaces. apply all_ops_try_except.
  - simpl. split; [reflexivity|]. intros [e|]; exact I.
  - intros e q. destruct (Py.is_ClientError e); [intros [= <-]; exact I | discriminate].
Qed.

Lemma io_existence_checks (skip_existing : bool) (original_key thumbnail_key : string) :
  all_ops (@is_io)
    (ImageUploader.existence_checks self skip_existing original_key thumbnail_key).
Proof.
  unfold ImageUploader.existence_checks. destruct skip_existing; [|exact I].
  apply all_ops_bind; [apply io_file_exists|]. intros oe.
  apply all_ops_bind; [apply io_file_exists|]. intros te. exact I.
Qed.

Lemma io_upload_file (data : file_data) (key content_type : string) (retry_count : Z) :
  all_ops (@is_io) (ImageUploader.upload_file self data key content_type retry_count).
Proof.
  unfold ImageUploader.upload_file. generalize 0 as attempt.
  induction (Z.to_nat retry_count) as [|remaining IH]; intros attempt; [exact I|].
  cbn [ImageUploader.upload_attempts].
  apply all_ops_bind.
  - apply all_ops_try_except.
    + apply all_ops_bind; [|intros; exact I].
      unfold ImageUploader.put_attempt. destruct data as [j | p].
      * simpl. split; [reflexivity|]. intros [e|]; exact I.
      * simpl. split; [reflexivity|]. intros [e | bytes]; simpl; [exact I|].
        split; [reflexivity|]. intros [e|]; exact I.
    + intros e q. destruct (Py.is_ClientError e).
      * destruct (attempt <? retry_count - 1); intros [= <-]; simpl; auto.
      * intros [= <-]; simpl; auto.
  - intros [b|]; [exact I | apply IH].
Qed.

Lemma io_create_thumbnail (image_path : Path.t) :
  all_ops (@is_io) (ImageUploader.create_thumbnail image_path).
Proof.
  unfold ImageUploader.create_thumbnail. apply all_ops_try_except.
  - simpl. split; [reflexivity|]. intros [e | img]; simpl; [exact I|].
    destruct (ImageUploader.render_thumbnail img); exact I.
  - intros e q [= <-]. simpl. auto.
Qed.

Lemma io_upload_original (image_path : Path.t) (original_key : string)
    (skip_existing original_exists : bool) :
  all_ops (@is_io)
    (ImageUploader.upload_original self image_path original_key skip_existing
       original_exists).
Proof.
  unfold ImageUploader.upload_original.
  destruct (negb skip_existing || negb original_exists); [|exact I].
  apply io_upload_file.
Qed.

Lemma io_upload_thumbnail (image_path : Path.t) (relative_path : list string)
    (thumbnail_key : string) (skip_existing thumbnail_exists : bool) :
  all_ops (@is_io)
    (ImageUploader.upload_thumbnail self image_path relative_path thumbnail_key
       skip_existing thumbnail_exists).
Proof.
  unfold ImageUploader.upload_thumbnail.
  destruct (negb skip_existing || negb thumbnail_exists); [|exact I].
  apply all_ops_bind; [apply io_create_thumbnail|].
  intros [data|]; [apply io_upload_file | simpl; auto].
Qed.

End IoPrograms.

(** ** The statistics of a run *)

Lemma io_not_skip {X : Type} (o : op X) : is_io o = true -> is_skip o = false.
Proof. destruct o; try discriminate; reflexivity. Qed.

Lemma task_shape_bind {A : Type} (p : prog A) (f : A -> prog (bool * bool)) :
  all_ops (@is_io) p -> (forall a, task_shape (f a)) -> task_shape (p ≫= f).
Proof.
  intros Hp Hf. induction p as [a | e | X o k IH]; simpl; auto.
  destruct Hp as [Ho Hk]. rewrite (io_not_skip o Ho).
  split; [exact Ho|]. intros x. by apply IH.
Qed.

(** A call of [process_and_upload_image] has the shape of a task. *)
Lemma task_shape_process (self : ImageUploader.t) (image_path : Path.t)
    (base_dir : string) (skip_existing : bool) :
  task_shape (ImageUploader.process_and_upload_image self image_path base_dir
                skip_existing).
Proof.
  unfold ImageUploader.process_and_upload_image.
  destruct (Path.relative_to image_path base_dir) as [e | relative_path]; [exact I|].
  simpl lift. change (task_shape
    ('(original_exists, thumbnail_exists) ←
       ImageUploader.existence_checks self skip_existing
         (ImageUploader.original_key_of self relative_path)
         (ImageUploader.thumbnail_key_of self relative_path);
     if skip_existing && (original_exists && thumbnail_exists) then
       perform (stats_incr Skipped);; Ret (true, true)
     else
       original_success ←
         ImageUploader.upload_original self image_path
           (ImageUploader.original_key_of self relative_path) skip_existing
           original_exists;
       thumbnail_success ←
         ImageUploader.upload_thumbnail self image_path relative_path
           (ImageUploader.thumbnail_key_of self relative_path) skip_existing
           thumbnail_exists;
       Ret (original_success, thumbnail_success))).
  apply task_shape_bind; [apply io_existence_checks|].
  intros [original_exists thumbnail_exists].
  destruct (skip_existing && (original_exists && thumbnail_exists)).
  - simpl. intros []. reflexivity.
  - apply task_shape_bind; [apply io_upload_original|]. intros original_success.
    apply task_shape_bind; [apply io_upload_thumbnail|]. intros thumbnail_success.
    exact I.
Qed.

(** A task leaves the counters of successes and failures and the total
    alone; it counts a skipped file at most once, and then returns
    (True, True). *)
Lemma task_shape_run (p : prog (bool * bool)) :
  task_shape p ->
  forall w,
    the_stats (snd (run p w)) = the_stats w
    \/ (the_stats (snd (run p w)) = incr Skipped (the_stats w)
        /\ fst (run p w) = inr (true, true)).
Proof.
  induction p as [a | e | X o k IH]; intros Hp w; simpl in Hp |- *; auto.
  destruct (is_skip o) eqn:Hskip.
  - destruct o; try discriminate Hskip. destruct c; try discriminate Hskip.
    simpl. rewrite (Hp tt). simpl. auto.
  - destruct Hp as [Ho Hk]. pose proof (handle_io o w Ho) as (Hs & _).
    destruct (handle o w) as [x w1]. simpl in Hs. rewrite <- Hs. by apply IH.
Qed.

(** Collecting a future counts the file once, as successful when the
    outcome is (True, True) and as failed otherwise. *)
Lemma complete_stats (image_path : Path.t) (r : Py.exn + bool * bool) (w : world) :
  the_stats (snd (run (ImageUploader.complete image_path r) w))
  = incr match r with inr (true, true) => Successful | _ => Failed end (the_stats w).
Proof.
  destruct r as [e | [[] []]]; reflexivity.
Qed.

Lemma complete_returns (image_path : Path.t) (r : Py.exn + bool * bool) (w : world) :
  fst (run (ImageUploader.complete image_path r) w) = inr tt.
Proof.
  destruct r as [e | [[] []]]; reflexivity.
Qed.

(** The body of the sequential loop is the task followed by the collection
    of its outcome. *)
Lemma run_task_then_complete (image_path : Path.t) (p : prog (bool * bool)) (w : world) :
  run (try_except
         (outcome ← p; ImageUploader.count_outcome image_path outcome)
         (fun e => Some (ImageUploader.count_error image_path e))) w
  = run (ImageUploader.complete image_path (fst (run p w))) (snd (run p w)).
Proof.
  rewrite run_try_except, run_bind. unfold ImageUploader.complete.
  rewrite run_try_except, run_bind, run_lift.
  destruct (run p w) as [[e | outcome] w1]; simpl; [reflexivity|].
  destruct outcome as [[] []]; reflexivity.
Qed.

Lemma finish_eq (w : world) (tk : ImageUploader.task) :
  ImageUploader.finish w tk
  = snd (run (ImageUploader.complete (fst tk) (fst (run (snd tk) w))) (snd (run (snd tk) w))).
Proof.
  unfold ImageUploader.finish. destruct (run (snd tk) w); reflexivity.
Qed.

(** A fresh task run to its end and collected accounts for one file. *)
Lemma finish_accounted (w : world) (tk : ImageUploader.task) :
  task_shape (snd tk) ->
  accounted 1 (the_stats w) (the_stats (ImageUploader.finish w tk)).
Proof.
  intros Hshape. rewrite finish_eq, complete_stats.
  destruct (task_shape_run (snd tk) Hshape w) as [-> | [-> ->]].
  - destruct (the_stats w) as [T Sc F K]. unfold accounted, processed.
    destruct (fst (run (snd tk) w)) as [e | [[] []]]; simpl; lia.
  - destruct (the_stats w) as [T Sc F K]. unfold accounted, processed. simpl. lia.
Qed.

Lemma accounted_trans (n m : Z) (s1 s2 s3 : stats) :
  accounted n s1 s2 -> accounted m s2 s3 -> accounted (n + m) s1 s3.
Proof. unfold accounted. lia. Qed.

Lemma accounted_refl (s : stats) : accounted 0 s s.
Proof. unfold accounted. lia. Qed.

Section SequentialStats.

Variable self : ImageUploader.t.
Variables (base_dir : string) (skip_existing : bool).

Lemma upload_sequential_accounted (image_files : list Path.t) :
  forall w,
    accounted (Z.of_nat (length image_files)) (the_stats w)
      (the_stats (snd (run (ImageUploader._upload_sequential self image_files base_dir
                             skip_existing) w))).
Proof.
  induction image_files as [|image_path rest IH]; intros w.
  - apply accounted_refl.
  - cbn [ImageUploader._upload_sequential]. rewrite run_bind, run_task_then_complete.
    pose proof (finish_accounted w
                  (image_path,
                   ImageUploader.process_and_upload_image self image_path base_dir
                     skip_existing)
                  (task_shape_process self image_path base_dir skip_existing)) as H1.
    rewrite finish_eq in H1. simpl fst in H1. simpl snd in H1.
    pose proof (complete_returns image_path
                  (fst (run (ImageUploader.process_and_upload_image self image_path
                               base_dir skip_existing) w))
                  (snd (run (ImageUploader.process_and_upload_image self image_path
                               base_dir skip_existing) w))) as Hret.
    destruct (run (ImageUploader.complete image_path _) _) as [r w1].
    simpl in Hret, H1. subst r.
    replace (Z.of_nat (length (image_path :: rest)))
      with (1 + Z.of_nat (length rest)) by (simpl length; lia).
    eapply accounted_trans; [exact H1 | apply IH].
Qed.

End SequentialStats.

(** *** The pool *)

Lemma ready_middle (l r : list ImageUploader.task) (tk : ImageUploader.task) :
  ready (l ++ tk :: r) = (ready l + (if is_done_ok tk then 1 else 0) + ready r)%nat.
Proof.
  unfold ready, ImageUploader.task in *. rewrite List.filter_app, length_app. simpl.
  destruct (is_done_ok tk); simpl; lia.
Qed.

Lemma ready_app (l r : list ImageUploader.task) : ready (l ++ r) = (ready l + ready r)%nat.
Proof. unfold ready. by rewrite List.filter_app, length_app. Qed.

Lemma pool_inv_step (s : stats) (n : Z) (i : nat) (tasks : list ImageUploader.task)
    (w : world) :
  pool_inv s n tasks w ->
  pool_inv s n (fst (ImageUploader.step_pool i tasks w))
    (snd (ImageUploader.step_pool i tasks w)).
Proof.
  intros Hinv. unfold ImageUploader.step_pool, ImageUploader.task in *.
  destruct (tasks !! i) as [[image_path p]|] eqn:Hi; [|exact Hinv].
  pose proof (take_drop_middle tasks i _ Hi) as Hsplit.
  pose proof (lookup_lt_Some _ _ _ Hi) as Hlt.
  destruct Hinv as (Hshape & Htotal & Hproc & Hs & Hf & Hk & Hready).
  rewrite <- Hsplit in Hshape, Hproc, Hready.
  rewrite Forall_app, Forall_cons in Hshape. destruct Hshape as (HL & Hp & HR).
  rewrite ready_middle in Hready. rewrite length_app in Hproc. simpl in Hproc, Hp.
  destruct p as [outcome | e | X o k].
  - (* the future holds an outcome *)
    cbn [fst snd]. rewrite delete_take_drop.
    unfold pool_inv. rewrite complete_stats, Forall_app, ready_app, length_app.
    unfold is_done_ok in Hready. simpl in Hready.
    destruct (the_stats w) as [T Sc F K]. unfold processed in *. simpl in *.
    destruct outcome as [[] []]; simpl; split_and!; auto; lia.
  - (* the future holds an exception *)
    cbn [fst snd]. rewrite delete_take_drop.
    unfold pool_inv. rewrite complete_stats, Forall_app, ready_app, length_app.
    unfold is_done_ok in Hready. simpl in Hready.
    destruct (the_stats w) as [T Sc F K]. unfold processed in *. simpl in *.
    split_and!; auto; lia.
  - (* the task performs its next operation *)
    unfold is_done_ok in Hready. simpl in Hready.
    destruct (is_skip o) eqn:Hskip.
    + destruct o; try discriminate Hskip. destruct c; try discriminate Hskip.
      cbn [task_shape is_skip] in Hp.
      simpl. rewrite insert_take_drop by exact Hlt. rewrite (Hp tt).
      unfold pool_inv. rewrite Forall_app, Forall_cons, ready_middle, length_app.
      unfold is_done_ok. simpl.
      destruct (the_stats w) as [T Sc F K]. unfold processed in *. simpl in *.
      split_and!; auto; lia.
    + cbn [task_shape] in Hp. rewrite Hskip in Hp.
      destruct Hp as [Ho Hk']. pose proof (handle_io o w Ho) as (Hst & _).
      destruct (handle o w) as [x w1]. simpl in Hst. cbn [fst snd].
      rewrite insert_take_drop by exact Hlt.
      unfold pool_inv. rewrite Forall_app, Forall_cons, ready_middle, length_app, Hst.
      simpl. split_and!; auto; lia.
Qed.

Lemma pool_inv_finish (s : stats) (n : Z) (tk : ImageUploader.task)
    (tasks : list ImageUploader.task) (w : world) :
  pool_inv s n (tk :: tasks) w -> pool_inv s n tasks (ImageUploader.finish w tk).
Proof.
  unfold ImageUploader.task in *.
  intros (Hshape & Htotal & Hproc & Hs & Hf & Hk & Hready).
  rewrite Forall_cons in Hshape. destruct Hshape as [Hp Hshape].
  change (tk :: tasks) with ([] ++ tk :: tasks) in Hready.
  rewrite ready_middle in Hready. simpl in Hready, Hproc.
  unfold pool_inv. rewrite finish_eq, complete_stats.
  assert (Hdone : is_done_ok tk = true -> run (snd tk) w = (inr (true, true), w)).
  { unfold is_done_ok. destruct (snd tk) as [[[] []] | |]; try discriminate. reflexivity. }
  destruct (task_shape_run (snd tk) Hp w) as [Hsame | [Hskip Hres]].
  - rewrite Hsame.
    destruct (is_done_ok tk) eqn:Hd.
    + rewrite (Hdone eq_refl). simpl.
      destruct (the_stats w) as [T Sc F K]. unfold processed in *. simpl in *.
      split_and!; auto; lia.
    + destruct (the_stats w) as [T Sc F K]. unfold processed in *. simpl in *.
      destruct (fst (run (snd tk) w)) as [e | [[] []]]; simpl; split_and!; auto; lia.
  - rewrite Hskip, Hres.
    destruct (is_done_ok tk) eqn:Hd.
    + rewrite (Hdone eq_refl) in Hskip. simpl in Hskip.
      destruct (the_stats w) as [T Sc F K]. simpl in Hskip. injection Hskip. lia.
    + destruct (the_stats w) as [T Sc F K]. unfold processed in *. simpl in *.
      split_and!; auto; lia.
Qed.

Lemma pool_inv_drain (s : stats) (n : Z) (tasks : list ImageUploader.task) :
  forall w, pool_inv s n tasks w -> pool_inv s n [] (foldl ImageUploader.finish w tasks).
Proof.
  induction tasks as [|tk tasks IH]; intros w Hinv; [exact Hinv|].
  simpl. apply IH. by apply pool_inv_finish.
Qed.

(** Whatever the schedule, the pool ends with every task collected. *)
Lemma pool_inv_run (s : stats) (n : Z) (workers : nat) (schedule : list nat) :
  forall (tasks : list ImageUploader.task) (w : world),
    pool_inv s n tasks w ->
    pool_inv s n [] (snd (ImageUploader.run_pool schedule workers tasks w)).
Proof.
  induction schedule as [|choice schedule' IH]; intros tasks w Hinv.
  - simpl. by apply pool_inv_drain.
  - cbn [ImageUploader.run_pool]. destruct tasks as [|tk tasks']; [exact Hinv|].
    cbv zeta.
    pose proof (pool_inv_step s n
                  (choice mod Nat.min workers (length (tk :: tasks')))%nat
                  (tk :: tasks') w Hinv) as Hstep.
    destruct (ImageUploader.step_pool _ (tk :: tasks') w) as [tasks1 w1].
    by apply IH.
Qed.

(** A pool started on a batch accounts for every file of the batch. *)
Lemma run_pool_accounted (self : ImageUploader.t) (base_dir : string)
    (skip_existing : bool) (workers : nat) (schedule : list nat) (batch : list Path.t)
    (w : world) :
  accounted (Z.of_nat (length batch)) (the_stats w)
    (the_stats
       (snd (ImageUploader.run_pool schedule workers
               (List.map
                  (fun image_path =>
                     (image_path,
                      ImageUploader.process_and_upload_image self image_path base_dir
                        skip_existing)) batch) w))).
Proof.
  set (tasks := List.map _ batch).
  assert (Hinv : pool_inv (the_stats w) (Z.of_nat (length batch)) tasks w).
  { unfold pool_inv. split_and!; try lia.
    - subst tasks. apply Forall_forall. intros tk Hin.
      apply (proj1 (list_elem_of_In _ _)) in Hin.
      apply in_map_iff in Hin as (image_path & <- & _). apply task_shape_process.
    - subst tasks. rewrite length_map. lia. }
  pose proof (pool_inv_run _ _ workers schedule tasks w Hinv)
    as (_ & Htotal & Hproc & Hs & Hf & Hk & Hready).
  unfold ready in Hready. simpl in Hready, Hproc. unfold accounted. lia.
Qed.

(** *** The batches *)

(** A batch is the next [batch_size] files, or what is left of them. *)
Lemma batch_at_take (image_files : list Path.t) (batch_size batch_start : Z) :
  0 <= batch_start -> 1 <= batch_size ->
  batch_at image_files batch_size batch_start
  = take (Z.to_nat batch_size) (drop (Z.to_nat batch_start) image_files).
Proof.
  intros Hstart Hsize. unfold batch_at. cbv zeta.
  destruct (Z.le_gt_cases (batch_start + batch_size) (Z.of_nat (length image_files)))
    as [Hin | Hout].
  - rewrite Z.min_l by lia. f_equal. lia.
  - rewrite Z.min_r by lia.
    rewrite (take_ge (drop _ _) (Z.to_nat batch_size)) by (rewrite length_drop; lia).
    apply take_ge. rewrite length_drop. lia.
Qed.

Lemma concat_batches (image_files : list Path.t) (b : nat) (k : nat) :
  concat (List.map (fun i => take b (drop (i * b) image_files)) (seq 0 k))
  = take (k * b) image_files.
Proof.
  induction k as [|k IH]; [reflexivity|].
  rewrite seq_S, List.map_app, concat_app, IH. simpl.
  rewrite app_nil_r, take_take_drop. f_equal. lia.
Qed.

Lemma batches_concat (image_files : list Path.t) (batch_size : Z) :
  1 <= batch_size ->
  concat (List.map (batch_at image_files batch_size)
            (ImageUploader.range0 (Z.of_nat (length image_files)) batch_size))
  = image_files.
Proof.
  intros Hsize. unfold ImageUploader.range0.
  replace (0 <? batch_size) with true by (symmetry; apply Z.ltb_lt; lia).
  set (n := Z.of_nat (length image_files)).
  pose proof (Z.mod_pos_bound (n + batch_size - 1) batch_size ltac:(lia)) as Hmod.
  pose proof (Z.div_mod (n + batch_size - 1) batch_size ltac:(lia)) as Hdiv.
  assert (Hq : 0 <= (n + batch_size - 1) `div` batch_size)
    by (apply Z.div_pos; lia).
  rewrite List.map_map.
  rewrite (List.map_ext_in _
             (fun i => take (Z.to_nat batch_size)
                         (drop (i * Z.to_nat batch_size) image_files))).
  - rewrite concat_batches. apply take_ge. subst n. nia.
  - intros i _. rewrite batch_at_take by lia. do 2 f_equal. lia.
Qed.

(** X1. For [batch_size >= 1] the batches of [_upload_concurrent], taken in
    their order, are the list of files cut into consecutive pieces: put end
    to end they give the list back, none is empty and none holds more than
    [batch_size] files. *)
Theorem batches_partition (image_files : list Path.t) (batch_size : Z) :
  1 <= batch_size ->
  let starts := ImageUploader.range0 (Z.of_nat (length image_files)) batch_size in
  concat (List.map (batch_at image_files batch_size) starts) = image_files
  /\ Forall (fun batch_start =>
               1 <= Z.of_nat (length (batch_at image_files batch_size batch_start))
                 <= batch_size) starts.
Proof.
  intros Hsize starts. split; [by apply batches_concat|].
  subst starts. unfold ImageUploader.range0.
  replace (0 <? batch_size) with true by (symmetry; apply Z.ltb_lt; lia).
  set (n := Z.of_nat (length image_files)).
  pose proof (Z.mul_div_le (n + batch_size - 1) batch_size ltac:(lia)) as Hle.
  assert (Hq : 0 <= (n + batch_size - 1) `div` batch_size)
    by (apply Z.div_pos; lia).
  apply Forall_forall. intros batch_start Hin.
  apply (proj1 (list_elem_of_In _ _)) in Hin.
  apply in_map_iff in Hin as (i & <- & Hi). apply in_seq in Hi.
  rewrite batch_at_take by lia. rewrite length_take, length_drop.
  subst n. nia.
Qed.

Lemma batches_partition_witness :
  let image_files :=
    [Path.mk "imgs" ["a.png"]; Path.mk "imgs" ["b.jpg"]; Path.mk "imgs" ["c.webp"]] in
  let starts := ImageUploader.range0 (Z.of_nat (length image_files)) 2 in
  concat (List.map (batch_at image_files 2) starts) = image_files
  /\ Forall (fun batch_start =>
               1 <= Z.of_nat (length (batch_at image_files 2 batch_start)) <= 2) starts.
Proof.
  apply (batches_partition
           [Path.mk "imgs" ["a.png"]; Path.mk "imgs" ["b.jpg"]; Path.mk "imgs" ["c.webp"]] 2).
  lia.
Defined.

Section ConcurrentStats.

Variable self : ImageUploader.t.
Variables (base_dir : string) (skip_existing : bool).
Variable image_files : list Path.t.

Lemma batch_loop_accounted (workers batch_size : Z) (starts : list Z) :
  1 <= workers ->
  forall (schedule : list nat) (w : world),
    accounted (Z.of_nat (length (concat (List.map (batch_at image_files batch_size) starts))))
      (the_stats w)
      (the_stats (snd (ImageUploader.batch_loop self starts schedule image_files base_dir
                         skip_existing workers batch_size w))).
Proof.
  intros Hworkers. induction starts as [|batch_start starts' IH]; intros schedule w.
  - apply accounted_refl.
  - cbn [ImageUploader.batch_loop]. cbv zeta.
    replace (workers <=? 0) with false by (symmetry; apply Z.leb_gt; lia).
    change (take _ (drop _ image_files)) with (batch_at image_files batch_size batch_start).
    match goal with
    | |- context [ImageUploader.run_pool schedule ?n (List.map ?f ?b) ?w0] =>
        pose proof (run_pool_accounted self base_dir skip_existing n schedule b w0) as H1;
        destruct (ImageUploader.run_pool schedule n (List.map f b) w0) as [schedule' w1]
    end.
    simpl in H1. simpl List.map. simpl concat. rewrite length_app, Nat2Z.inj_add.
    eapply accounted_trans; [exact H1 | apply IH].
Qed.

(** Whatever the schedule, the pool and its batches account for every
    file once. *)
Lemma upload_concurrent_accounted (schedule : list nat) (workers batch_size : Z)
    (w : world) :
  1 <= workers -> 1 <= batch_size ->
  accounted (Z.of_nat (length image_files)) (the_stats w)
    (the_stats (snd (ImageUploader._upload_concurrent self schedule image_files base_dir
                       skip_existing workers batch_size w))).
Proof.
  intros Hworkers Hbatch. unfold ImageUploader._upload_concurrent. cbv zeta.
  replace (batch_size =? 0) with false by (symmetry; apply Z.eqb_neq; lia).
  pose proof (batch_loop_accounted workers batch_size
                (ImageUploader.range0 (Z.of_nat (length image_files)) batch_size)
                Hworkers schedule
                (add_log (Info_processing (Z.of_nat (length image_files)) workers batch_size)
                   w)) as H.
  rewrite (batches_concat image_files batch_size Hbatch) in H. exact H.
Qed.

End ConcurrentStats.

(** *** The whole run *)

Lemma insert_sorted_length (p : Path.t) (l : list Path.t) :
  length (Path.insert_sorted p l) = S (length l).
Proof.
  induction l as [|q l IH]; simpl; [reflexivity|].
  destruct (Path.leb p q); simpl; [reflexivity | by rewrite IH].
Qed.

Lemma sorted_length (l : list Path.t) : length (Path.sorted l) = length l.
Proof.
  unfold Path.sorted. induction l as [|p l IH]; simpl; [reflexivity|].
  by rewrite insert_sorted_length, IH.
Qed.

(** What [get_image_files] answers depends on the directories alone. *)
Lemma get_image_files_dirs (directory : string) (w1 w2 : world) :
  dirs w1 = dirs w2 ->
  fst (run (ImageUploader.get_image_files directory) w1)
  = fst (run (ImageUploader.get_image_files directory) w2).
Proof.
  intros Hdirs. unfold ImageUploader.get_image_files.
  rewrite !run_bind, !run_perform. simpl. rewrite Hdirs.
  destruct (bool_decide (is_Some (dirs w2 !! directory))); simpl; [|reflexivity].
  by rewrite Hdirs.
Qed.

(** X2. Over an existing directory, with [workers = 1], or with
    [workers >= 1] and [batch_size >= 1] under any schedule of the pool,
    [upload_directory] returns; it sets [total_files] to the number of
    image files found, counts each of them exactly once as successful or
    as failed, and counts as skipped only files it also counts as
    successful. From fresh statistics this gives
    [successful_uploads + failed_uploads = total_files] and
    [skipped_files <= successful_uploads]. *)
Theorem upload_directory_accounts
    (self : ImageUploader.t) (schedule : list nat) (directory : string)
    (skip_existing : bool) (workers batch_size : Z) (w : world)
    (entries : list dirent) :
  dirs w !! directory = Some entries ->
  workers = 1 \/ (1 <= workers /\ 1 <= batch_size) ->
  exists (image_files : list Path.t) (w' : world),
    fst (run (ImageUploader.get_image_files directory) w) = inr image_files
    /\ ImageUploader.upload_directory self schedule directory skip_existing workers
         batch_size w = (inr tt, w')
    /\ total_files (the_stats w') = Z.of_nat (length image_files)
    /\ processed (the_stats w') = processed (the_stats w) + total_files (the_stats w')
    /\ 0 <= skipped_files (the_stats w') - skipped_files (the_stats w)
         <= successful_uploads (the_stats w') - successful_uploads (the_stats w).
Proof.
  intros Hdir Hparams.
  destruct (run_get_image_files directory
              (add_log (Info_starting directory skip_existing workers) w) entries Hdir)
    as (l & Hrun & _).
  exists (Path.sorted l).
  assert (Hfst : fst (run (ImageUploader.get_image_files directory) w)
                 = inr (Path.sorted l)).
  { rewrite (get_image_files_dirs directory w
               (add_log (Info_starting directory skip_existing workers) w) eq_refl).
    by rewrite Hrun. }
  unfold ImageUploader.upload_directory. rewrite run_bind, Hrun.
  rewrite run_bind, run_perform. simpl run.
  destruct (Path.sorted l) as [|image_path rest] eqn:Hsorted.
  - eexists. split_and!; [exact Hfst | reflexivity | ..];
      destruct (the_stats w) as [T Sc F K]; unfold processed; simpl; lia.
  - destruct (workers =? 1) eqn:Hw.
    + match goal with
      | |- context [run (ImageUploader._upload_sequential _ ?fs _ _) ?w0] =>
          pose proof (upload_sequential_accounted self directory skip_existing fs w0)
            as Hacc;
          destruct (upload_sequential_returns self directory skip_existing fs w0)
            as [w3 Hret]
      end.
      rewrite Hret in Hacc |- *. simpl in Hacc.
      eexists. split_and!; [exact Hfst | reflexivity | ..];
        unfold accounted, processed in *; simpl in *; lia.
    + apply Z.eqb_neq in Hw. destruct Hparams as [? | [Hworkers Hbatch]]; [lia|].
      match goal with
      | |- context [ImageUploader._upload_concurrent _ _ ?fs _ _ _ _ ?w0] =>
          pose proof (upload_concurrent_accounted self directory skip_existing fs
                        schedule workers batch_size w0 Hworkers Hbatch) as Hacc;
          destruct (upload_concurrent_returns self directory skip_existing schedule fs
                      workers batch_size w0) as [w3 Hret]; [lia | lia |]
      end.
      rewrite Hret in Hacc |- *. simpl in Hacc.
      eexists. split_and!; [exact Hfst | reflexivity | ..];
        unfold accounted, processed in *; simpl in *; lia.
Qed.

Lemma upload_directory_accounts_witness :
  exists (image_files : list Path.t) (w' : world),
    fst (run (ImageUploader.get_image_files "imgs") Scenario.rerun) = inr image_files
    /\ ImageUploader.upload_directory Scenario.uploader [1; 0; 2; 1]%nat "imgs" true 3 2
         Scenario.rerun = (inr tt, w')
    /\ total_files (the_stats w') = Z.of_nat (length image_files)
    /\ processed (the_stats w')
       = processed (the_stats Scenario.rerun) + total_files (the_stats w')
    /\ 0 <= skipped_files (the_stats w') - skipped_files (the_stats Scenario.rerun)
         <= successful_uploads (the_stats w')
            - successful_uploads (the_stats Scenario.rerun).
Proof.
  apply (upload_directory_accounts Scenario.uploader [1; 0; 2; 1]%nat "imgs" true 3 2
           Scenario.rerun Scenario.listing).
  - reflexivity.
  - right. lia.
Defined.

(** ** [upload_file], further *)

Section UploadOutcome.

Variable self : ImageUploader.t.
Variables (data : file_data) (key content_type : string).

(** An attempt that returns has stored the object; one that raises has
    stored nothing. *)
Lemma put_attempt_bucket (w : world) :
  match run (ImageUploader.put_attempt self data key content_type) w with
  | (inr _, w') =>
      exists b : body,
        bucket w' = <[key := mk_object b content_type (ImageUploader.acl self)]> (bucket w)
  | (inl _, w') => bucket w' = bucket w
  end.
Proof.
  unfold ImageUploader.put_attempt. destruct data as [j | p].
  - rewrite run_raising, handle_put.
    destruct (faults w) as [|[e|] fs]; simpl; eauto.
  - rewrite run_bind, run_perform. simpl.
    destruct (files w !! Path.str p) as [f|]; simpl; [|reflexivity].
    rewrite run_bind, run_lift. destruct (file_bytes f) as [e | bytes]; [reflexivity|].
    rewrite run_raising, handle_put.
    destruct (faults w) as [|[e|] fs]; simpl; eauto.
Qed.

Lemma upload_attempts_bucket (retry_count : Z) (remaining : nat) :
  forall (attempt : Z) (w : world),
  exists (b : bool) (w' : world),
    run (ImageUploader.upload_attempts self remaining attempt data key content_type
           retry_count) w = (inr b, w')
    /\ if b
       then exists o : body,
              bucket w'
              = <[key := mk_object o content_type (ImageUploader.acl self)]> (bucket w)
       else bucket w' = bucket w.
Proof.
  induction remaining as [|remaining' IH]; intros attempt w.
  - exists false, w. simpl. auto.
  - cbn [ImageUploader.upload_attempts].
    rewrite run_bind, run_try_except, run_bind.
    pose proof (put_attempt_bucket w) as Hput.
    destruct (run (ImageUploader.put_attempt self data key content_type) w)
      as [[e | []] w1].
    + destruct (Py.is_ClientError e).
      * destruct (attempt <? retry_count - 1).
        -- simpl.
           destruct (IH (attempt + 1) (add_log (Warning_retry key (attempt + 1)) w1))
             as (b & w' & -> & Hb).
           exists b, w'. split; [reflexivity|]. simpl in Hb. by rewrite Hput in Hb.
        -- simpl. eexists false, _. split; [reflexivity|]. exact Hput.
      * simpl. eexists false, _. split; [reflexivity|]. exact Hput.
    + simpl. exists true, w1. split; [reflexivity|]. exact Hput.
Qed.

End UploadOutcome.


(** X4. An error that is not a [ClientError] ends [upload_file] at once:
    it returns [False] after that one put, however many retries were left,
    consumes nothing more of what the store holds in wait, and stores
    nothing. *)
Theorem upload_file_aborts_on_unexpected_error
    (self : ImageUploader.t) (data : file_data) (key content_type : string)
    (retry_count : Z) (w : world) (e : Py.exn) (rest : list (option Py.exn)) :
  1 <= retry_count ->
  faults w = Some e :: rest ->
  Py.is_ClientError e = false ->
  readable data w ->
  exists w',
    run (ImageUploader.upload_file self data key content_type retry_count) w
      = (inr false, w')
    /\ calls w' = Put key :: calls w
    /\ faults w' = rest
    /\ bucket w' = bucket w
    /\ log w' = Error_unexpected key e :: log w.
Proof.
  intros Hpos Hfaults He Hread. unfold ImageUploader.upload_file.
  destruct (Z.to_nat retry_count) as [|remaining] eqn:Hn; [lia|].
  cbn [ImageUploader.upload_attempts].
  rewrite run_bind, run_try_except, run_bind.
  rewrite (run_put_attempt_readable self data key content_type w Hread).
  rewrite handle_put, Hfaults, He. simpl. eauto 10.
Qed.

Lemma upload_file_aborts_witness :
  exists w',
    run (ImageUploader.upload_file Scenario.uploader
           (BytesIO (PIL.mk_jpeg (200, 300) 85 true)) "avatar/thumbnail/a.png"
           "image/jpeg" 3) Scenario.unreachable
      = (inr false, w')
    /\ calls w' = Put "avatar/thumbnail/a.png" :: calls Scenario.unreachable
    /\ faults w' = []
    /\ bucket w' = bucket Scenario.unreachable
    /\ log w'
       = Error_unexpected "avatar/thumbnail/a.png"
           (Py.BotoCoreError "EndpointConnectionError") :: log Scenario.unreachable.
Proof.
  apply (upload_file_aborts_on_unexpected_error Scenario.uploader
           (BytesIO (PIL.mk_jpeg (200, 300) 85 true)) "avatar/thumbnail/a.png"
           "image/jpeg" 3 Scenario.unreachable
           (Py.BotoCoreError "EndpointConnectionError") []).
  - lia.
  - reflexivity.
  - reflexivity.
  - exact I.
Defined.

Section Exhausted.

Variable self : ImageUploader.t.
Variables (data : file_data) (key content_type : string).
Variable retry_count : Z.

Lemma upload_attempts_exhausted (codes : list string) :
  forall (attempt : Z) (w : world) (code : string) (rest : list (option Py.exn)),
    attempt + Z.of_nat (length codes) = retry_count - 1 ->
    faults w = transient (codes ++ [code]) ++ rest ->
    readable data w ->
    exists w',
      run (ImageUploader.upload_attempts self (S (length codes)) attempt data key
             content_type retry_count) w = (inr false, w')
      /\ calls w' = repeat (Put key) (S (length codes)) ++ calls w
      /\ faults w' = rest
      /\ bucket w' = bucket w
      /\ head (log w') = Some (Error_upload_failed key retry_count (Py.ClientError code)).
Proof.
  induction codes as [|c codes' IH]; intros attempt w code rest Hatt Hfaults Hread.
  - cbn [ImageUploader.upload_attempts].
    rewrite run_bind, run_try_except, run_bind, (run_put_attempt_readable _ _ _ _ w Hread).
    rewrite handle_put. simpl in Hfaults, Hatt. rewrite Hfaults. simpl.
    replace (attempt <? retry_count - 1) with false by (symmetry; apply Z.ltb_ge; lia).
    simpl. eauto 10.
  - cbn [ImageUploader.upload_attempts].
    rewrite run_bind, run_try_except, run_bind, (run_put_attempt_readable _ _ _ _ w Hread).
    rewrite handle_put. simpl in Hfaults, Hatt. rewrite Hfaults. simpl.
    replace (attempt <? retry_count - 1) with true by (symmetry; apply Z.ltb_lt; lia).
    simpl.
    edestruct (IH (attempt + 1)) as (w' & -> & Hc & Hf & Hb & Hl); [lia | | | ].
    3:{ exists w'. split_and!; [reflexivity | | exact Hf | exact Hb | exact Hl].
        rewrite Hc. simpl. f_equal.
        change (Put key :: calls w) with ([Put key] ++ calls w).
        rewrite app_assoc, <- repeat_cons. reflexivity. }
    + reflexivity.
    + destruct data; simpl in *; auto.
Qed.

End Exhausted.

(** X5. When the store answers every one of the [retry_count] attempts
    with an error response, [upload_file] returns [False] after exactly
    [retry_count] puts, logs the last error, and stores nothing. *)
Theorem upload_file_gives_up_after_retry_count
    (self : ImageUploader.t) (data : file_data) (key content_type : string)
    (retry_count : Z) (w : world) (codes : list string) (code : string)
    (rest : list (option Py.exn)) :
  Z.of_nat (length codes) = retry_count - 1 ->
  faults w = transient (codes ++ [code]) ++ rest ->
  readable data w ->
  exists w',
    run (ImageUploader.upload_file self data key content_type retry_count) w
      = (inr false, w')
    /\ calls w' = repeat (Put key) (Z.to_nat retry_count) ++ calls w
    /\ faults w' = rest
    /\ bucket w' = bucket w
    /\ head (log w') = Some (Error_upload_failed key retry_count (Py.ClientError code)).
Proof.
  intros Hlen Hfaults Hread. unfold ImageUploader.upload_file.
  replace (Z.to_nat retry_count) with (S (length codes)) by lia.
  apply upload_attempts_exhausted with (rest := rest); auto; lia.
Qed.

Lemma upload_file_gives_up_witness :
  exists w',
    run (ImageUploader.upload_file Scenario.uploader
           (FilePath (Path.mk "imgs" ["a.png"])) "avatar/original/a.png" "image/png" 2)
        Scenario.flaky = (inr false, w')
    /\ calls w' = repeat (Put "avatar/original/a.png") (Z.to_nat 2) ++ calls Scenario.flaky
    /\ faults w' = [None]
    /\ bucket w' = bucket Scenario.flaky
    /\ head (log w')
       = Some (Error_upload_failed "avatar/original/a.png" 2 (Py.ClientError "503")).
Proof.
  apply (upload_file_gives_up_after_retry_count Scenario.uploader
           (FilePath (Path.mk "imgs" ["a.png"])) "avatar/original/a.png" "image/png" 2
           Scenario.flaky ["503"] "503" [None]).
  - reflexivity.
  - reflexivity.
  - exists (Scenario.rgb_file 100 100), "bytes". split; reflexivity.
Defined.

(** X6. When the source file is gone, [upload_file] returns [False]
    without a single call to the store, whatever [retry_count]. *)
Theorem upload_file_missing_source
    (self : ImageUploader.t) (p : Path.t) (key content_type : string)
    (retry_count : Z) (w : world) :
  files w !! Path.str p = None ->
  exists w',
    run (ImageUploader.upload_file self (FilePath p) key content_type retry_count) w
      = (inr false, w')
    /\ calls w' = calls w
    /\ faults w' = faults w
    /\ bucket w' = bucket w.
Proof.
  intros Hmissing. unfold ImageUploader.upload_file.
  destruct (Z.to_nat retry_count) as [|remaining]; [simpl; eauto|].
  cbn [ImageUploader.upload_attempts].
  rewrite run_bind, run_try_except, run_bind.
  unfold ImageUploader.put_attempt. rewrite run_bind, run_perform. simpl.
  rewrite Hmissing. simpl. eauto 10.
Qed.

Lemma upload_file_missing_source_witness :
  exists w',
    run (ImageUploader.upload_file Scenario.uploader
           (FilePath (Path.mk "imgs" ["gone.png"])) "avatar/original/gone.png"
           "image/png" 3) Scenario.first_run = (inr false, w')
    /\ calls w' = calls Scenario.first_run
    /\ faults w' = faults Scenario.first_run
    /\ bucket w' = bucket Scenario.first_run.
Proof.
  apply (upload_file_missing_source Scenario.uploader (Path.mk "imgs" ["gone.png"])).
  reflexivity.
Defined.

(** ** [file_exists_in_spaces], further *)

(** X7. [file_exists_in_spaces] sends one [head_object] and changes
    neither the bucket nor the statistics; whatever the store does, it
    answers [True] only for a key that is in the bucket. *)
Theorem file_exists_is_read_only_and_sound
    (self : ImageUploader.t) (key : string) (w : world) :
  let '(r, w') := run (ImageUploader.file_exists_in_spaces self key) w in
  bucket w' = bucket w
  /\ the_stats w' = the_stats w
  /\ calls w' = Head key :: calls w
  /\ match r with
     | inr true => is_Some (bucket w !! key)
     | _ => True
     end.
Proof.
  rewrite run_file_exists_in_spaces, handle_head. cbv zeta.
  unfold take_fault.
  destruct (faults w) as [|[e|] fs]; simpl.
  - destruct (bucket w !! key) eqn:Hk; simpl; rewrite ?Hk; eauto.
  - destruct (Py.is_ClientError e); simpl; auto.
  - destruct (bucket w !! key) eqn:Hk; simpl; rewrite ?Hk; eauto.
Qed.

(** X8. When the store lets the call through, [file_exists_in_spaces]
    answers whether the key is in the bucket. *)
Theorem file_exists_answers_presence
    (self : ImageUploader.t) (key : string) (w : world) :
  lets_through (faults w) ->
  fst (run (ImageUploader.file_exists_in_spaces self key) w)
  = inr (bool_decide (is_Some (bucket w !! key))).
Proof.
  intros Hquiet. rewrite run_file_exists_in_spaces, handle_head. cbv zeta.
  unfold take_fault, lets_through in *.
  destruct (faults w) as [|[e|] fs]; [| destruct Hquiet |]; simpl;
    destruct (bucket w !! key) eqn:Hk; simpl;
    rewrite ?bool_decide_eq_true_2, ?bool_decide_eq_false_2; eauto;
    intros [? ?]; discriminate.
Qed.

Lemma file_exists_answers_presence_witness :
  fst (run (ImageUploader.file_exists_in_spaces Scenario.uploader "avatar/original/a.png")
         Scenario.one_present)
  = inr (bool_decide (is_Some (bucket Scenario.one_present !! "avatar/original/a.png"))).
Proof.
  apply (file_exists_answers_presence Scenario.uploader "avatar/original/a.png"
           Scenario.one_present).
  exact I.
Defined.

(** X9. Upload, then look: once [upload_file] has returned [True], the
    next existence check for that key answers [True], provided the store
    lets it through. *)
Theorem uploaded_file_exists
    (self : ImageUploader.t) (data : file_data) (key content_type : string)
    (retry_count : Z) (w w' : world) :
  run (ImageUploader.upload_file self data key content_type retry_count) w = (inr true, w') ->
  lets_through (faults w') ->
  fst (run (ImageUploader.file_exists_in_spaces self key) w') = inr true.
Proof.
  intros Hup Hquiet.
  destruct (upload_attempts_bucket self data key content_type retry_count
              (Z.to_nat retry_count) 0 w) as (b & w1 & Hrun & Hb).
  unfold ImageUploader.upload_file in Hup. rewrite Hup in Hrun.
  injection Hrun as <- <-. destruct Hb as [o Ho].
  rewrite run_file_exists_in_spaces, handle_head. cbv zeta.
  unfold take_fault, lets_through in *.
  destruct (faults w') as [|[e|] fs]; [| destruct Hquiet |]; simpl;
    rewrite Ho, lookup_insert_eq; reflexivity.
Qed.

Lemma uploaded_file_exists_witness :
  fst (run (ImageUploader.file_exists_in_spaces Scenario.uploader "avatar/original/a.png")
         (snd (run (ImageUploader.upload_file Scenario.uploader
                      (FilePath (Path.mk "imgs" ["a.png"])) "avatar/original/a.png"
                      "image/png" 3) Scenario.flaky)))
  = inr true.
Proof.
  apply (uploaded_file_exists Scenario.uploader (FilePath (Path.mk "imgs" ["a.png"]))
           "avatar/original/a.png" "image/png" 3 Scenario.flaky).
  - vm_compute. reflexivity.
  - vm_compute. exact I.
Defined.

(** ** What a run leaves behind *)







Section WritesUnder.

Variable self : ImageUploader.t.















End WritesUnder.


(** ** Runs against a store that answers every call *)

Lemma n_puts_app (l1 l2 : list effect) : n_puts (l1 ++ l2) = (n_puts l1 + n_puts l2)%nat.
Proof. unfold n_puts. by rewrite List.filter_app, length_app. Qed.

Lemma n_skips_app (l1 l2 : list effect) :
  n_skips (l1 ++ l2) = (n_skips l1 + n_skips l2)%nat.
Proof. unfold n_skips. by rewrite List.filter_app, length_app. Qed.

(** Whether [l] writes to [key]. *)
Lemma put_on_dec (key : string) (l : list effect) :
  {obj | In (EPut key obj) l} + {forall obj, ~ In (EPut key obj) l}.
Proof.
  induction l as [|e l IH]; [right; intros obj []|].
  destruct IH as [[obj Hin] | Hnone]; [left; exists obj; by right|].
  destruct e as [key' obj' | key' |].
  - destruct (decide (key' = key)) as [->|Hne].
    + left. exists obj'. by left.
    + right. intros obj [[= -> _] | Hin]; [congruence | exact (Hnone obj Hin)].
  - right. intros obj [[=] | Hin]. exact (Hnone obj Hin).
  - right. intros obj [[=] | Hin]. exact (Hnone obj Hin).
Defined.

Lemma effects_rel_refl (w : world) : effects_rel [] w w.
Proof.
  unfold effects_rel, n_skips, n_puts. simpl.
  split_and!; auto; try lia; try (by intros key obj []).
Qed.

Lemma effects_rel_trans (l1 l2 : list effect) (w1 w2 w3 : world) :
  effects_rel l1 w1 w2 -> effects_rel l2 w2 w3 -> effects_rel (l1 ++ l2) w1 w3.
Proof.
  intros (Hq & Hf & Ht & Hs & Hfa & Hk & Hp & Ho & Hm & Hi)
         (Hq' & Hf' & Ht' & Hs' & Hfa' & Hk' & Hp' & Ho' & Hm' & Hi').
  unfold effects_rel. rewrite n_skips_app, n_puts_app.
  split_and!; try congruence; try lia; auto.
  - intros key Hkey. rewrite Ho', Ho; [reflexivity | |];
      intros obj Hin; apply (Hkey obj), in_app_iff; auto.
  - intros key obj Hin.
    destruct (put_on_dec key l2) as [[obj2 Hin2] | Hnone].
    + destruct (Hi' key obj2 Hin2) as (obj' & Hin' & Hobj').
      exists obj'. split; [apply in_app_iff; auto | exact Hobj'].
    + apply in_app_iff in Hin as [Hin | Hin]; [|destruct (Hnone obj Hin)].
      destruct (Hi key obj Hin) as (obj' & Hin' & Hobj').
      exists obj'. split; [apply in_app_iff; auto|]. rewrite Ho' by exact Hnone. exact Hobj'.
Qed.

Lemma effects_rel_add_log (l : log_line) (w : world) : effects_rel [] w (add_log l w).
Proof.
  unfold effects_rel, n_skips, n_puts. simpl.
  split_and!; auto; try lia; try (by intros key obj []).
Qed.

(** In a quiet world an operation answers as [quiet_answer] says and does
    what it says. *)
Lemma handle_quiet (has : string -> bool) (F : gmap string local_file)
    {X : Type} (o : op X) (x : X) (l : list effect) (w : world) :
  quiet has F w ->
  (forall key, In (EHead key) l -> bucket w !! key = None) ->
  quiet_answer has F o = Some (x, l) ->
  fst (handle o w) = x /\ effects_rel l w (snd (handle o w)).
Proof.
  intros (Hfaults & Hfiles & Hhas) Habsent Hans. unfold effects_rel.
  destruct o; simpl in Hans; try discriminate Hans.
  - destruct (has Key) eqn:Hkey; injection Hans as <- <-.
    + destruct (Hhas Key Hkey) as [obj Hobj].
      simpl. unfold take_fault. rewrite Hfaults. simpl. rewrite Hobj. simpl.
      unfold n_skips, n_puts. simpl.
      split_and!; auto; try lia; try (by intros key obj []).
    + pose proof (Habsent Key (or_introl eq_refl)) as Hnone.
      simpl. unfold take_fault. rewrite Hfaults. simpl. rewrite Hnone. simpl.
      unfold n_skips, n_puts. simpl.
      split_and!; auto; try lia. intros key obj [[=] | []].
  - injection Hans as <- <-.
    simpl. unfold take_fault. rewrite Hfaults. simpl.
    unfold n_skips, n_puts. simpl. split_and!; auto; try lia.
    + intros key Hkey. rewrite lookup_insert_ne; [reflexivity|].
      intros ->. apply (Hkey (mk_object Body ContentType ACL)). by left.
    + intros key [v Hv]. destruct (decide (Key = key)) as [->|Hne].
      * rewrite lookup_insert_eq. eauto.
      * rewrite lookup_insert_ne by exact Hne. eauto.
    + intros key obj [[= -> <-] | []]. eexists. split; [by left|].
      by rewrite lookup_insert_eq.
  - injection Hans as <- <-. simpl. rewrite Hfiles.
    unfold n_skips, n_puts.
    destruct (F !! path); simpl; split_and!; auto; try lia; try (by intros key obj []).
  - injection Hans as <- <-. simpl. rewrite Hfiles.
    unfold n_skips, n_puts.
    destruct (F !! path); simpl; split_and!; auto; try lia; try (by intros key obj []).
  - destruct c; try discriminate Hans. injection Hans as <- <-.
    unfold n_skips, n_puts. simpl. split_and!; auto; try lia; try (by intros key obj []).
  - injection Hans as <- <-.
    unfold n_skips, n_puts. simpl. split_and!; auto; try lia; try (by intros key obj []).
Qed.

Lemma effects_rel_quiet (has : string -> bool) (F : gmap string local_file)
    (l : list effect) (w w' : world) :
  quiet has F w -> effects_rel l w w' -> quiet has F w'.
Proof.
  intros (Hfaults & Hfiles & Hhas) (Hq & Hf & _ & _ & _ & _ & _ & _ & Hm & _).
  unfold quiet. split_and!; [congruence | congruence | auto].
Qed.

Lemma after_nil {R : Type} (x : option (R * list effect)) : after [] x = x.
Proof. destruct x as [[r l]|]; reflexivity. Qed.

Lemma after_after {R : Type} (l1 l2 : list effect) (x : option (R * list effect)) :
  after l1 (after l2 x) = after (l1 ++ l2) x.
Proof. destruct x as [[r l]|]; simpl; [by rewrite app_assoc | reflexivity]. Qed.

Lemma quiet_run_bind (has : string -> bool) (F : gmap string local_file)
    {A B : Type} (p : prog A) (f : A -> prog B) :
  quiet_run has F (p ≫= f) =
    match quiet_run has F p with
    | Some (inr a, l) => after l (quiet_run has F (f a))
    | Some (inl e, l) => Some (inl e, l)
    | None => None
    end.
Proof.
  induction p as [a | e | X o k IH]; simpl.
  - by rewrite after_nil.
  - reflexivity.
  - destruct (quiet_answer has F o) as [[x l1]|]; [|reflexivity].
    change (quiet_run has F (bind (k x) f)) with (quiet_run has F (k x ≫= f)).
    rewrite IH.
    destruct (quiet_run has F (k x)) as [[[e | a] l2]|]; simpl; try reflexivity.
    fold (after l2 (quiet_run has F (f a))).
    change (after l1 (after l2 (quiet_run has F (f a)))
            = after (l1 ++ l2) (quiet_run has F (f a))).
    apply after_after.
Qed.

Lemma quiet_run_try_except (has : string -> bool) (F : gmap string local_file)
    {A : Type} (p : prog A) (h : Py.exn -> option (prog A)) :
  quiet_run has F (try_except p h) =
    match quiet_run has F p with
    | Some (inr a, l) => Some (inr a, l)
    | Some (inl e, l) =>
        match h e with
        | Some q => after l (quiet_run has F q)
        | None => Some (inl e, l)
        end
    | None => None
    end.
Proof.
  induction p as [a | e | X o k IH]; simpl.
  - reflexivity.
  - destruct (h e) as [q|]; [by rewrite after_nil | reflexivity].
  - destruct (quiet_answer has F o) as [[x l1]|]; [|reflexivity].
    rewrite IH.
    destruct (quiet_run has F (k x)) as [[[e | a] l2]|]; simpl; try reflexivity.
    destruct (h e) as [q|]; [|reflexivity].
    change (after l1 (after l2 (quiet_run has F q)) = after (l1 ++ l2) (quiet_run has F q)).
    apply after_after.
Qed.

Section QuietPool.

Variable has : string -> bool.
Variable F : gmap string local_file.
Variable safe : list ImageUploader.task -> Prop.

Hypothesis safe_advance :
  forall (tasks1 tasks2 : list ImageUploader.task) (image_path : Path.t)
         (p p' : prog (bool * bool)) (r : Py.exn + bool * bool) (l1 l' : list effect),
    safe (tasks1 ++ (image_path, p) :: tasks2) ->
    quiet_run has F p = Some (r, l1 ++ l') ->
    quiet_run has F p' = Some (r, l') ->
    safe (tasks1 ++ (image_path, p') :: tasks2).

Hypothesis safe_delete :
  forall (tasks1 tasks2 : list ImageUploader.task) (tk : ImageUploader.task),
    safe (tasks1 ++ tk :: tasks2) -> safe (tasks1 ++ tasks2).

Hypothesis safe_clear :
  forall (tasks1 tasks2 : list ImageUploader.task) (image_path : Path.t)
         (p : prog (bool * bool)) (A B : list effect) (key : string) (obj : object),
    safe (tasks1 ++ (image_path, p) :: tasks2) ->
    plan_of has F p = A ++ EPut key obj :: B ->
    ~ In (EHead key) (pending has F tasks1 ++ B ++ pending has F tasks2).

Lemma pending_app (tasks1 tasks2 : list ImageUploader.task) :
  pending has F (tasks1 ++ tasks2) = pending has F tasks1 ++ pending has F tasks2.
Proof. unfold pending. apply flat_map_app. Qed.

Lemma pending_cons (tk : ImageUploader.task) (tasks : list ImageUploader.task) :
  pending has F (tk :: tasks) = plan_of has F (snd tk) ++ pending has F tasks.
Proof. reflexivity. Qed.

(** A task of the pool moves on: it does [l1] of what it had to do. *)
Lemma quiet_inv_advance (plan : list effect) (n : Z) (w0 w w1 : world)
    (tasks1 tasks2 : list ImageUploader.task) (image_path : Path.t)
    (p p' : prog (bool * bool)) (l1 l' : list effect) :
  quiet_inv has F safe plan n w0 (tasks1 ++ (image_path, p) :: tasks2) w ->
  quiet_run has F p = Some (inr (true, true), l1 ++ l') ->
  quiet_run has F p' = Some (inr (true, true), l') ->
  effects_rel l1 w w1 ->
  quiet_inv has F safe plan n w0 (tasks1 ++ (image_path, p') :: tasks2) w1.
Proof.
  intros (Hw & Hok & Ht & Hfa & Hs & Hk & Hp & Ho & Hi & Hsub & Hone & Habs & Hsafe)
         Hrun Hrun' Hrel.
  pose proof (effects_rel_quiet _ _ _ _ _ Hw Hrel) as Hw1.
  pose proof (safe_advance _ _ _ _ _ _ _ _ Hsafe Hrun Hrun') as Hsafe'.
  assert (Hclear : forall key obj, In (EPut key obj) l1 ->
            ~ In (EHead key) (pending has F tasks1 ++ l' ++ pending has F tasks2)).
  { intros key obj Hin Hhead. apply in_split in Hin as (A & B & ->).
    apply (safe_clear tasks1 tasks2 image_path p A (B ++ l') key obj Hsafe).
    - unfold plan_of. rewrite Hrun. by rewrite <- app_assoc.
    - rewrite !in_app_iff in Hhead. rewrite !in_app_iff. tauto. }
  destruct Hrel as (_ & _ & Ht' & Hs' & Hfa' & Hk' & Hp' & Ho' & Hm' & Hi').
  rewrite pending_app, pending_cons in Hk, Hp, Hi, Hsub, Habs.
  unfold plan_of in Hk, Hp, Hi, Hsub, Habs. cbn [snd] in Hk, Hp, Hi, Hsub, Habs.
  rewrite Hrun in Hk, Hp, Hi, Hsub, Habs.
  rewrite !n_skips_app in Hk. rewrite !n_puts_app in Hp.
  rewrite length_app in Hs. cbn [length] in Hs.
  unfold quiet_inv. rewrite pending_app, pending_cons.
  unfold plan_of. cbn [snd]. rewrite Hrun'.
  rewrite !n_skips_app, !n_puts_app, length_app. cbn [length].
  split_and!; try lia; auto.
  - apply Forall_app in Hok as [Hok1 Hok2]. apply Forall_cons in Hok2 as [_ Hok2].
    apply Forall_app. split; [exact Hok1|]. apply Forall_cons. split; [|exact Hok2].
    exists l'. exact Hrun'.
  - intros key Hkey. rewrite Ho'; [by apply Ho|].
    intros obj Hin. apply (Hkey obj), Hsub. rewrite !in_app_iff. auto.
  - intros key obj Hkey.
    assert (Hdone : forall obj1, In (EPut key obj1) l1 -> bucket w1 !! key = Some obj).
    { intros obj1 Hin1. destruct (Hi' key obj1 Hin1) as (obj' & Hin' & Hobj').
      rewrite Hobj'. f_equal. apply (Hone key); [|exact Hkey].
      apply Hsub. rewrite !in_app_iff. auto. }
    destruct (Hi key obj Hkey) as [Hin | Hin].
    + left. destruct (put_on_dec key l1) as [[obj1 Hin1] | Hnone]; [by eapply Hdone|].
      rewrite Ho' by exact Hnone. exact Hin.
    + rewrite !in_app_iff in Hin. rewrite !in_app_iff.
      destruct Hin as [Hin | [[Hin | Hin] | Hin]]; auto.
      left. by eapply Hdone.
  - intros e Hin. apply Hsub. rewrite !in_app_iff in Hin. rewrite !in_app_iff. tauto.
  - intros key Hhead.
    rewrite Ho'.
    + apply Habs. rewrite !in_app_iff in Hhead. rewrite !in_app_iff. tauto.
    + intros obj Hin. exact (Hclear key obj Hin Hhead).
Qed.

(** The future of a task that returned (True, True) is collected. *)
Lemma quiet_inv_collect (plan : list effect) (n : Z) (w0 w : world)
    (tasks1 tasks2 : list ImageUploader.task) (image_path : Path.t) :
  quiet_inv has F safe plan n w0 (tasks1 ++ (image_path, Ret (true, true)) :: tasks2) w ->
  quiet_inv has F safe plan n w0 (tasks1 ++ tasks2)
    (snd (run (ImageUploader.complete image_path (inr (true, true))) w)).
Proof.
  intros (Hw & Hok & Ht & Hfa & Hs & Hk & Hp & Ho & Hi & Hsub & Hone & Habs & Hsafe).
  apply safe_delete in Hsafe.
  rewrite pending_app, pending_cons in Hk, Hp, Hi, Hsub, Habs.
  unfold plan_of in Hk, Hp, Hi, Hsub, Habs. simpl in Hk, Hp, Hi, Hsub, Habs.
  rewrite length_app in Hs. cbn [length] in Hs.
  unfold quiet_inv. rewrite pending_app, length_app. simpl.
  destruct Hw as (Hq & Hf & Hhas).
  split_and!; auto; try lia.
  - split_and!; auto.
  - apply Forall_app in Hok as [Hok1 Hok2]. apply Forall_cons in Hok2 as [_ Hok2].
    apply Forall_app. auto.
Qed.

Lemma quiet_inv_step (plan : list effect) (n : Z) (w0 : world) (i : nat)
    (tasks : list ImageUploader.task) (w : world) :
  quiet_inv has F safe plan n w0 tasks w ->
  quiet_inv has F safe plan n w0 (fst (ImageUploader.step_pool i tasks w))
    (snd (ImageUploader.step_pool i tasks w)).
Proof.
  intros Hinv. unfold ImageUploader.step_pool, ImageUploader.task in *.
  destruct (tasks !! i) as [[image_path p]|] eqn:Hi; [|exact Hinv].
  pose proof (take_drop_middle tasks i _ Hi) as Hsplit.
  pose proof (lookup_lt_Some _ _ _ Hi) as Hlt.
  assert (Hp : task_ok has F (image_path, p)).
  { destruct Hinv as (_ & Hok & _). exact (Forall_lookup_1 _ _ _ _ Hok Hi). }
  destruct Hp as [l Hl]. cbn [snd] in Hl.
  rewrite <- Hsplit in Hinv.
  destruct p as [outcome | e | X o k].
  - simpl in Hl. injection Hl as -> <-.
    cbn [fst snd]. rewrite delete_take_drop. by apply quiet_inv_collect.
  - discriminate Hl.
  - simpl in Hl.
    destruct (quiet_answer has F o) as [[x l1]|] eqn:Hans; [|discriminate Hl].
    destruct (quiet_run has F (k x)) as [[r l2]|] eqn:Hk; [|discriminate Hl].
    injection Hl as -> <-.
    destruct Hinv as [Hw Hrest].
    assert (Habsent : forall key, In (EHead key) l1 -> bucket w !! key = None).
    { intros key Hin.
      destruct Hrest as (_ & _ & _ & _ & _ & _ & _ & _ & _ & _ & Habs & _).
      apply Habs. rewrite pending_app, pending_cons. unfold plan_of. cbn [snd].
      simpl. rewrite Hans, Hk. rewrite !in_app_iff. auto. }
    destruct (handle_quiet has F o x l1 w Hw Habsent Hans) as [Hx Hstep].
    destruct (handle o w) as [x' w1]. cbn [fst snd] in *. subst x'.
    rewrite insert_take_drop by exact Hlt.
    apply (quiet_inv_advance plan n w0 w w1 _ _ image_path (Vis o k) (k x) l1 l2);
      [exact (conj Hw Hrest) | | exact Hk | exact Hstep].
    simpl. rewrite Hans, Hk. reflexivity.
Qed.

Lemma quiet_inv_finish (plan : list effect) (n : Z) (w0 : world)
    (tk : ImageUploader.task) (tasks : list ImageUploader.task) (w : world) :
  quiet_inv has F safe plan n w0 (tk :: tasks) w ->
  quiet_inv has F safe plan n w0 tasks (ImageUploader.finish w tk).
Proof.
  destruct tk as [image_path p]. revert w.
  induction p as [outcome | e | X o k IH]; intros w Hinv.
  - assert (Hp : task_ok has F (image_path, Ret outcome)).
    { destruct Hinv as (_ & Hok & _). apply Forall_cons in Hok as [Hok _]. exact Hok. }
    destruct Hp as [l Hl]. simpl in Hl. injection Hl as -> <-.
    apply (quiet_inv_collect plan n w0 w [] tasks image_path Hinv).
  - assert (Hp : task_ok has F (image_path, Raise e)).
    { destruct Hinv as (_ & Hok & _). apply Forall_cons in Hok as [Hok _]. exact Hok. }
    destruct Hp as [l Hl]. discriminate Hl.
  - pose proof (quiet_inv_step plan n w0 0 ((image_path, Vis o k) :: tasks) w Hinv)
      as Hstep.
    unfold ImageUploader.step_pool in Hstep. simpl in Hstep.
    unfold ImageUploader.finish in *. simpl.
    destruct (handle o w) as [x w1]. simpl in Hstep. by apply IH.
Qed.

Lemma quiet_inv_drain (plan : list effect) (n : Z) (w0 : world)
    (tasks : list ImageUploader.task) :
  forall w,
    quiet_inv has F safe plan n w0 tasks w ->
    quiet_inv has F safe plan n w0 [] (foldl ImageUploader.finish w tasks).
Proof.
  induction tasks as [|tk tasks IH]; intros w Hinv; [exact Hinv|].
  simpl. apply IH. by apply quiet_inv_finish.
Qed.

Lemma quiet_inv_run (plan : list effect) (n : Z) (w0 : world) (workers : nat)
    (schedule : list nat) :
  forall (tasks : list ImageUploader.task) (w : world),
    quiet_inv has F safe plan n w0 tasks w ->
    quiet_inv has F safe plan n w0 [] (snd (ImageUploader.run_pool schedule workers tasks w)).
Proof.
  induction schedule as [|choice schedule' IH]; intros tasks w Hinv.
  - simpl. by apply quiet_inv_drain.
  - cbn [ImageUploader.run_pool]. destruct tasks as [|tk tasks']; [exact Hinv|].
    cbv zeta.
    pose proof (quiet_inv_step plan n w0
                  (choice mod Nat.min workers (length (tk :: tasks')))%nat
                  (tk :: tasks') w Hinv) as Hstep.
    destruct (ImageUploader.step_pool _ (tk :: tasks') w) as [tasks1 w1].
    by apply IH.
Qed.

(** A pool begins. *)
Lemma quiet_inv_start (tasks : list ImageUploader.task) (w : world) :
  quiet has F w ->
  Forall (task_ok has F) tasks ->
  one_object_per_key (pending has F tasks) ->
  (forall key, In (EHead key) (pending has F tasks) -> bucket w !! key = None) ->
  safe tasks ->
  quiet_inv has F safe (pending has F tasks) (Z.of_nat (length tasks)) w tasks w.
Proof.
  intros Hw Hok Hone Habs Hsafe. unfold quiet_inv. split_and!; auto.
Qed.

(** One pool after the other. *)
Lemma quiet_inv_trans (plan1 plan2 : list effect) (n1 n2 : Z) (w0 w1 w2 : world) :
  one_object_per_key (plan1 ++ plan2) ->
  quiet_inv has F safe plan1 n1 w0 [] w1 ->
  quiet_inv has F safe plan2 n2 w1 [] w2 ->
  quiet_inv has F safe (plan1 ++ plan2) (n1 + n2) w0 [] w2.
Proof.
  intros Hone (Hw & Hok & Ht & Hfa & Hs & Hk & Hp & Ho & Hi & Hsub & _ & _ & _)
         (Hw' & Hok' & Ht' & Hfa' & Hs' & Hk' & Hp' & Ho' & Hi' & Hsub' & _ & Habs' & Hsafe').
  unfold quiet_inv, pending in *. simpl in *.
  rewrite n_skips_app, n_puts_app.
  change (n_skips []) with 0%nat in *. change (n_puts []) with 0%nat in *.
  split_and!; auto; try lia.
  - intros key Hkey. rewrite Ho', Ho; [reflexivity | |];
      intros obj Hin; apply (Hkey obj), in_app_iff; auto.
  - intros key obj Hin. left.
    destruct (put_on_dec key plan2) as [[obj2 Hin2] | Hnone].
    + destruct (Hi' key obj2 Hin2) as [Hobj | []]. rewrite Hobj. f_equal.
      apply (Hone key); [apply in_app_iff; auto | exact Hin].
    + apply in_app_iff in Hin as [Hin | Hin]; [|destruct (Hnone obj Hin)].
      destruct (Hi key obj Hin) as [Hobj | []]. rewrite Ho' by exact Hnone. exact Hobj.
Qed.

Lemma one_object_per_key_sub (plan plan' : list effect) :
  (forall e, In e plan' -> In e plan) ->
  one_object_per_key plan -> one_object_per_key plan'.
Proof. intros Hsub Hone key obj1 obj2 H1 H2. apply (Hone key); auto. Qed.

Lemma quiet_inv_add_log (l : log_line) (w : world) :
  safe [] -> quiet has F w -> quiet_inv has F safe [] 0 w [] (add_log l w).
Proof.
  intros Hsafe (Hq & Hf & Hhas).
  unfold quiet_inv, quiet, pending, one_object_per_key. simpl.
  split_and!; auto; try lia; try (by intros key []); try (by intros key obj []);
    try (by intros key obj1 obj2 []).
Qed.

(** A key that a later task has yet to find missing is not written by an
    earlier one. *)
Lemma safe_heads_later (tasks1 tasks2 : list ImageUploader.task) (key : string)
    (obj : object) :
  safe (tasks1 ++ tasks2) ->
  In (EPut key obj) (pending has F tasks1) ->
  ~ In (EHead key) (pending has F tasks2).
Proof.
  intros Hsafe Hput Hhead. unfold pending in Hput.
  apply in_flat_map in Hput as ([image_path p] & Htk & Hput). cbn [snd] in Hput.
  apply in_split in Htk as (L & R & ->). apply in_split in Hput as (A & B & Hplan).
  rewrite <- app_assoc in Hsafe. simpl in Hsafe.
  apply (safe_clear L (R ++ tasks2) image_path p A B key obj Hsafe Hplan).
  rewrite pending_app, !in_app_iff. auto.
Qed.

End QuietPool.

Section QuietTasks.

Variable self : ImageUploader.t.
Variable has : string -> bool.
Variable F : gmap string local_file.

Lemma quiet_run_file_exists (key : string) :
  has key = true ->
  quiet_run has F (ImageUploader.file_exists_in_spaces self key) = Some (inr true, []).
Proof.
  intros Hkey. unfold ImageUploader.file_exists_in_spaces.
  rewrite quiet_run_try_except, quiet_run_bind. simpl. rewrite Hkey. reflexivity.
Qed.

Lemma quiet_run_upload_file (data : file_data) (key content_type : string)
    (retry_count : Z) (b : body) :
  1 <= retry_count ->
  match data with
  | BytesIO j => b = JpegData j
  | FilePath p =>
      exists f bytes,
        F !! Path.str p = Some f /\ file_bytes f = inr bytes /\ b = RawBytes bytes
  end ->
  quiet_run has F (ImageUploader.upload_file self data key content_type retry_count)
  = Some (inr true, [EPut key (mk_object b content_type (ImageUploader.acl self))]).
Proof.
  intros Hcount Hdata. unfold ImageUploader.upload_file.
  destruct (Z.to_nat retry_count) as [|remaining] eqn:Hn; [lia|].
  cbn [ImageUploader.upload_attempts].
  rewrite quiet_run_bind, quiet_run_try_except, quiet_run_bind.
  unfold ImageUploader.put_attempt. destruct data as [j | p].
  - subst b. reflexivity.
  - destruct Hdata as (f & bytes & Hf & Hbytes & ->).
    simpl. rewrite Hf, Hbytes. reflexivity.
Qed.

Lemma quiet_run_create_thumbnail (image_path : Path.t) (f : local_file)
    (img : PIL.image) (thumbnail : PIL.jpeg) :
  F !! Path.str image_path = Some f ->
  file_image f = inr img ->
  ImageUploader.render_thumbnail img = inr thumbnail ->
  quiet_run has F (ImageUploader.create_thumbnail image_path) = Some (inr (Some thumbnail), []).
Proof.
  intros Hf Himg Hrender. unfold ImageUploader.create_thumbnail.
  rewrite quiet_run_try_except. simpl. rewrite Hf, Himg. simpl. rewrite Hrender.
  reflexivity.
Qed.

(** A file whose two objects are known to be in the bucket is skipped. *)
Lemma quiet_run_process_skips (image_path : Path.t) (base_dir : string) :
  Path.root image_path = base_dir ->
  has (ImageUploader.original_key_of self (Path.parts image_path)) = true ->
  has (ImageUploader.thumbnail_key_of self (Path.parts image_path)) = true ->
  quiet_run has F (ImageUploader.process_and_upload_image self image_path base_dir true)
  = Some (inr (true, true), [ESkip]).
Proof.
  intros Hroot Ho Ht. unfold ImageUploader.process_and_upload_image, Path.relative_to.
  rewrite Hroot, String.eqb_refl.
  rewrite quiet_run_bind. cbn [lift quiet_run]. rewrite after_nil.
  rewrite quiet_run_bind. unfold ImageUploader.existence_checks.
  rewrite quiet_run_bind, (quiet_run_file_exists _ Ho). cbn [after].
  rewrite quiet_run_bind, (quiet_run_file_exists _ Ht). reflexivity.
Qed.

(** With [skip_existing = False] a file that can be read and rendered has
    its two objects written, once each. *)
Lemma quiet_run_process_uploads (image_path : Path.t) (base_dir : string)
    (f : local_file) (bytes : string) (img : PIL.image) (thumbnail : PIL.jpeg) :
  Path.root image_path = base_dir ->
  F !! Path.str image_path = Some f ->
  file_bytes f = inr bytes ->
  file_image f = inr img ->
  ImageUploader.render_thumbnail img = inr thumbnail ->
  quiet_run has F (ImageUploader.process_and_upload_image self image_path base_dir false)
  = Some (inr (true, true),
          [EPut (ImageUploader.original_key_of self (Path.parts image_path))
             (mk_object (RawBytes bytes) (ImageUploader.get_content_type self image_path)
                (ImageUploader.acl self));
           EPut (ImageUploader.thumbnail_key_of self (Path.parts image_path))
             (mk_object (JpegData thumbnail) "image/jpeg" (ImageUploader.acl self))]).
Proof.
  intros Hroot Hf Hbytes Himg Hrender.
  unfold ImageUploader.process_and_upload_image, Path.relative_to.
  rewrite Hroot, String.eqb_refl.
  rewrite quiet_run_bind. cbn [lift quiet_run]. rewrite after_nil.
  rewrite quiet_run_bind. unfold ImageUploader.existence_checks.
  cbn [quiet_run after andb].
  rewrite quiet_run_bind. unfold ImageUploader.upload_original. cbn [negb orb].
  rewrite (quiet_run_upload_file (FilePath image_path) _ _ 3 (RawBytes bytes))
    by (eauto 10; lia).
  cbn [after]. rewrite quiet_run_bind.
  unfold ImageUploader.upload_thumbnail. cbn [negb orb].
  rewrite quiet_run_bind, (quiet_run_create_thumbnail _ _ _ _ Hf Himg Hrender).
  cbn [after].
  rewrite (quiet_run_upload_file (BytesIO thumbnail) _ _ 3 (JpegData thumbnail))
    by (auto; lia).
  reflexivity.
Qed.

End QuietTasks.

Section QuietRun.

Variable self : ImageUploader.t.
Variable has : string -> bool.
Variable F : gmap string local_file.
Variables (base_dir : string) (skip_existing : bool).

(** The sequential path runs each task to its end and collects it, one
    file after the other. *)
Lemma upload_sequential_drain (image_files : list Path.t) :
  forall w,
    run (ImageUploader._upload_sequential self image_files base_dir skip_existing) w
    = (inr tt,
       foldl ImageUploader.finish w (tasks_for self base_dir skip_existing image_files)).
Proof.
  induction image_files as [|image_path rest IH]; intros w; [reflexivity|].
  cbn [ImageUploader._upload_sequential]. rewrite run_bind, run_task_then_complete.
  simpl foldl. rewrite finish_eq. cbn [fst snd].
  pose proof (complete_returns image_path
                (fst (run (ImageUploader.process_and_upload_image self image_path
                            base_dir skip_existing) w))
                (snd (run (ImageUploader.process_and_upload_image self image_path
                            base_dir skip_existing) w))) as Hret.
  destruct (run (ImageUploader.complete image_path _) _) as [r w1].
  simpl in Hret. subst r. apply IH.
Qed.

Lemma tasks_for_app (l1 l2 : list Path.t) :
  tasks_for self base_dir skip_existing (l1 ++ l2)
  = tasks_for self base_dir skip_existing l1 ++ tasks_for self base_dir skip_existing l2.
Proof. unfold tasks_for. apply List.map_app. Qed.

Lemma tasks_for_length (l : list Path.t) :
  length (tasks_for self base_dir skip_existing l) = length l.
Proof. unfold tasks_for. apply length_map. Qed.

Variable safe : list ImageUploader.task -> Prop.

Hypothesis safe_advance :
  forall (tasks1 tasks2 : list ImageUploader.task) (image_path : Path.t)
         (p p' : prog (bool * bool)) (r : Py.exn + bool * bool) (l1 l' : list effect),
    safe (tasks1 ++ (image_path, p) :: tasks2) ->
    quiet_run has F p = Some (r, l1 ++ l') ->
    quiet_run has F p' = Some (r, l') ->
    safe (tasks1 ++ (image_path, p') :: tasks2).

Hypothesis safe_delete :
  forall (tasks1 tasks2 : list ImageUploader.task) (tk : ImageUploader.task),
    safe (tasks1 ++ tk :: tasks2) -> safe (tasks1 ++ tasks2).

Hypothesis safe_clear :
  forall (tasks1 tasks2 : list ImageUploader.task) (image_path : Path.t)
         (p : prog (bool * bool)) (A B : list effect) (key : string) (obj : object),
    safe (tasks1 ++ (image_path, p) :: tasks2) ->
    plan_of has F p = A ++ EPut key obj :: B ->
    ~ In (EHead key) (pending has F tasks1 ++ B ++ pending has F tasks2).

Hypothesis safe_app :
  forall tasks1 tasks2 : list ImageUploader.task,
    safe (tasks1 ++ tasks2) -> safe tasks1 /\ safe tasks2.

Lemma quiet_inv_nil (w : world) :
  safe [] -> quiet has F w -> quiet_inv has F safe [] 0 w [] w.
Proof.
  intros Hsafe Hw.
  apply (quiet_inv_start has F safe [] w Hw (List.Forall_nil _)); [| |exact Hsafe].
  - intros key obj1 obj2 [].
  - intros key [].
Qed.

Lemma batch_loop_quiet (image_files : list Path.t) (workers batch_size : Z)
    (starts : list Z) :
  1 <= workers ->
  forall (schedule : list nat) (w : world),
    quiet has F w ->
    Forall (task_ok has F)
      (tasks_for self base_dir skip_existing
         (concat (List.map (batch_at image_files batch_size) starts))) ->
    one_object_per_key
      (pending has F
         (tasks_for self base_dir skip_existing
            (concat (List.map (batch_at image_files batch_size) starts)))) ->
    (forall key,
       In (EHead key)
          (pending has F
             (tasks_for self base_dir skip_existing
                (concat (List.map (batch_at image_files batch_size) starts)))) ->
       bucket w !! key = None) ->
    safe (tasks_for self base_dir skip_existing
            (concat (List.map (batch_at image_files batch_size) starts))) ->
    quiet_inv has F safe
      (pending has F
         (tasks_for self base_dir skip_existing
            (concat (List.map (batch_at image_files batch_size) starts))))
      (Z.of_nat (length (concat (List.map (batch_at image_files batch_size) starts))))
      w []
      (snd (ImageUploader.batch_loop self starts schedule image_files base_dir
              skip_existing workers batch_size w)).
Proof.
  intros Hworkers.
  induction starts as [|batch_start starts' IH]; intros schedule w Hw Hok Hone Habs Hsafe.
  - by apply quiet_inv_nil.
  - cbn [ImageUploader.batch_loop]. cbv zeta.
    replace (workers <=? 0) with false by (symmetry; apply Z.leb_gt; lia).
    change (take _ (drop _ image_files)) with (batch_at image_files batch_size batch_start).
    simpl List.map in Hok, Hone, Habs, Hsafe |- *.
    simpl concat in Hok, Hone, Habs, Hsafe |- *.
    rewrite tasks_for_app in Hok, Hone, Habs, Hsafe |- *.
    apply Forall_app in Hok as [Hok1 Hok2].
    rewrite pending_app in Hone, Habs. rewrite pending_app, length_app, Nat2Z.inj_add.
    destruct (safe_app _ _ Hsafe) as [Hsafe1 Hsafe2].
    assert (Hnil : safe []) by apply (safe_app [] _ Hsafe).
    assert (Hone1 : one_object_per_key
                      (pending has F
                         (tasks_for self base_dir skip_existing
                            (batch_at image_files batch_size batch_start)))).
    { apply (one_object_per_key_sub _ _ (fun e H => proj2 (in_app_iff _ _ e) (or_introl H))
               Hone). }
    assert (Hone2 : one_object_per_key
                      (pending has F
                         (tasks_for self base_dir skip_existing
                            (concat (List.map (batch_at image_files batch_size) starts'))))).
    { apply (one_object_per_key_sub _ _ (fun e H => proj2 (in_app_iff _ _ e) (or_intror H))
               Hone). }
    set (w1 := add_log _ w).
    assert (Hw1 : quiet has F w1) by (destruct Hw as (? & ? & ?); split_and!; auto).
    assert (Habs1 : forall key,
              In (EHead key)
                 (pending has F
                    (tasks_for self base_dir skip_existing
                       (batch_at image_files batch_size batch_start))) ->
              bucket w1 !! key = None).
    { intros key Hin. apply Habs, in_app_iff. auto. }
    pose proof (quiet_inv_run has F safe safe_advance safe_delete safe_clear
                  _ _ w1 (Z.to_nat workers) schedule _ w1
                  (quiet_inv_start has F safe _ w1 Hw1 Hok1 Hone1 Habs1 Hsafe1)) as Hpool.
    fold (tasks_for self base_dir skip_existing
            (batch_at image_files batch_size batch_start)).
    destruct (ImageUploader.run_pool schedule (Z.to_nat workers)
                (tasks_for self base_dir skip_existing
                   (batch_at image_files batch_size batch_start)) w1)
      as [schedule' w2].
    cbn [snd] in Hpool. rewrite tasks_for_length in Hpool.
    assert (Hw2 : quiet has F w2) by apply Hpool.
    assert (Habs2 : forall key,
              In (EHead key)
                 (pending has F
                    (tasks_for self base_dir skip_existing
                       (concat (List.map (batch_at image_files batch_size) starts')))) ->
              bucket w2 !! key = None).
    { intros key Hin.
      destruct Hpool as (_ & _ & _ & _ & _ & _ & _ & Hframe & _).
      rewrite Hframe.
      - apply Habs, in_app_iff. auto.
      - intros obj Hput.
        exact (safe_heads_later has F safe safe_clear _ _ key obj Hsafe Hput Hin). }
    pose proof (IH schedule' w2 Hw2 Hok2 Hone2 Habs2 Hsafe2) as Hrest.
    pose proof (quiet_inv_trans has F safe _ _ _ _ _ _ _ Hone
                  (quiet_inv_trans has F safe [] _ _ _ _ _ _ Hone1
                     (quiet_inv_add_log has F safe
                        (Info_batch (batch_start `div` batch_size + 1) (batch_start + 1)
                           (Z.min (batch_start + batch_size)
                              (Z.of_nat (length image_files)))
                           (Z.of_nat (length image_files))) w Hnil Hw) Hpool) Hrest) as H.
    simpl in H. exact H.
Qed.

End QuietRun.

(** What [get_image_files] answers lies in the directory it was given. *)
Lemma get_image_files_found (self : ImageUploader.t) (directory : string) (w : world)
    (image_files : list Path.t) :
  fst (run (ImageUploader.get_image_files directory) w) = inr image_files ->
  (exists entries, dirs w !! directory = Some entries)
  /\ forall image_path, In image_path image_files -> Path.root image_path = directory.
Proof.
  intros Hscan. destruct (dirs w !! directory) as [entries|] eqn:Hdir.
  - split; [eauto|].
    destruct (run_get_image_files directory w entries Hdir) as (l & Hrun & Hmem).
    rewrite Hrun in Hscan. injection Hscan as <-.
    intros image_path Hin. apply sorted_In, Hmem in Hin.
    destruct Hin as [(e & _ & -> & _) _]. reflexivity.
  - unfold ImageUploader.get_image_files in Hscan. simpl in Hscan.
    rewrite Hdir in Hscan. simpl in Hscan. discriminate Hscan.
Qed.

(** A run over files whose tasks are all on their way to (True, True),
    against a store that answers every call: what it leaves. *)
Lemma upload_directory_quiet (self : ImageUploader.t) (has : string -> bool)
    (F : gmap string local_file) (safe : list ImageUploader.task -> Prop)
    (schedule : list nat) (directory : string)
    (skip_existing : bool) (workers batch_size : Z) (w : world)
    (image_files : list Path.t) :
  (forall (tasks1 tasks2 : list ImageUploader.task) (image_path : Path.t)
          (p p' : prog (bool * bool)) (r : Py.exn + bool * bool) (l1 l' : list effect),
     safe (tasks1 ++ (image_path, p) :: tasks2) ->
     quiet_run has F p = Some (r, l1 ++ l') ->
     quiet_run has F p' = Some (r, l') ->
     safe (tasks1 ++ (image_path, p') :: tasks2)) ->
  (forall (tasks1 tasks2 : list ImageUploader.task) (tk : ImageUploader.task),
     safe (tasks1 ++ tk :: tasks2) -> safe (tasks1 ++ tasks2)) ->
  (forall (tasks1 tasks2 : list ImageUploader.task) (image_path : Path.t)
          (p : prog (bool * bool)) (A B : list effect) (key : string) (obj : object),
     safe (tasks1 ++ (image_path, p) :: tasks2) ->
     plan_of has F p = A ++ EPut key obj :: B ->
     ~ In (EHead key) (pending has F tasks1 ++ B ++ pending has F tasks2)) ->
  (forall tasks1 tasks2 : list ImageUploader.task,
     safe (tasks1 ++ tasks2) -> safe tasks1 /\ safe tasks2) ->
  fst (run (ImageUploader.get_image_files directory) w) = inr image_files ->
  quiet has F w ->
  Forall (task_ok has F) (tasks_for self directory skip_existing image_files) ->
  one_object_per_key (pending has F (tasks_for self directory skip_existing image_files)) ->
  (forall key,
     In (EHead key) (pending has F (tasks_for self directory skip_existing image_files)) ->
     bucket w !! key = None) ->
  safe (tasks_for self directory skip_existing image_files) ->
  workers = 1 \/ (1 <= workers /\ 1 <= batch_size) ->
  exists w',
    ImageUploader.upload_directory self schedule directory skip_existing workers
      batch_size w = (inr tt, w')
    /\ the_stats w'
       = mk_stats (Z.of_nat (length image_files))
           (successful_uploads (the_stats w) + Z.of_nat (length image_files))
           (failed_uploads (the_stats w))
           (skipped_files (the_stats w)
            + Z.of_nat (n_skips (pending has F
                                   (tasks_for self directory skip_existing image_files))))
    /\ length (puts (calls w'))
       = (length (puts (calls w))
          + n_puts (pending has F (tasks_for self directory skip_existing image_files)))%nat
    /\ (forall key,
          (forall obj,
             ~ In (EPut key obj)
                 (pending has F (tasks_for self directory skip_existing image_files))) ->
          bucket w' !! key = bucket w !! key)
    /\ (forall key obj,
          In (EPut key obj)
             (pending has F (tasks_for self directory skip_existing image_files)) ->
          bucket w' !! key = Some obj).
Proof.
  intros safe_advance safe_delete safe_clear safe_app Hscan Hw Hok Hone Habs Hsafe Hparams.
  assert (Hnil : safe []) by apply (safe_app [] _ Hsafe).
  destruct (get_image_files_found self directory w image_files Hscan) as [[entries Hdir] _].
  destruct (run_get_image_files directory
              (add_log (Info_starting directory skip_existing workers) w) entries Hdir)
    as (l & Hrun & _).
  assert (Hl : Path.sorted l = image_files).
  { rewrite (get_image_files_dirs directory w
               (add_log (Info_starting directory skip_existing workers) w) eq_refl) in Hscan.
    rewrite Hrun in Hscan. simpl in Hscan. congruence. }
  unfold ImageUploader.upload_directory. rewrite run_bind, Hrun.
  rewrite run_bind, run_perform. simpl run. rewrite Hl. clear Hl Hrun.
  set (w0 := set_stats _ _).
  assert (Hw0 : quiet has F w0) by (destruct Hw as (? & ? & ?); split_and!; auto).
  assert (Habs0 : forall key,
            In (EHead key)
               (pending has F (tasks_for self directory skip_existing image_files)) ->
            bucket w0 !! key = None) by exact Habs.
  assert (Hinv : forall w3,
             quiet_inv has F safe
               (pending has F (tasks_for self directory skip_existing image_files))
               (Z.of_nat (length image_files)) w0 [] w3 ->
             the_stats w3
             = mk_stats (Z.of_nat (length image_files))
                 (successful_uploads (the_stats w) + Z.of_nat (length image_files))
                 (failed_uploads (the_stats w))
                 (skipped_files (the_stats w)
                  + Z.of_nat (n_skips (pending has F
                                         (tasks_for self directory skip_existing
                                            image_files))))
             /\ length (puts (calls w3))
                = (length (puts (calls w))
                   + n_puts (pending has F
                               (tasks_for self directory skip_existing image_files)))%nat
             /\ (forall key,
                   (forall obj,
                      ~ In (EPut key obj)
                          (pending has F
                             (tasks_for self directory skip_existing image_files))) ->
                   bucket w3 !! key = bucket w !! key)
             /\ (forall key obj,
                   In (EPut key obj)
                      (pending has F (tasks_for self directory skip_existing image_files)) ->
                   bucket w3 !! key = Some obj)).
  { intros w3 (_ & _ & Ht & Hfa & Hs & Hk & Hp & Ho & Hi & _ & _).
    change (pending has F []) with (@nil effect) in Hk, Hp, Hi.
    change (n_skips []) with 0%nat in Hk. change (n_puts []) with 0%nat in Hp.
    simpl in Ht, Hfa, Hs, Hk, Hp, Ho, Hi.
    split_and!.
    - destruct (the_stats w3) as [T Sc Fa K]. simpl in *. f_equal; lia.
    - lia.
    - exact Ho.
    - intros key obj Hin. destruct (Hi key obj Hin) as [Hsome | []]. exact Hsome. }
  destruct image_files as [|image_path rest].
  - eexists. split; [reflexivity|]. apply (Hinv _). simpl.
    apply (quiet_inv_add_log has F safe Warning_no_images w0 Hnil Hw0).
  - destruct (workers =? 1) eqn:Hseq.
    + rewrite upload_sequential_drain.
      eexists. split; [reflexivity|]. apply Hinv. simpl.
      pose proof (quiet_inv_drain has F safe safe_advance safe_delete safe_clear
                    _ _ w0 _ w0
                    (quiet_inv_start has F safe _ w0 Hw0 Hok Hone Habs0 Hsafe)) as Hdrain.
      rewrite tasks_for_length in Hdrain.
      set (w3 := foldl _ _ _) in *.
      assert (Hw3 : quiet has F w3) by apply Hdrain.
      assert (Hone' : one_object_per_key
                        (pending has F
                           (tasks_for self directory skip_existing (image_path :: rest))
                         ++ [])) by (by rewrite app_nil_r).
      pose proof (quiet_inv_trans has F safe _ _ _ _ _ _ _ Hone' Hdrain
                    (quiet_inv_add_log has F safe (Info_summary (the_stats w3)) w3
                       Hnil Hw3)) as H.
      rewrite app_nil_r, Z.add_0_r in H. exact H.
    + apply Z.eqb_neq in Hseq. destruct Hparams as [? | [Hworkers Hbatch]]; [lia|].
      unfold ImageUploader._upload_concurrent. cbv zeta.
      replace (batch_size =? 0) with false by (symmetry; apply Z.eqb_neq; lia).
      set (w1 := add_log _ w0).
      assert (Hw1 : quiet has F w1) by (destruct Hw0 as (? & ? & ?); split_and!; auto).
      pose proof (batch_loop_quiet self has F directory skip_existing safe
                    safe_advance safe_delete safe_clear safe_app
                    (image_path :: rest) workers batch_size
                    (ImageUploader.range0 (Z.of_nat (length (image_path :: rest)))
                       batch_size)
                    Hworkers schedule w1 Hw1) as Hloop.
      rewrite (batches_concat (image_path :: rest) batch_size Hbatch) in Hloop.
      specialize (Hloop Hok Hone Habs0 Hsafe).
      destruct (batch_loop_returns self directory skip_existing (image_path :: rest)
                  workers batch_size
                  (ImageUploader.range0 (Z.of_nat (length (image_path :: rest)))
                     batch_size)
                  Hworkers schedule w1) as [w3 Hret].
      rewrite Hret in Hloop |- *. cbn [snd] in Hloop.
      eexists. split; [reflexivity|]. apply Hinv. simpl.
      assert (Hw3 : quiet has F w3) by apply Hloop.
      assert (Hone' : one_object_per_key
                        (([] ++ pending has F
                                  (tasks_for self directory skip_existing
                                     (image_path :: rest))) ++ []))
        by (by rewrite app_nil_r).
      pose proof (quiet_inv_trans has F safe _ _ _ _ _ _ _ Hone'
                    (quiet_inv_trans has F safe [] _ _ _ _ _ _ Hone
                       (quiet_inv_add_log has F safe
                          (Info_processing (Z.of_nat (length (image_path :: rest)))
                             workers batch_size) w0 Hnil Hw0) Hloop)
                    (quiet_inv_add_log has F safe (Info_summary (the_stats w3)) w3
                       Hnil Hw3)) as H.
      rewrite app_nil_r in H. simpl app in H.
      replace (0 + Z.of_nat (length (image_path :: rest)) + 0)
        with (Z.of_nat (length (image_path :: rest))) in H by lia.
      exact H.
Qed.

(** *** Tasks that look for no missing key *)

Section NoHeads.

Variable has : string -> bool.
Variable F : gmap string local_file.

Lemma no_heads_advance (tasks1 tasks2 : list ImageUploader.task) (image_path : Path.t)
    (p p' : prog (bool * bool)) (r : Py.exn + bool * bool) (l1 l' : list effect) :
  no_heads has F (tasks1 ++ (image_path, p) :: tasks2) ->
  quiet_run has F p = Some (r, l1 ++ l') ->
  quiet_run has F p' = Some (r, l') ->
  no_heads has F (tasks1 ++ (image_path, p') :: tasks2).
Proof.
  intros Hno Hrun Hrun' key Hin. apply (Hno key).
  rewrite pending_app, pending_cons in Hin |- *. unfold plan_of in Hin |- *.
  cbn [snd] in Hin |- *. rewrite Hrun' in Hin. rewrite Hrun.
  rewrite !in_app_iff in Hin. rewrite !in_app_iff. tauto.
Qed.

Lemma no_heads_delete (tasks1 tasks2 : list ImageUploader.task)
    (tk : ImageUploader.task) :
  no_heads has F (tasks1 ++ tk :: tasks2) -> no_heads has F (tasks1 ++ tasks2).
Proof.
  intros Hno key Hin. apply (Hno key).
  rewrite pending_app in Hin. rewrite pending_app, pending_cons.
  rewrite !in_app_iff in Hin. rewrite !in_app_iff. tauto.
Qed.

Lemma no_heads_clear (tasks1 tasks2 : list ImageUploader.task) (image_path : Path.t)
    (p : prog (bool * bool)) (A B : list effect) (key : string) (obj : object) :
  no_heads has F (tasks1 ++ (image_path, p) :: tasks2) ->
  plan_of has F p = A ++ EPut key obj :: B ->
  ~ In (EHead key) (pending has F tasks1 ++ B ++ pending has F tasks2).
Proof.
  intros Hno Hplan Hin. apply (Hno key).
  rewrite pending_app, pending_cons. cbn [snd]. rewrite Hplan.
  rewrite !in_app_iff in Hin. rewrite !in_app_iff. simpl. tauto.
Qed.

Lemma no_heads_app (tasks1 tasks2 : list ImageUploader.task) :
  no_heads has F (tasks1 ++ tasks2) -> no_heads has F tasks1 /\ no_heads has F tasks2.
Proof.
  intros Hno. split; intros key Hin; apply (Hno key); rewrite pending_app, in_app_iff; auto.
Qed.

End NoHeads.

(** *** The plans of the tasks of a run *)

Lemma in_pending (has : string -> bool) (F : gmap string local_file)
    (self : ImageUploader.t) (base_dir : string) (skip_existing : bool)
    (image_files : list Path.t) (e : effect) :
  In e (pending has F (tasks_for self base_dir skip_existing image_files)) <->
  exists image_path,
    In image_path image_files
    /\ In e (plan_of has F
               (ImageUploader.process_and_upload_image self image_path base_dir
                  skip_existing)).
Proof.
  unfold pending, tasks_for. rewrite in_flat_map. split.
  - intros (tk & Htk & He). apply in_map_iff in Htk as (image_path & <- & Hin). eauto.
  - intros (image_path & Hin & He).
    exists (image_path,
            ImageUploader.process_and_upload_image self image_path base_dir skip_existing).
    split; [|exact He]. apply in_map_iff. eauto.
Qed.

Lemma pending_counts (has : string -> bool) (F : gmap string local_file)
    (self : ImageUploader.t) (base_dir : string) (skip_existing : bool)
    (a b : nat) (image_files : list Path.t) :
  (forall image_path, In image_path image_files ->
     n_puts (plan_of has F (ImageUploader.process_and_upload_image self image_path base_dir
                              skip_existing)) = a
     /\ n_skips (plan_of has F (ImageUploader.process_and_upload_image self image_path
                                  base_dir skip_existing)) = b) ->
  n_puts (pending has F (tasks_for self base_dir skip_existing image_files))
  = (a * length image_files)%nat
  /\ n_skips (pending has F (tasks_for self base_dir skip_existing image_files))
     = (b * length image_files)%nat.
Proof.
  induction image_files as [|image_path rest IH]; intros Hall.
  - unfold pending, n_puts, n_skips. simpl. lia.
  - destruct (Hall image_path (or_introl eq_refl)) as [Ha Hb].
    destruct (IH (fun q Hq => Hall q (or_intror Hq))) as [IHa IHb].
    change (tasks_for self base_dir skip_existing (image_path :: rest))
      with ((image_path,
             ImageUploader.process_and_upload_image self image_path base_dir skip_existing)
            :: tasks_for self base_dir skip_existing rest).
    rewrite pending_cons, n_puts_app, n_skips_app. cbn [snd length]. lia.
Qed.

Lemma tasks_for_ok (has : string -> bool) (F : gmap string local_file)
    (self : ImageUploader.t) (base_dir : string) (skip_existing : bool)
    (image_files : list Path.t) :
  (forall image_path, In image_path image_files ->
     exists l,
       quiet_run has F (ImageUploader.process_and_upload_image self image_path base_dir
                          skip_existing) = Some (inr (true, true), l)) ->
  Forall (task_ok has F) (tasks_for self base_dir skip_existing image_files).
Proof.
  intros Hall. apply Forall_forall. intros tk Hin.
  apply (proj1 (list_elem_of_In _ _)) in Hin.
  apply in_map_iff in Hin as (image_path & <- & Hin). by apply Hall.
Qed.

(** *** The keys *)

Lemma original_key_inj (self : ImageUploader.t) (p q : list string) :
  ImageUploader.original_key_of self p = ImageUploader.original_key_of self q ->
  Path.as_posix p = Path.as_posix q.
Proof.
  unfold ImageUploader.original_key_of. intros H.
  apply append_inj_l in H. by apply (append_inj_l "/original/") in H.
Qed.

Lemma thumbnail_key_inj (self : ImageUploader.t) (p q : list string) :
  ImageUploader.thumbnail_key_of self p = ImageUploader.thumbnail_key_of self q ->
  Path.as_posix p = Path.as_posix q.
Proof.
  unfold ImageUploader.thumbnail_key_of. intros H.
  apply append_inj_l in H. by apply (append_inj_l "/thumbnail/") in H.
Qed.

Lemma key_namespaces_apart (self : ImageUploader.t) (p q : list string) :
  ImageUploader.original_key_of self p <> ImageUploader.thumbnail_key_of self q.
Proof.
  unfold ImageUploader.original_key_of, ImageUploader.thumbnail_key_of.
  intros H. apply append_inj_l in H. discriminate H.
Qed.

(** Below the same root, the relative path tells the whole path. *)
Lemma str_of_as_posix (p q : Path.t) :
  Path.root p = Path.root q ->
  Path.parts p <> [] -> Path.parts q <> [] ->
  Path.as_posix (Path.parts p) = Path.as_posix (Path.parts q) ->
  Path.str p = Path.str q.
Proof.
  destruct p as [rp [|x xs]], q as [rq [|y ys]]; simpl; try congruence.
  intros -> _ _. unfold Path.str, Path.as_posix. simpl. intros ->. reflexivity.
Qed.

(** The files that [get_image_files] answers have a name. *)
Lemma get_image_files_parts (self : ImageUploader.t) (directory : string) (w : world)
    (image_files : list Path.t) :
  fst (run (ImageUploader.get_image_files directory) w) = inr image_files ->
  forall image_path, In image_path image_files -> Path.parts image_path <> [].
Proof.
  intros Hscan image_path Hin Hparts.
  destruct (get_image_files_found self directory w image_files Hscan) as [[entries Hdir] _].
  destruct (run_get_image_files directory w entries Hdir) as (l & Hrun & Hmem).
  rewrite Hrun in Hscan. injection Hscan as <-.
  apply sorted_In, Hmem in Hin. destruct Hin as [_ Hext].
  destruct image_path as [r ps]. simpl in Hparts. subst ps.
  revert Hext. apply (bool_decide_eq_false_1 _). vm_compute. reflexivity.
Qed.

(** X11. A rerun over a directory whose images all have both objects in
    the bucket, against a store that raises nothing: with [skip_existing],
    on one worker or on a pool under any schedule, [upload_directory]
    writes nothing, leaves the bucket as it was, and counts every file as
    skipped, and as successful as well. *)
Theorem rerun_skips_every_file
    (self : ImageUploader.t) (schedule : list nat) (directory : string)
    (workers batch_size : Z) (w : world) (image_files : list Path.t) :
  fst (run (ImageUploader.get_image_files directory) w) = inr image_files ->
  faults w = [] ->
  (forall image_path, In image_path image_files ->
     is_Some (bucket w !! ImageUploader.original_key_of self (Path.parts image_path))
     /\ is_Some (bucket w !! ImageUploader.thumbnail_key_of self (Path.parts image_path))) ->
  workers = 1 \/ (1 <= workers /\ 1 <= batch_size) ->
  exists w',
    ImageUploader.upload_directory self schedule directory true workers batch_size w
      = (inr tt, w')
    /\ bucket w' = bucket w
    /\ length (puts (calls w')) = length (puts (calls w))
    /\ the_stats w'
       = mk_stats (Z.of_nat (length image_files))
           (successful_uploads (the_stats w) + Z.of_nat (length image_files))
           (failed_uploads (the_stats w))
           (skipped_files (the_stats w) + Z.of_nat (length image_files)).
Proof.
  intros Hscan Hfaults Hpresent Hparams.
  set (has := fun key => bool_decide (is_Some (bucket w !! key))).
  destruct (get_image_files_found self directory w image_files Hscan) as [_ Hroot].
  assert (Hplan : forall image_path, In image_path image_files ->
            quiet_run has (files w)
              (ImageUploader.process_and_upload_image self image_path directory true)
            = Some (inr (true, true), [ESkip])).
  { intros image_path Hin. destruct (Hpresent image_path Hin) as [Ho Ht].
    apply quiet_run_process_skips; [by apply Hroot | |]; by apply bool_decide_eq_true_2. }
  assert (Hnone : forall e,
            In e (pending has (files w) (tasks_for self directory true image_files)) ->
            e = ESkip).
  { intros e He. apply in_pending in He as (image_path & Hin & He).
    unfold plan_of in He. rewrite (Hplan image_path Hin) in He.
    destruct He as [<- | []]. reflexivity. }
  destruct (pending_counts has (files w) self directory true 0 1 image_files)
    as [Hputs Hskips].
  { intros image_path Hin. unfold plan_of. rewrite (Hplan image_path Hin).
    split; reflexivity. }
  destruct (upload_directory_quiet self has (files w) (no_heads has (files w)) schedule
              directory true workers batch_size w image_files
              (no_heads_advance has (files w)) (no_heads_delete has (files w))
              (no_heads_clear has (files w)) (no_heads_app has (files w)) Hscan)
    as (w' & Hrun & Hstats & Hcalls & Hsame & _).
  - split_and!; [exact Hfaults | reflexivity |].
    intros key Hkey. by apply bool_decide_eq_true_1 in Hkey.
  - apply tasks_for_ok. intros image_path Hin. eauto.
  - intros key obj1 obj2 H1 _. apply Hnone in H1. discriminate H1.
  - intros key Hin. apply Hnone in Hin. discriminate Hin.
  - intros key Hin. apply Hnone in Hin. discriminate Hin.
  - exact Hparams.
  - exists w'. rewrite Hputs in Hcalls. rewrite Hskips in Hstats.
    split_and!; [exact Hrun | | lia | rewrite Hstats; f_equal; lia].
    apply map_eq. intros key. apply Hsame.
    intros obj Hin. apply Hnone in Hin. discriminate Hin.
Qed.

Lemma rerun_skips_every_file_witness :
  exists w',
    ImageUploader.upload_directory Scenario.uploader [2; 0; 1; 1; 0]%nat "imgs" true 3 2
      Scenario.rerun = (inr tt, w')
    /\ bucket w' = bucket Scenario.rerun
    /\ length (puts (calls w')) = length (puts (calls Scenario.rerun))
    /\ the_stats w'
       = mk_stats (Z.of_nat (length Scenario.three_paths))
           (successful_uploads (the_stats Scenario.rerun)
            + Z.of_nat (length Scenario.three_paths))
           (failed_uploads (the_stats Scenario.rerun))
           (skipped_files (the_stats Scenario.rerun)
            + Z.of_nat (length Scenario.three_paths)).
Proof.
  apply (rerun_skips_every_file Scenario.uploader [2; 0; 1; 1; 0]%nat "imgs" 3 2
           Scenario.rerun Scenario.three_paths).
  - vm_compute. reflexivity.
  - reflexivity.
  - intros image_path [<- | [<- | [<- | []]]]; split;
      apply (bool_decide_eq_true_1 _); vm_compute; reflexivity.
  - right. lia.
Defined.

(** *** Runs that upload every file *)

Lemma n_puts_heads (keys : list string) : n_puts (List.map EHead keys) = 0%nat.
Proof. induction keys as [|key keys IH]; [reflexivity | exact IH]. Qed.

Lemma n_skips_heads (keys : list string) : n_skips (List.map EHead keys) = 0%nat.
Proof. induction keys as [|key keys IH]; [reflexivity | exact IH]. Qed.

(** A run whose every task looks for the keys [heads] and finds none, then
    writes the two objects of its file. *)
Lemma uploading_run (self : ImageUploader.t) (has : string -> bool)
    (safe : list ImageUploader.task -> Prop) (heads : Path.t -> list string)
    (schedule : list nat) (directory : string) (skip_existing : bool)
    (workers batch_size : Z) (w : world) (image_files : list Path.t) :
  (forall (tasks1 tasks2 : list ImageUploader.task) (image_path : Path.t)
          (p p' : prog (bool * bool)) (r : Py.exn + bool * bool) (l1 l' : list effect),
     safe (tasks1 ++ (image_path, p) :: tasks2) ->
     quiet_run has (files w) p = Some (r, l1 ++ l') ->
     quiet_run has (files w) p' = Some (r, l') ->
     safe (tasks1 ++ (image_path, p') :: tasks2)) ->
  (forall (tasks1 tasks2 : list ImageUploader.task) (tk : ImageUploader.task),
     safe (tasks1 ++ tk :: tasks2) -> safe (tasks1 ++ tasks2)) ->
  (forall (tasks1 tasks2 : list ImageUploader.task) (image_path : Path.t)
          (p : prog (bool * bool)) (A B : list effect) (key : string) (obj : object),
     safe (tasks1 ++ (image_path, p) :: tasks2) ->
     plan_of has (files w) p = A ++ EPut key obj :: B ->
     ~ In (EHead key) (pending has (files w) tasks1 ++ B ++ pending has (files w) tasks2)) ->
  (forall tasks1 tasks2 : list ImageUploader.task,
     safe (tasks1 ++ tasks2) -> safe tasks1 /\ safe tasks2) ->
  fst (run (ImageUploader.get_image_files directory) w) = inr image_files ->
  quiet has (files w) w ->
  (forall image_path, In image_path image_files ->
     exists oo ot,
       expected_original self (files w) image_path = Some oo
       /\ expected_thumbnail self (files w) image_path = Some ot
       /\ quiet_run has (files w)
            (ImageUploader.process_and_upload_image self image_path directory
               skip_existing)
          = Some (inr (true, true),
                  List.map EHead (heads image_path)
                  ++ [EPut (ImageUploader.original_key_of self (Path.parts image_path)) oo;
                      EPut (ImageUploader.thumbnail_key_of self (Path.parts image_path))
                        ot])) ->
  (forall image_path key,
     In image_path image_files -> In key (heads image_path) -> bucket w !! key = None) ->
  safe (tasks_for self directory skip_existing image_files) ->
  workers = 1 \/ (1 <= workers /\ 1 <= batch_size) ->
  exists w',
    ImageUploader.upload_directory self schedule directory skip_existing workers
      batch_size w = (inr tt, w')
    /\ the_stats w'
       = mk_stats (Z.of_nat (length image_files))
           (successful_uploads (the_stats w) + Z.of_nat (length image_files))
           (failed_uploads (the_stats w))
           (skipped_files (the_stats w))
    /\ length (puts (calls w')) = (length (puts (calls w)) + 2 * length image_files)%nat
    /\ (forall image_path, In image_path image_files ->
          bucket w' !! ImageUploader.original_key_of self (Path.parts image_path)
          = expected_original self (files w) image_path
          /\ bucket w' !! ImageUploader.thumbnail_key_of self (Path.parts image_path)
             = expected_thumbnail self (files w) image_path)
    /\ (forall key,
          (forall image_path, In image_path image_files ->
             key <> ImageUploader.original_key_of self (Path.parts image_path)
             /\ key <> ImageUploader.thumbnail_key_of self (Path.parts image_path)) ->
          bucket w' !! key = bucket w !! key).
Proof.
  intros safe_advance safe_delete safe_clear safe_app Hscan Hw Hplan Habsent Hsafe Hparams.
  destruct (get_image_files_found self directory w image_files Hscan) as [_ Hroot].
  pose proof (get_image_files_parts self directory w image_files Hscan) as Hparts.
  assert (Hsame : forall p q, In p image_files -> In q image_files ->
            Path.as_posix (Path.parts p) = Path.as_posix (Path.parts q) ->
            expected_original self (files w) p = expected_original self (files w) q
            /\ expected_thumbnail self (files w) p = expected_thumbnail self (files w) q).
  { intros p q Hp Hq Heq.
    assert (Hstr : Path.str p = Path.str q).
    { apply str_of_as_posix; auto. by rewrite (Hroot p Hp), (Hroot q Hq). }
    unfold expected_original, expected_thumbnail, ImageUploader.get_content_type.
    by rewrite Hstr. }
  assert (Hin_plan : forall key obj,
            In (EPut key obj)
               (pending has (files w) (tasks_for self directory skip_existing image_files))
            <-> exists image_path,
                  In image_path image_files
                  /\ ((key = ImageUploader.original_key_of self (Path.parts image_path)
                       /\ expected_original self (files w) image_path = Some obj)
                      \/ (key = ImageUploader.thumbnail_key_of self (Path.parts image_path)
                          /\ expected_thumbnail self (files w) image_path = Some obj))).
  { intros key obj. rewrite in_pending. split.
    - intros (image_path & Hin & He). exists image_path. split; [exact Hin|].
      destruct (Hplan image_path Hin) as (oo & ot & Hoo & Hot & Hrun).
      unfold plan_of in He. rewrite Hrun in He. apply in_app_iff in He as [He | He].
      + apply in_map_iff in He as (k & [=] & _).
      + destruct He as [[= <- <-] | [[= <- <-] | []]]; auto.
    - intros (image_path & Hin & He). exists image_path. split; [exact Hin|].
      destruct (Hplan image_path Hin) as (oo & ot & Hoo & Hot & Hrun).
      unfold plan_of. rewrite Hrun. apply in_app_iff. right.
      destruct He as [[-> He] | [-> He]].
      + left. congruence.
      + right. left. congruence. }
  destruct (pending_counts has (files w) self directory skip_existing 2 0 image_files)
    as [Hputs Hskips].
  { intros image_path Hin. destruct (Hplan image_path Hin) as (oo & ot & _ & _ & Hrun).
    unfold plan_of. rewrite Hrun.
    rewrite n_puts_app, n_skips_app, n_puts_heads, n_skips_heads. split; reflexivity. }
  destruct (upload_directory_quiet self has (files w) safe schedule directory
              skip_existing workers batch_size w image_files
              safe_advance safe_delete safe_clear safe_app Hscan Hw)
    as (w' & Hrun & Hstats & Hcalls & Hframe & Hdone).
  - apply tasks_for_ok. intros image_path Hin.
    destruct (Hplan image_path Hin) as (oo & ot & _ & _ & Hrun). eauto.
  - intros key obj1 obj2 H1 H2.
    apply Hin_plan in H1 as (p & Hp & H1). apply Hin_plan in H2 as (q & Hq & H2).
    destruct H1 as [[-> H1] | [-> H1]], H2 as [[Hk H2] | [Hk H2]].
    + apply original_key_inj in Hk. destruct (Hsame p q Hp Hq Hk) as [Ho _]. congruence.
    + destruct (key_namespaces_apart self _ _ Hk).
    + symmetry in Hk. destruct (key_namespaces_apart self _ _ Hk).
    + apply thumbnail_key_inj in Hk. destruct (Hsame p q Hp Hq Hk) as [_ Ht]. congruence.
  - intros key Hin. apply in_pending in Hin as (image_path & Hin & He).
    destruct (Hplan image_path Hin) as (oo & ot & _ & _ & Hrun).
    unfold plan_of in He. rewrite Hrun in He. apply in_app_iff in He as [He | He].
    + apply in_map_iff in He as (k & [= ->] & Hk). by apply (Habsent image_path).
    + destruct He as [[=] | [[=] | []]].
  - exact Hsafe.
  - exact Hparams.
  - exists w'. rewrite Hputs in Hcalls. rewrite Hskips in Hstats.
    split_and!; [exact Hrun | rewrite Hstats; f_equal; lia | lia | |].
    + intros image_path Hin.
      destruct (Hplan image_path Hin) as (oo & ot & Hoo & Hot & _).
      rewrite Hoo, Hot. split; apply Hdone, Hin_plan; exists image_path; auto.
    + intros key Hkey. apply Hframe. intros obj Hin.
      apply Hin_plan in Hin as (image_path & Hin & He).
      destruct (Hkey image_path Hin) as [Ho Ht]. destruct He as [[-> _] | [-> _]]; congruence.
Qed.

(** What thumbnail and bytes an uploadable file has. *)
Lemma uploadable_inv (self : ImageUploader.t) (F : gmap string local_file)
    (image_path : Path.t) :
  uploadable self F image_path ->
  exists f bytes img thumbnail,
    F !! Path.str image_path = Some f
    /\ file_bytes f = inr bytes
    /\ file_image f = inr img
    /\ ImageUploader.render_thumbnail img = inr thumbnail
    /\ expected_original self F image_path
       = Some (mk_object (RawBytes bytes) (ImageUploader.get_content_type self image_path)
                 (ImageUploader.acl self))
    /\ expected_thumbnail self F image_path
       = Some (mk_object (JpegData thumbnail) "image/jpeg" (ImageUploader.acl self)).
Proof.
  intros [[oo Hoo] [ot Hot]]. unfold expected_original, expected_thumbnail in *.
  destruct (F !! Path.str image_path) as [f|] eqn:Hf; [|discriminate Hoo].
  destruct (file_bytes f) as [e | bytes] eqn:Hb; [discriminate Hoo|].
  destruct (file_image f) as [e | img] eqn:Hi; [discriminate Hot|].
  destruct (ImageUploader.render_thumbnail img) as [e | thumbnail] eqn:Hr;
    [discriminate Hot|].
  exists f, bytes, img, thumbnail. auto 10.
Qed.

(** X12. A run with [skip_existing = False] over a directory whose images
    can all be read and rendered, against a store that raises nothing: on
    one worker or on a pool under any schedule, [upload_directory] counts
    every file as successful and none as failed or skipped, sends two
    [put_object] per file, leaves under the two keys of each file its
    bytes with the guessed content type and its thumbnail as
    [image/jpeg], and leaves every other key as it was. *)
Theorem forced_run_uploads_every_file
    (self : ImageUploader.t) (schedule : list nat) (directory : string)
    (workers batch_size : Z) (w : world) (image_files : list Path.t) :
  fst (run (ImageUploader.get_image_files directory) w) = inr image_files ->
  faults w = [] ->
  (forall image_path, In image_path image_files -> uploadable self (files w) image_path) ->
  workers = 1 \/ (1 <= workers /\ 1 <= batch_size) ->
  exists w',
    ImageUploader.upload_directory self schedule directory false workers batch_size w
      = (inr tt, w')
    /\ the_stats w'
       = mk_stats (Z.of_nat (length image_files))
           (successful_uploads (the_stats w) + Z.of_nat (length image_files))
           (failed_uploads (the_stats w))
           (skipped_files (the_stats w))
    /\ length (puts (calls w')) = (length (puts (calls w)) + 2 * length image_files)%nat
    /\ (forall image_path, In image_path image_files ->
          bucket w' !! ImageUploader.original_key_of self (Path.parts image_path)
          = expected_original self (files w) image_path
          /\ bucket w' !! ImageUploader.thumbnail_key_of self (Path.parts image_path)
             = expected_thumbnail self (files w) image_path)
    /\ (forall key,
          (forall image_path, In image_path image_files ->
             key <> ImageUploader.original_key_of self (Path.parts image_path)
             /\ key <> ImageUploader.thumbnail_key_of self (Path.parts image_path)) ->
          bucket w' !! key = bucket w !! key).
Proof.
  intros Hscan Hfaults Hup Hparams.
  set (has := fun _ : string => false).
  destruct (get_image_files_found self directory w image_files Hscan) as [_ Hroot].
  assert (Hplan : forall image_path, In image_path image_files ->
            exists oo ot,
              expected_original self (files w) image_path = Some oo
              /\ expected_thumbnail self (files w) image_path = Some ot
              /\ quiet_run has (files w)
                   (ImageUploader.process_and_upload_image self image_path directory false)
                 = Some (inr (true, true),
                         List.map EHead []
                         ++ [EPut (ImageUploader.original_key_of self (Path.parts image_path))
                               oo;
                             EPut (ImageUploader.thumbnail_key_of self
                                     (Path.parts image_path)) ot])).
  { intros image_path Hin.
    destruct (uploadable_inv self (files w) image_path (Hup image_path Hin))
      as (f & bytes & img & thumbnail & Hf & Hb & Hi & Hr & Hoo & Hot).
    eexists _, _. split; [exact Hoo|]. split; [exact Hot|].
    apply (quiet_run_process_uploads self has (files w) image_path directory f bytes img
             thumbnail); auto. }
  apply (uploading_run self has (no_heads has (files w)) (fun _ => []) schedule directory
           false workers batch_size w image_files
           (no_heads_advance has (files w)) (no_heads_delete has (files w))
           (no_heads_clear has (files w)) (no_heads_app has (files w)) Hscan).
  - split_and!; [exact Hfaults | reflexivity | discriminate].
  - exact Hplan.
  - intros image_path key _ [].
  - intros key Hin. apply in_pending in Hin as (image_path & Hin & He).
    destruct (Hplan image_path Hin) as (oo & ot & _ & _ & Hrun).
    unfold plan_of in He. rewrite Hrun in He.
    destruct He as [[=] | [[=] | []]].
  - exact Hparams.
Qed.

Lemma forced_run_uploads_every_file_witness :
  exists w',
    ImageUploader.upload_directory Scenario.uploader [2; 0; 1; 1; 0]%nat "imgs" false 3 2
      Scenario.first_run = (inr tt, w')
    /\ the_stats w'
       = mk_stats (Z.of_nat (length Scenario.three_paths))
           (successful_uploads (the_stats Scenario.first_run)
            + Z.of_nat (length Scenario.three_paths))
           (failed_uploads (the_stats Scenario.first_run))
           (skipped_files (the_stats Scenario.first_run))
    /\ length (puts (calls w'))
       = (length (puts (calls Scenario.first_run)) + 2 * length Scenario.three_paths)%nat
    /\ (forall image_path, In image_path Scenario.three_paths ->
          bucket w' !! ImageUploader.original_key_of Scenario.uploader
                         (Path.parts image_path)
          = expected_original Scenario.uploader (files Scenario.first_run) image_path
          /\ bucket w' !! ImageUploader.thumbnail_key_of Scenario.uploader
                            (Path.parts image_path)
             = expected_thumbnail Scenario.uploader (files Scenario.first_run) image_path)
    /\ (forall key,
          (forall image_path, In image_path Scenario.three_paths ->
             key <> ImageUploader.original_key_of Scenario.uploader (Path.parts image_path)
             /\ key <> ImageUploader.thumbnail_key_of Scenario.uploader
                         (Path.parts image_path)) ->
          bucket w' !! key = bucket Scenario.first_run !! key).
Proof.
  apply (forced_run_uploads_every_file Scenario.uploader [2; 0; 1; 1; 0]%nat "imgs" 3 2
           Scenario.first_run Scenario.three_paths).
  - vm_compute. reflexivity.
  - reflexivity.
  - intros image_path [<- | [<- | [<- | []]]]; split; vm_compute; eauto.
  - right. lia.
Defined.

(** *** A first run *)

Lemma quiet_run_file_exists_absent (self : ImageUploader.t) (has : string -> bool)
    (F : gmap string local_file) (key : string) :
  has key = false ->
  quiet_run has F (ImageUploader.file_exists_in_spaces self key)
  = Some (inr false, [EHead key]).
Proof.
  intros Hkey. unfold ImageUploader.file_exists_in_spaces.
  rewrite quiet_run_try_except, quiet_run_bind. simpl. rewrite Hkey. reflexivity.
Qed.

(** With [skip_existing], a file that can be read and rendered and whose
    keys are not in the bucket is looked for, then written. *)
Lemma quiet_run_process_first (self : ImageUploader.t) (has : string -> bool)
    (F : gmap string local_file) (image_path : Path.t) (base_dir : string)
    (f : local_file) (bytes : string) (img : PIL.image) (thumbnail : PIL.jpeg) :
  Path.root image_path = base_dir ->
  has (ImageUploader.original_key_of self (Path.parts image_path)) = false ->
  has (ImageUploader.thumbnail_key_of self (Path.parts image_path)) = false ->
  F !! Path.str image_path = Some f ->
  file_bytes f = inr bytes ->
  file_image f = inr img ->
  ImageUploader.render_thumbnail img = inr thumbnail ->
  quiet_run has F (ImageUploader.process_and_upload_image self image_path base_dir true)
  = Some (inr (true, true),
          List.map EHead
            [ImageUploader.original_key_of self (Path.parts image_path);
             ImageUploader.thumbnail_key_of self (Path.parts image_path)]
          ++ [EPut (ImageUploader.original_key_of self (Path.parts image_path))
                (mk_object (RawBytes bytes) (ImageUploader.get_content_type self image_path)
                   (ImageUploader.acl self));
              EPut (ImageUploader.thumbnail_key_of self (Path.parts image_path))
                (mk_object (JpegData thumbnail) "image/jpeg" (ImageUploader.acl self))]).
Proof.
  intros Hroot Ho Ht Hf Hbytes Himg Hrender.
  unfold ImageUploader.process_and_upload_image, Path.relative_to.
  rewrite Hroot, String.eqb_refl.
  rewrite quiet_run_bind. cbn [lift quiet_run]. rewrite after_nil.
  rewrite quiet_run_bind. unfold ImageUploader.existence_checks.
  rewrite quiet_run_bind, (quiet_run_file_exists_absent _ _ _ _ Ho). cbn [after].
  rewrite quiet_run_bind, (quiet_run_file_exists_absent _ _ _ _ Ht).
  cbn [after quiet_run andb app].
  rewrite quiet_run_bind. unfold ImageUploader.upload_original. cbn [negb orb].
  rewrite (quiet_run_upload_file self has F (FilePath image_path) _ _ 3 (RawBytes bytes))
    by (eauto 10; lia).
  cbn [after]. rewrite quiet_run_bind.
  unfold ImageUploader.upload_thumbnail. cbn [negb orb].
  rewrite quiet_run_bind, (quiet_run_create_thumbnail has F _ _ _ _ Hf Himg Hrender).
  cbn [after].
  rewrite (quiet_run_upload_file self has F (BytesIO thumbnail) _ _ 3 (JpegData thumbnail))
    by (auto; lia).
  reflexivity.
Qed.

Lemma first_upload_trace_split (self : ImageUploader.t) (F : gmap string local_file)
    (image_path : Path.t) (A B : list effect) (key : string) (obj : object) :
  first_upload_trace self F image_path = A ++ EPut key obj :: B ->
  (key = ImageUploader.original_key_of self (Path.parts image_path)
   \/ key = ImageUploader.thumbnail_key_of self (Path.parts image_path))
  /\ forall key', ~ In (EHead key') B.
Proof.
  unfold first_upload_trace.
  destruct (expected_original self F image_path) as [oo|];
    [destruct (expected_thumbnail self F image_path) as [ot|]|];
    try (destruct A; discriminate).
  destruct A as [|e1 [|e2 [|e3 [|e4 A]]]]; simpl; intros [= ]; subst;
    try (destruct A; discriminate).
  - split; [auto|]. intros key' [[=] | []].
  - split; [auto|]. intros key' [].
Qed.

Lemma first_upload_trace_heads (self : ImageUploader.t) (F : gmap string local_file)
    (image_path : Path.t) (key : string) :
  In (EHead key) (first_upload_trace self F image_path) ->
  key = ImageUploader.original_key_of self (Path.parts image_path)
  \/ key = ImageUploader.thumbnail_key_of self (Path.parts image_path).
Proof.
  unfold first_upload_trace.
  destruct (expected_original self F image_path) as [oo|];
    [destruct (expected_thumbnail self F image_path) as [ot|]|]; try (intros []; fail).
  intros [[= <-] | [[= <-] | [[=] | [[=] | []]]]]; auto.
Qed.

Lemma same_relative_path (self : ImageUploader.t) (p q : list string) (key : string) :
  key = ImageUploader.original_key_of self p \/ key = ImageUploader.thumbnail_key_of self p ->
  key = ImageUploader.original_key_of self q \/ key = ImageUploader.thumbnail_key_of self q ->
  Path.as_posix p = Path.as_posix q.
Proof.
  intros [-> | ->] [Hq | Hq].
  - by apply (original_key_inj self).
  - destruct (key_namespaces_apart self _ _ Hq).
  - symmetry in Hq. destruct (key_namespaces_apart self _ _ Hq).
  - by apply (thumbnail_key_inj self).
Qed.

Lemma NoDup_middle {A : Type} (l k : list A) (a : A) :
  NoDup (l ++ a :: k) -> NoDup (l ++ k) /\ ~ In a (l ++ k).
Proof.
  intros Hnd. apply NoDup_app in Hnd as (Hl & Hlk & Hk).
  apply NoDup_cons in Hk as [Ha Hk]. split.
  - apply NoDup_app. split_and!; [exact Hl | | exact Hk].
    intros x Hx Hx'. apply (Hlk x Hx). by right.
  - intros Hin. apply in_app_iff in Hin as [Hin | Hin].
    + apply (proj2 (list_elem_of_In _ _)) in Hin. apply (Hlk a Hin). by left.
    + apply (proj2 (list_elem_of_In _ _)) in Hin. exact (Ha Hin).
Qed.

Section InStep.

Variable self : ImageUploader.t.
Variable has : string -> bool.
Variable F : gmap string local_file.

Lemma in_step_advance (tasks1 tasks2 : list ImageUploader.task) (image_path : Path.t)
    (p p' : prog (bool * bool)) (r : Py.exn + bool * bool) (l1 l' : list effect) :
  in_step self has F (tasks1 ++ (image_path, p) :: tasks2) ->
  quiet_run has F p = Some (r, l1 ++ l') ->
  quiet_run has F p' = Some (r, l') ->
  in_step self has F (tasks1 ++ (image_path, p') :: tasks2).
Proof.
  intros [Hnd Hsuf] Hrun Hrun'. split.
  - rewrite List.map_app in Hnd |- *. exact Hnd.
  - apply Forall_app in Hsuf as [Hsuf1 Hsuf2]. apply Forall_cons in Hsuf2 as [[k Hk] Hsuf2].
    apply Forall_app. split; [exact Hsuf1|]. apply Forall_cons. split; [|exact Hsuf2].
    unfold plan_of in Hk |- *. cbn [fst snd] in Hk |- *. rewrite Hrun in Hk. rewrite Hrun'.
    exists (k ++ l1). by rewrite <- app_assoc.
Qed.

Lemma in_step_delete (tasks1 tasks2 : list ImageUploader.task)
    (tk : ImageUploader.task) :
  in_step self has F (tasks1 ++ tk :: tasks2) -> in_step self has F (tasks1 ++ tasks2).
Proof.
  intros [Hnd Hsuf]. split.
  - rewrite List.map_app in Hnd |- *. simpl in Hnd. by apply NoDup_middle in Hnd as [Hnd _].
  - apply Forall_app in Hsuf as [Hsuf1 Hsuf2]. apply Forall_cons in Hsuf2 as [_ Hsuf2].
    apply Forall_app. auto.
Qed.

Lemma in_step_app (tasks1 tasks2 : list ImageUploader.task) :
  in_step self has F (tasks1 ++ tasks2) ->
  in_step self has F tasks1 /\ in_step self has F tasks2.
Proof.
  intros [Hnd Hsuf]. rewrite List.map_app in Hnd.
  apply NoDup_app in Hnd as (Hnd1 & _ & Hnd2).
  apply Forall_app in Hsuf as [Hsuf1 Hsuf2]. by repeat split.
Qed.

(** The heads still to come in a pool that is in step. *)
Lemma in_step_heads (tasks : list ImageUploader.task) (key : string) :
  Forall (fun tk : ImageUploader.task =>
            plan_of has F (snd tk) `suffix_of` first_upload_trace self F (fst tk)) tasks ->
  In (EHead key) (pending has F tasks) ->
  exists tk,
    In tk tasks
    /\ (key = ImageUploader.original_key_of self (Path.parts (fst tk))
        \/ key = ImageUploader.thumbnail_key_of self (Path.parts (fst tk))).
Proof.
  intros Hsuf Hin. unfold pending in Hin. apply in_flat_map in Hin as (tk & Htk & Hin).
  exists tk. split; [exact Htk|].
  destruct (proj1 (List.Forall_forall _ _) Hsuf tk Htk) as [k Hk].
  apply (first_upload_trace_heads self F). rewrite Hk. apply in_app_iff. auto.
Qed.

Lemma in_step_clear (tasks1 tasks2 : list ImageUploader.task) (image_path : Path.t)
    (p : prog (bool * bool)) (A B : list effect) (key : string) (obj : object) :
  in_step self has F (tasks1 ++ (image_path, p) :: tasks2) ->
  plan_of has F p = A ++ EPut key obj :: B ->
  ~ In (EHead key) (pending has F tasks1 ++ B ++ pending has F tasks2).
Proof.
  intros [Hnd Hsuf] Hplan Hin.
  apply Forall_app in Hsuf as [Hsuf1 Hsuf2]. apply Forall_cons in Hsuf2 as [[k Hk] Hsuf2].
  cbn [fst snd] in Hk. rewrite Hplan, app_assoc in Hk.
  destruct (first_upload_trace_split self F image_path _ _ _ _ Hk) as [Hkey HB].
  rewrite List.map_app in Hnd. simpl in Hnd. apply NoDup_middle in Hnd as [_ Hnd].
  assert (Hother : forall tasks,
            Forall (fun tk : ImageUploader.task =>
                      plan_of has F (snd tk) `suffix_of` first_upload_trace self F (fst tk))
                   tasks ->
            In (EHead key) (pending has F tasks) ->
            In (Path.as_posix (Path.parts image_path))
               (List.map (fun tk : ImageUploader.task => Path.as_posix (Path.parts (fst tk)))
                  tasks)).
  { intros tasks Hs Hh. destruct (in_step_heads tasks key Hs Hh) as (tk & Htk & Hkey').
    apply in_map_iff. exists tk. split; [|exact Htk].
    by apply (same_relative_path self _ _ key). }
  rewrite !in_app_iff in Hin. destruct Hin as [Hin | [Hin | Hin]].
  - apply Hnd, in_app_iff. left. by apply Hother.
  - exact (HB key Hin).
  - apply Hnd, in_app_iff. right. by apply Hother.
Qed.

End InStep.

(** X13. A first run with [skip_existing] over a directory whose images
    can all be read and rendered, have different relative paths, and have
    none of their keys in the bucket, against a store that raises nothing:
    on one worker or on a pool under any schedule, [upload_directory]
    counts every file as successful and none as failed or skipped, sends
    two [put_object] per file, leaves under the two keys of each file its
    bytes with the guessed content type and its thumbnail as
    [image/jpeg], and leaves every other key as it was. *)
Theorem first_run_uploads_every_file
    (self : ImageUploader.t) (schedule : list nat) (directory : string)
    (workers batch_size : Z) (w : world) (image_files : list Path.t) :
  fst (run (ImageUploader.get_image_files directory) w) = inr image_files ->
  faults w = [] ->
  NoDup (List.map (fun image_path => Path.as_posix (Path.parts image_path)) image_files) ->
  (forall image_path, In image_path image_files ->
     uploadable self (files w) image_path
     /\ bucket w !! ImageUploader.original_key_of self (Path.parts image_path) = None
     /\ bucket w !! ImageUploader.thumbnail_key_of self (Path.parts image_path) = None) ->
  workers = 1 \/ (1 <= workers /\ 1 <= batch_size) ->
  exists w',
    ImageUploader.upload_directory self schedule directory true workers batch_size w
      = (inr tt, w')
    /\ the_stats w'
       = mk_stats (Z.of_nat (length image_files))
           (successful_uploads (the_stats w) + Z.of_nat (length image_files))
           (failed_uploads (the_stats w))
           (skipped_files (the_stats w))
    /\ length (puts (calls w')) = (length (puts (calls w)) + 2 * length image_files)%nat
    /\ (forall image_path, In image_path image_files ->
          bucket w' !! ImageUploader.original_key_of self (Path.parts image_path)
          = expected_original self (files w) image_path
          /\ bucket w' !! ImageUploader.thumbnail_key_of self (Path.parts image_path)
             = expected_thumbnail self (files w) image_path)
    /\ (forall key,
          (forall image_path, In image_path image_files ->
             key <> ImageUploader.original_key_of self (Path.parts image_path)
             /\ key <> ImageUploader.thumbnail_key_of self (Path.parts image_path)) ->
          bucket w' !! key = bucket w !! key).
Proof.
  intros Hscan Hfaults Hnd Hup Hparams.
  set (has := fun _ : string => false).
  destruct (get_image_files_found self directory w image_files Hscan) as [_ Hroot].
  assert (Hplan : forall image_path, In image_path image_files ->
            exists oo ot,
              expected_original self (files w) image_path = Some oo
              /\ expected_thumbnail self (files w) image_path = Some ot
              /\ quiet_run has (files w)
                   (ImageUploader.process_and_upload_image self image_path directory true)
                 = Some (inr (true, true),
                         List.map EHead
                           [ImageUploader.original_key_of self (Path.parts image_path);
                            ImageUploader.thumbnail_key_of self (Path.parts image_path)]
                         ++ [EPut (ImageUploader.original_key_of self (Path.parts image_path))
                               oo;
                             EPut (ImageUploader.thumbnail_key_of self
                                     (Path.parts image_path)) ot])).
  { intros image_path Hin. destruct (Hup image_path Hin) as (Hu & _).
    destruct (uploadable_inv self (files w) image_path Hu)
      as (f & bytes & img & thumbnail & Hf & Hb & Hi & Hr & Hoo & Hot).
    eexists _, _. split; [exact Hoo|]. split; [exact Hot|].
    apply (quiet_run_process_first self has (files w) image_path directory f bytes img
             thumbnail); auto. }
  apply (uploading_run self has (in_step self has (files w))
           (fun image_path =>
              [ImageUploader.original_key_of self (Path.parts image_path);
               ImageUploader.thumbnail_key_of self (Path.parts image_path)])
           schedule directory true workers batch_size w image_files
           (in_step_advance self has (files w)) (in_step_delete self has (files w))
           (in_step_clear self has (files w)) (in_step_app self has (files w)) Hscan).
  - split_and!; [exact Hfaults | reflexivity | discriminate].
  - exact Hplan.
  - intros image_path key Hin Hkey. destruct (Hup image_path Hin) as (_ & Ho & Ht).
    destruct Hkey as [<- | [<- | []]]; assumption.
  - split.
    + unfold tasks_for. rewrite List.map_map. exact Hnd.
    + apply Forall_forall. intros tk Htk. apply (proj1 (list_elem_of_In _ _)) in Htk.
      apply in_map_iff in Htk as (image_path & <- & Hin). cbn [fst snd].
      destruct (Hplan image_path Hin) as (oo & ot & Hoo & Hot & Hrun).
      unfold plan_of, first_upload_trace. rewrite Hrun, Hoo, Hot. by exists [].
  - exact Hparams.
Qed.

Lemma first_run_uploads_every_file_witness :
  exists w',
    ImageUploader.upload_directory Scenario.uploader [2; 0; 1; 1; 0; 2; 2]%nat "imgs" true
      3 2 Scenario.first_run = (inr tt, w')
    /\ the_stats w'
       = mk_stats (Z.of_nat (length Scenario.three_paths))
           (successful_uploads (the_stats Scenario.first_run)
            + Z.of_nat (length Scenario.three_paths))
           (failed_uploads (the_stats Scenario.first_run))
           (skipped_files (the_stats Scenario.first_run))
    /\ length (puts (calls w'))
       = (length (puts (calls Scenario.first_run)) + 2 * length Scenario.three_paths)%nat
    /\ (forall image_path, In image_path Scenario.three_paths ->
          bucket w' !! ImageUploader.original_key_of Scenario.uploader
                         (Path.parts image_path)
          = expected_original Scenario.uploader (files Scenario.first_run) image_path
          /\ bucket w' !! ImageUploader.thumbnail_key_of Scenario.uploader
                            (Path.parts image_path)
             = expected_thumbnail Scenario.uploader (files Scenario.first_run) image_path)
    /\ (forall key,
          (forall image_path, In image_path Scenario.three_paths ->
             key <> ImageUploader.original_key_of Scenario.uploader (Path.parts image_path)
             /\ key <> ImageUploader.thumbnail_key_of Scenario.uploader
                         (Path.parts image_path)) ->
          bucket w' !! key = bucket Scenario.first_run !! key).
Proof.
  apply (first_run_uploads_every_file Scenario.uploader [2; 0; 1; 1; 0; 2; 2]%nat "imgs" 3 2
           Scenario.first_run Scenario.three_paths).
  - vm_compute. reflexivity.
  - reflexivity.
  - apply (bool_decide_eq_true_1 _). vm_compute. reflexivity.
  - intros image_path [<- | [<- | [<- | []]]]; split_and!;
      try reflexivity; vm_compute; eauto.
  - right. lia.
Defined.

(** ** [process_and_upload_image], further *)

Lemma file_exists_raises (self : ImageUploader.t) (key : string) (w : world) (e : Py.exn) :
  fst (run (ImageUploader.file_exists_in_spaces self key) w) = inl e ->
  Py.is_ClientError e = false /\ head (faults w) = Some (Some e).
Proof.
  rewrite run_file_exists_in_spaces, handle_head. cbv zeta. unfold take_fault.
  destruct (faults w) as [|[e1|] fs]; cbn [fst snd].
  - destruct (bucket w !! key); simpl; discriminate.
  - destruct (Py.is_ClientError e1) eqn:He1; simpl; [discriminate|].
    intros [= <-]. auto.
  - destruct (bucket w !! key); simpl; discriminate.
Qed.

Lemma file_exists_faults (self : ImageUploader.t) (key : string) (w : world) :
  faults (snd (run (ImageUploader.file_exists_in_spaces self key) w)) = tail (faults w).
Proof.
  rewrite run_file_exists_in_spaces, handle_head. cbv zeta. unfold take_fault.
  destruct (faults w) as [|[e1|] fs] eqn:Hfaults; cbn [fst snd].
  - destruct (bucket w !! key); simpl; by rewrite Hfaults.
  - destruct (Py.is_ClientError e1); reflexivity.
  - destruct (bucket w !! key); reflexivity.
Qed.

Lemma existence_checks_raises (self : ImageUploader.t) (skip_existing : bool)
    (original_key thumbnail_key : string) (w : world) (e : Py.exn) :
  fst (run (ImageUploader.existence_checks self skip_existing original_key thumbnail_key) w)
  = inl e ->
  skip_existing = true /\ Py.is_ClientError e = false /\ In (Some e) (take 2 (faults w)).
Proof.
  unfold ImageUploader.existence_checks. destruct skip_existing; [|discriminate].
  rewrite run_bind.
  pose proof (file_exists_raises self original_key w) as H1.
  pose proof (file_exists_faults self original_key w) as Hf.
  destruct (run (ImageUploader.file_exists_in_spaces self original_key) w)
    as [[e1 | oe] w1]; cbn [fst snd] in *.
  - intros [= <-]. destruct (H1 e1 eq_refl) as [Hc Hh]. split_and!; auto.
    destruct (faults w) as [|a fs]; [discriminate Hh|]. injection Hh as ->. by left.
  - rewrite run_bind.
    pose proof (file_exists_raises self thumbnail_key w1) as H2.
    destruct (run (ImageUploader.file_exists_in_spaces self thumbnail_key) w1)
      as [[e2 | te] w2]; cbn [fst snd] in *; [|discriminate].
    intros [= <-]. destruct (H2 e2 eq_refl) as [Hc Hh]. split_and!; auto.
    rewrite Hf in Hh. destruct (faults w) as [|a [|b fs]]; try discriminate Hh.
    injection Hh as ->. right. by left.
Qed.

(** X14. For a file below the base directory, [process_and_upload_image]
    raises only with [skip_existing], and only what one of its two
    existence checks got from the store that is not a [ClientError];
    uploads and thumbnail generation never make it raise. *)
Theorem process_raises_only_from_existence_check
    (self : ImageUploader.t) (image_path : Path.t) (base_dir : string)
    (skip_existing : bool) (w : world) (e : Py.exn) :
  Path.root image_path = base_dir ->
  fst (run (ImageUploader.process_and_upload_image self image_path base_dir skip_existing) w)
  = inl e ->
  skip_existing = true
  /\ Py.is_ClientError e = false
  /\ In (Some e) (take 2 (faults w)).
Proof.
  intros Hroot. unfold ImageUploader.process_and_upload_image, Path.relative_to.
  rewrite Hroot, String.eqb_refl. rewrite run_bind, run_lift.
  rewrite run_bind.
  pose proof (existence_checks_raises self skip_existing
                (ImageUploader.original_key_of self (Path.parts image_path))
                (ImageUploader.thumbnail_key_of self (Path.parts image_path)) w) as Hchecks.
  destruct (run (ImageUploader.existence_checks self skip_existing _ _) w)
    as [[e0 | [oe te]] w1]; cbn [fst snd] in *.
  - intros [= <-]. by apply Hchecks.
  - destruct (skip_existing && (oe && te)); [simpl; discriminate|].
    rewrite run_bind.
    destruct (run_upload_original self image_path
                (ImageUploader.original_key_of self (Path.parts image_path))
                skip_existing oe w1) as (b & w2 & new & -> & _).
    rewrite run_bind.
    destruct (run_upload_thumbnail_returns self image_path (Path.parts image_path)
                (ImageUploader.thumbnail_key_of self (Path.parts image_path))
                skip_existing te w2) as (b' & w3 & ->).
    simpl. discriminate.
Qed.

Lemma process_raises_witness :
  true = true
  /\ Py.is_ClientError (Py.BotoCoreError "EndpointConnectionError") = false
  /\ In (Some (Py.BotoCoreError "EndpointConnectionError"))
        (take 2 (faults Scenario.unreachable)).
Proof.
  apply (process_raises_only_from_existence_check Scenario.uploader Scenario.a_png "imgs"
           true Scenario.unreachable (Py.BotoCoreError "EndpointConnectionError")).
  - reflexivity.
  - reflexivity.
Defined.

(** ** [upload_directory]: the errors that end a run *)




(** X16. With more than one worker and a negative batch size there is no
    batch: over a directory with images [upload_directory] returns and
    logs its summary, having set [total_files] and done nothing else; no
    file is looked at and nothing is sent to the store. *)
Theorem negative_batch_size_uploads_nothing
    (self : ImageUploader.t) (schedule : list nat) (directory : string)
    (skip_existing : bool) (workers batch_size : Z) (w : world)
    (image_files : list Path.t) :
  fst (run (ImageUploader.get_image_files directory) w) = inr image_files ->
  workers <> 1 ->
  batch_size < 0 ->
  exists w',
    ImageUploader.upload_directory self schedule directory skip_existing workers
      batch_size w = (inr tt, w')
    /\ calls w' = calls w
    /\ bucket w' = bucket w
    /\ the_stats w'
       = mk_stats (Z.of_nat (length image_files)) (successful_uploads (the_stats w))
           (failed_uploads (the_stats w)) (skipped_files (the_stats w)).
Proof.
  intros Hscan Hworkers Hbatch.
  destruct (get_image_files_found self directory w image_files Hscan) as [[entries Hdir] _].
  destruct (run_get_image_files directory
              (add_log (Info_starting directory skip_existing workers) w) entries Hdir)
    as (l & Hrun & _).
  assert (Hl : Path.sorted l = image_files).
  { rewrite (get_image_files_dirs directory w
               (add_log (Info_starting directory skip_existing workers) w) eq_refl) in Hscan.
    rewrite Hrun in Hscan. simpl in Hscan. congruence. }
  unfold ImageUploader.upload_directory. rewrite run_bind, Hrun.
  rewrite run_bind, run_perform. simpl run. rewrite Hl. clear Hl Hrun.
  destruct image_files as [|image_path rest]; [simpl; eauto|].
  replace (workers =? 1) with false by (symmetry; apply Z.eqb_neq; lia).
  unfold ImageUploader._upload_concurrent, ImageUploader.range0. cbv zeta.
  replace (batch_size =? 0) with false by (symmetry; apply Z.eqb_neq; lia).
  replace (0 <? batch_size) with false by (symmetry; apply Z.ltb_ge; lia).
  simpl. eauto.
Qed.

Lemma negative_batch_size_witness :
  exists w',
    ImageUploader.upload_directory Scenario.uploader [] "imgs" true 4 (-5)
      Scenario.first_run = (inr tt, w')
    /\ calls w' = calls Scenario.first_run
    /\ bucket w' = bucket Scenario.first_run
    /\ the_stats w'
       = mk_stats (Z.of_nat (length Scenario.three_paths))
           (successful_uploads (the_stats Scenario.first_run))
           (failed_uploads (the_stats Scenario.first_run))
           (skipped_files (the_stats Scenario.first_run)).
Proof.
  apply (negative_batch_size_uploads_nothing Scenario.uploader [] "imgs" true 4 (-5)
           Scenario.first_run Scenario.three_paths).
  - vm_compute. reflexivity.
  - lia.
  - lia.
Defined.

(** ** [main] *)



(** ** The keys *)

(** X18. The key of an original is never the key of a thumbnail, of the
    same file or of another; and two files get the same key of a kind
    only when their relative paths read the same. *)
Theorem keys_never_collide (self : ImageUploader.t) (p q : list string) :
  ImageUploader.original_key_of self p <> ImageUploader.thumbnail_key_of self q
  /\ (ImageUploader.original_key_of self p = ImageUploader.original_key_of self q
      <-> Path.as_posix p = Path.as_posix q)
  /\ (ImageUploader.thumbnail_key_of self p = ImageUploader.thumbnail_key_of self q
      <-> Path.as_posix p = Path.as_posix q).
Proof.
  split_and!.
  - apply key_namespaces_apart.
  - split; [apply original_key_inj|].
    unfold ImageUploader.original_key_of. by intros ->.
  - split; [apply thumbnail_key_inj|].
    unfold ImageUploader.thumbnail_key_of. by intros ->.
Qed.
